(** * Bercario Estelar: the simulation core of src/App.tsx

    A shallow embedding of the physics tick ([PhysicsSystem]), of the
    registry handlers ([handleMerger], [handleMassTransfer]) and of the
    classifier inside [handleCloudClick], followed by the properties the
    specification states about them.

    Numbers.  A JavaScript [number] is modelled as a real number: the
    arithmetic of the source is kept operation by operation, rounding and
    the special values (NaN, infinities) are not represented.  The
    comparisons of the source become the decidable comparisons of [R],
    wrapped as booleans.

    Mutation.  [PhysicsSystem] mutates the objects of the [stars] array in
    place.  A pair interaction touches exactly the two bodies of the pair,
    so the array is a list and each mutation is a functional record update
    whose result is written back at the same place. *)

From Stdlib Require Import Reals Lra Lia String List Bool.
Import ListNotations.

Open Scope R_scope.

(** ** JavaScript primitives used by the source *)

Definition Rltb (a b : R) : bool := if Rlt_dec a b then true else false.
Definition Rgtb (a b : R) : bool := Rltb b a.
Definition Reqb (a b : R) : bool := if Req_dec_T a b then true else false.

(** [String.prototype.includes]. *)
Definition includes (hay needle : string) : bool :=
  match String.index 0 needle hay with
  | Some _ => true
  | None => false
  end.

Definition Math_sqrt (v : R) : R := sqrt v.

(** [Math.pow] on the bases the engine feeds it, radii and sums of their
    cubes, which are positive.  On a base that is not positive JavaScript
    answers 0, an infinity, NaN or a signed power according to the
    exponent; the model answers 0 there. *)
Definition Math_pow (base exponent : R) : R :=
  if Rlt_dec 0 base then Rpower base exponent else 0.

(** ** types.ts *)

Inductive StarType : Type :=
| BROWN_DWARF
| RED_DWARF
| YELLOW_DWARF
| BINARY_STAR
| BLUE_GIANT
| NEUTRON_STAR
| BLACK_HOLE
| SUPERMASSIVE_BLACK_HOLE
| QUASAR
| ROGUE_PLANET.

(** The string value of each member of the enum. *)
Definition StarType_value (t : StarType) : string :=
  match t with
  | BROWN_DWARF => "Anã Castanha"
  | RED_DWARF => "Anã Vermelha"
  | YELLOW_DWARF => "Anã Amarela (Tipo Sol)"
  | BINARY_STAR => "Sistema Binário"
  | BLUE_GIANT => "Gigante Azul"
  | NEUTRON_STAR => "Estrela de Nêutrons (Pulsar)"
  | BLACK_HOLE => "Buraco Negro"
  | SUPERMASSIVE_BLACK_HOLE => "Buraco Negro Supermassivo"
  | QUASAR => "Quasar"
  | ROGUE_PLANET => "Planeta Errante"
  end%string.

Definition StarType_eqb (a b : StarType) : bool :=
  String.eqb (StarType_value a) (StarType_value b).

Record Position : Type := mkPosition { x : R; y : R; z : R }.

Inductive PlanetType : Type := rocky | gas | ice.

Record PlanetData : Type := mkPlanet {
  planet_id : string;
  planet_distance : R;
  planet_size : R;
  planet_speed : R;
  planet_angle : R;
  planet_color : string;
  planet_type : PlanetType;
  planet_mass : option R
}.

Record CloudData : Type := mkCloud {
  cloud_id : string;
  cloud_position : Position;
  cloud_mass : R;
  cloud_size : R;
  isCollapsing : bool;
  collapseProgress : R;
  cloud_rotationSpeed : R
}.

(** [consumedBy] is [undefined], [null] or an id in the source, which only
    ever tests it for truthiness: [None] stands for both absent values.
    In the same way [isShredding = false] stands for [undefined] and
    [false]. *)
Record StarData : Type := mkStar {
  id : string;
  position : Position;
  velocity : Position;
  mass : R;
  type : StarType;
  radius : R;
  color : string;
  secondaryColor : option string;
  emissiveIntensity : R;
  rotationSpeed : R;
  accretionDisk : bool;
  planets : list PlanetData;
  age : R;
  consumedBy : option string;
  isShredding : bool
}.

(** Field assignments. *)
Definition set_position (p : Position) (s : StarData) : StarData :=
  mkStar (id s) p (velocity s) (mass s) (type s) (radius s) (color s)
    (secondaryColor s) (emissiveIntensity s) (rotationSpeed s)
    (accretionDisk s) (planets s) (age s) (consumedBy s) (isShredding s).

Definition set_velocity (v : Position) (s : StarData) : StarData :=
  mkStar (id s) (position s) v (mass s) (type s) (radius s) (color s)
    (secondaryColor s) (emissiveIntensity s) (rotationSpeed s)
    (accretionDisk s) (planets s) (age s) (consumedBy s) (isShredding s).

Definition set_mass (m : R) (s : StarData) : StarData :=
  mkStar (id s) (position s) (velocity s) m (type s) (radius s) (color s)
    (secondaryColor s) (emissiveIntensity s) (rotationSpeed s)
    (accretionDisk s) (planets s) (age s) (consumedBy s) (isShredding s).

Definition set_radius (r : R) (s : StarData) : StarData :=
  mkStar (id s) (position s) (velocity s) (mass s) (type s) r (color s)
    (secondaryColor s) (emissiveIntensity s) (rotationSpeed s)
    (accretionDisk s) (planets s) (age s) (consumedBy s) (isShredding s).

Definition set_age (a : R) (s : StarData) : StarData :=
  mkStar (id s) (position s) (velocity s) (mass s) (type s) (radius s)
    (color s) (secondaryColor s) (emissiveIntensity s) (rotationSpeed s)
    (accretionDisk s) (planets s) a (consumedBy s) (isShredding s).

Definition set_consumedBy (c : option string) (s : StarData) : StarData :=
  mkStar (id s) (position s) (velocity s) (mass s) (type s) (radius s)
    (color s) (secondaryColor s) (emissiveIntensity s) (rotationSpeed s)
    (accretionDisk s) (planets s) (age s) c (isShredding s).

Definition set_isShredding (b : bool) (s : StarData) : StarData :=
  mkStar (id s) (position s) (velocity s) (mass s) (type s) (radius s)
    (color s) (secondaryColor s) (emissiveIntensity s) (rotationSpeed s)
    (accretionDisk s) (planets s) (age s) (consumedBy s) b.

(** ** The classifier (handleCloudClick, "Determine Star Type") *)

Definition COLORS_RED : string := "#ff4444".
Definition COLORS_YELLOW : string := "#ffdd44".
Definition COLORS_BLUE : string := "#4488ff".
Definition COLORS_WHITE : string := "#ffffff".
Definition COLORS_PURPLE : string := "#aa44ff".
Definition COLORS_ORANGE : string := "#ff8822".
Definition COLORS_BROWN : string := "#8B4513".

(** The variables the branch assigns: [type], [color], [radius],
    [intensity], [disk] and [secondaryColor]. *)
Record Classification : Type := mkClassification {
  cls_type : StarType;
  cls_color : string;
  cls_radius : R;
  cls_intensity : R;
  cls_disk : bool;
  cls_secondaryColor : option string
}.

Definition classify (mass rand : R) : Classification :=
  if Rltb mass 15 then
    mkClassification BROWN_DWARF COLORS_BROWN 0.6 0.5 false None
  else if Rltb mass 30 then
    mkClassification RED_DWARF COLORS_RED 0.8 2 true None
  else if Rltb mass 60 then
    if Rgtb rand 0.8 then
      mkClassification BINARY_STAR COLORS_YELLOW 1.2 4 true (Some COLORS_RED)
    else
      mkClassification YELLOW_DWARF COLORS_YELLOW 1.5 5 true None
  else if Rltb mass 80 then
    mkClassification BLUE_GIANT COLORS_BLUE 2.5 8 true None
  else if Rltb mass 90 then
    mkClassification NEUTRON_STAR COLORS_WHITE 0.5 15 true None
  else if Rltb mass 98 then
    mkClassification BLACK_HOLE "#000000" 1 0 true None
  else
    mkClassification QUASAR COLORS_PURPLE 3 20 true None.

(** ** PhysicsSystem *)

(** Constants for physics. *)
Definition G : R := 0.5.
Definition SOFTENING : R := 2.0.

(** The calls of the two callbacks, in the order the tick makes them. *)
Inductive Event : Type :=
| onMerger (winnerId loserId : string)
| onMassTransfer (sourceId targetId : string) (amount : R).

(** The constants computed at the head of the inner loop body from
    [bodyA] and [bodyB]. *)
Definition dx (bodyA bodyB : StarData) : R := x (position bodyB) - x (position bodyA).
Definition dy (bodyA bodyB : StarData) : R := y (position bodyB) - y (position bodyA).
Definition dz (bodyA bodyB : StarData) : R := z (position bodyB) - z (position bodyA).

Definition distSq (bodyA bodyB : StarData) : R :=
  dx bodyA bodyB * dx bodyA bodyB + dy bodyA bodyB * dy bodyA bodyB
  + dz bodyA bodyB * dz bodyA bodyB.

Definition dist (bodyA bodyB : StarData) : R := Math_sqrt (distSq bodyA bodyB).

Definition combinedRadius (bodyA bodyB : StarData) : R := radius bodyA + radius bodyB.

Definition mergeThreshold (bodyA bodyB : StarData) : R := combinedRadius bodyA bodyB * 0.4.

Definition captureRadius (bodyA bodyB : StarData) : R := combinedRadius bodyA bodyB * 6.0.

(** [isBH_A], [isBH_B]. *)
Definition isBH (body : StarData) : bool :=
  includes (StarType_value (type body)) "Buraco Negro" || StarType_eqb (type body) QUASAR.

Definition feedingThreshold (bodyA bodyB : StarData) : R :=
  combinedRadius bodyA bodyB * (if isBH bodyA || isBH bodyB then 8 else 0).

(** Determine Predator/Prey: [winner] and [loser] are aliases of [bodyA]
    and [bodyB]; [winnerIsB] tells which way round. *)
Definition winnerIsB (bodyA bodyB : StarData) : bool :=
  if isBH bodyB && negb (isBH bodyA) then true
  else if Rgtb (mass bodyB) (mass bodyA) && negb (isBH bodyA) then true
  else false.

Definition winner (bodyA bodyB : StarData) : StarData :=
  if winnerIsB bodyA bodyB then bodyB else bodyA.

Definition loser (bodyA bodyB : StarData) : StarData :=
  if winnerIsB bodyA bodyB then bodyA else bodyB.

(** Standard Gravity: the force and its components. *)
Definition force (bodyA bodyB : StarData) : R :=
  (G * mass bodyA * mass bodyB) / (distSq bodyA bodyB + SOFTENING).

Definition fx (bodyA bodyB : StarData) : R := force bodyA bodyB * dx bodyA bodyB / dist bodyA bodyB.
Definition fy (bodyA bodyB : StarData) : R := force bodyA bodyB * dy bodyA bodyB / dist bodyA bodyB.
Definition fz (bodyA bodyB : StarData) : R := force bodyA bodyB * dz bodyA bodyB / dist bodyA bodyB.

(** The two velocity updates of the gravity block. *)
Definition gravity (bodyA bodyB : StarData) (dt : R) : StarData * StarData :=
  (set_velocity
     (mkPosition (x (velocity bodyA) + (fx bodyA bodyB / mass bodyA) * dt)
                 (y (velocity bodyA) + (fy bodyA bodyB / mass bodyA) * dt)
                 (z (velocity bodyA) + (fz bodyA bodyB / mass bodyA) * dt)) bodyA,
   set_velocity
     (mkPosition (x (velocity bodyB) - (fx bodyA bodyB / mass bodyB) * dt)
                 (y (velocity bodyB) - (fy bodyA bodyB / mass bodyB) * dt)
                 (z (velocity bodyB) - (fz bodyA bodyB / mass bodyB) * dt)) bodyB).

(** ORBITAL CAPTURE & STABILIZATION: the body of the [if]; [d] is the
    distance computed at the head of the loop body.  The source also
    computes [massRatio] here and never reads it. *)
Definition relVx (bodyA bodyB : StarData) : R := x (velocity bodyB) - x (velocity bodyA).
Definition relVy (bodyA bodyB : StarData) : R := y (velocity bodyB) - y (velocity bodyA).
Definition relVz (bodyA bodyB : StarData) : R := z (velocity bodyB) - z (velocity bodyA).

Definition radialVel (bodyA bodyB : StarData) (d : R) : R :=
  relVx bodyA bodyB * (dx bodyA bodyB / d) + relVy bodyA bodyB * (dy bodyA bodyB / d)
  + relVz bodyA bodyB * (dz bodyA bodyB / d).

Definition damping (bodyA bodyB : StarData) (d dt : R) : R :=
  if Rgtb (radialVel bodyA bodyB d) 0 then 0.1 * dt else 0.005 * dt.

Definition capture (bodyA bodyB : StarData) (d dt : R) : StarData * StarData :=
  let fDampX := relVx bodyA bodyB * damping bodyA bodyB d dt in
  let fDampY := relVy bodyA bodyB * damping bodyA bodyB d dt in
  let fDampZ := relVz bodyA bodyB * damping bodyA bodyB d dt in
  (set_velocity
     (mkPosition
        (x (velocity bodyA) + fDampX * (mass bodyB / (mass bodyA + mass bodyB)))
        (y (velocity bodyA) + fDampY * (mass bodyB / (mass bodyA + mass bodyB)))
        (z (velocity bodyA) + fDampZ * (mass bodyB / (mass bodyA + mass bodyB)))) bodyA,
   set_velocity
     (mkPosition
        (x (velocity bodyB) - fDampX * (mass bodyA / (mass bodyA + mass bodyB)))
        (y (velocity bodyB) - fDampY * (mass bodyA / (mass bodyA + mass bodyB)))
        (z (velocity bodyB) - fDampZ * (mass bodyA / (mass bodyA + mass bodyB)))) bodyB).

(** Final Merger: the assignments to [winner], given the winner [w] and
    the loser [l] as they are when the block is entered. *)
Definition merge (w l : StarData) : StarData :=
  let totalMass := mass w + mass l in
  let w1 :=
    set_velocity
      (mkPosition
         ((x (velocity w) * mass w + x (velocity l) * mass l) / totalMass)
         ((y (velocity w) * mass w + y (velocity l) * mass l) / totalMass)
         ((z (velocity w) * mass w + z (velocity l) * mass l) / totalMass)) w in
  let w2 := set_mass totalMass w1 in
  set_radius (Math_pow (Math_pow (radius w2) 3 + Math_pow (radius l) 3) (1 / 3)) w2.

(** Feeding Logic, inside [if (loser.mass > 0.1)]: the assignments to
    [loser].  [rvx], [rvy], [rvz] are [bodyB.velocity - bodyA.velocity]. *)
Definition shred (winnerId : string) (rvx rvy rvz : R) (dt : R) (l : StarData) : StarData :=
  let l1 := set_consumedBy (Some winnerId) l in
  let l2 := set_isShredding true l1 in
  let spiralDrag := 0.05 * dt in
  set_velocity
    (mkPosition (x (velocity l2) - rvx * spiralDrag)
                (y (velocity l2) - rvy * spiralDrag)
                (z (velocity l2) - rvz * spiralDrag)) l2.

(** What one execution of the inner loop body leaves behind: the two
    bodies, the callbacks fired, and whether it executed [return]. *)
Record PairResult : Type := mkPairResult {
  resA : StarData;
  resB : StarData;
  fired : list Event;
  returned : bool
}.

(** FEEDING & MERGING, on the bodies [a], [b] as the blocks before have
    left them; [wB] is the predator choice made at the head. *)
Definition feeding_merging (a b : StarData) (wB : bool) (d mergeT feedT dt : R) : PairResult :=
  let w := if wB then b else a in
  let l := if wB then a else b in
  if Rltb d mergeT then
    let w' := merge w l in
    mkPairResult (if wB then a else w') (if wB then w' else b)
      [onMerger (id w) (id l)] true
  else if Rltb d feedT then
    let transferRate := 0.1 * dt in
    if Rgtb (mass l) 0.1 then
      let l' := shred (id w) (relVx a b) (relVy a b) (relVz a b) dt l in
      mkPairResult (if wB then l' else a) (if wB then b else l')
        [onMassTransfer (id l) (id w) transferRate] false
    else mkPairResult a b [] false
  else mkPairResult a b [] false.

(** PHYSICS FORCES and ORBITAL CAPTURE & STABILIZATION: the two velocity
    blocks that run before the zone is acted upon.  The positions do not
    change inside the loops, so the displacement the capture block reads
    from the bodies is the one computed at the head. *)
Definition forces_and_capture (bodyA bodyB : StarData) (dt : R) : StarData * StarData :=
  let d := dist bodyA bodyB in
  let mergeT := mergeThreshold bodyA bodyB in
  let captureR := captureRadius bodyA bodyB in
  let '(a1, b1) := gravity bodyA bodyB dt in
  if Rltb d captureR && Rgtb d mergeT then capture a1 b1 d dt else (a1, b1).

(** The body of the inner loop for the pair [bodyA = stars[i]],
    [bodyB = stars[j]]. *)
Definition pair_step (bodyA bodyB : StarData) (dt : R) : PairResult :=
  let '(a2, b2) := forces_and_capture bodyA bodyB dt in
  feeding_merging a2 b2 (winnerIsB bodyA bodyB) (dist bodyA bodyB)
    (mergeThreshold bodyA bodyB) (feedingThreshold bodyA bodyB) dt.

(** The inner loop, [for (j = i + 1; j < stars.length; j++)], for
    [bodyA = stars[i]] and [rest = stars[i+1..]].  It leaves [stars[i]],
    [stars[i+1..]], the callbacks fired, and whether [return] was
    executed. *)
Record InnerResult : Type := mkInnerResult {
  innerA : StarData;
  innerRest : list StarData;
  innerCalls : list Event;
  innerStopped : bool
}.

Fixpoint inner_loop (bodyA : StarData) (rest : list StarData) (dt : R) : InnerResult :=
  match rest with
  | [] => mkInnerResult bodyA [] [] false
  | bodyB :: rest' =>
      let r := pair_step bodyA bodyB dt in
      if returned r then mkInnerResult (resA r) (resB r :: rest') (fired r) true
      else
        let k := inner_loop (resA r) rest' dt in
        mkInnerResult (innerA k) (resB r :: innerRest k)
          (fired r ++ innerCalls k) (innerStopped k)
  end.

(** The outer loop, [for (i = 0; i < stars.length; i++)], on
    [stars[i..]]; [n] counts the iterations that remain. *)
Record LoopResult : Type := mkLoopResult {
  bodies : list StarData;
  calls : list Event;
  stopped : bool
}.

Fixpoint outer_loop (n : nat) (stars : list StarData) (dt : R) : LoopResult :=
  match n, stars with
  | S n', bodyA :: rest =>
      let k := inner_loop bodyA rest dt in
      if innerStopped k then
        mkLoopResult (innerA k :: innerRest k) (innerCalls k) true
      else
        let k' := outer_loop n' (innerRest k) dt in
        mkLoopResult (innerA k :: bodies k') (innerCalls k ++ calls k') (stopped k')
  | _, _ => mkLoopResult stars [] false
  end.

Definition pair_loops (stars : list StarData) (dt : R) : LoopResult :=
  outer_loop (length stars) stars dt.

(** 1. Update Age. *)
Definition update_age (dt : R) (star : StarData) : StarData :=
  set_age (age star + dt * 10) star.

(** Update Positions. *)
Definition update_position (dt : R) (star : StarData) : StarData :=
  set_position
    (mkPosition (x (position star) + x (velocity star) * dt)
                (y (position star) + y (velocity star) * dt)
                (z (position star) + z (velocity star) * dt)) star.

(** The [useFrame] callback of [PhysicsSystem]: the array it leaves and
    the callbacks it fired. *)
Definition tick (stars : list StarData) (timeScale delta : R) : list StarData * list Event :=
  let dt := delta * timeScale in
  if Reqb dt 0 then (stars, [])
  else
    let aged := if Rgtb dt 0 then map (update_age dt) stars else stars in
    let k := pair_loops aged dt in
    if stopped k then (bodies k, calls k)
    else (map (update_position dt) (bodies k), calls k).

(** ** The registry handlers of App *)

(** [stars.find(s => s.id === wanted)], as a test for presence. *)
Definition has_id (wanted : string) (stars : list StarData) : bool :=
  existsb (fun s => String.eqb (id s) wanted) stars.

(** [handleMerger]: the new value of the [stars] state. *)
Definition handleMerger (winnerId loserId : string) (stars : list StarData) : list StarData :=
  if has_id winnerId stars && has_id loserId stars then
    filter (fun s => negb (String.eqb (id s) loserId)) stars
  else stars.

(** [prevStars.findIndex(s => s.id === wanted)]: [None] is -1. *)
Fixpoint findIndex (wanted : string) (stars : list StarData) : option nat :=
  match stars with
  | [] => None
  | s :: rest =>
      if String.eqb (id s) wanted then Some O
      else match findIndex wanted rest with
           | Some i => Some (S i)
           | None => None
           end
  end.

(** [newStars[i] = v] on the copy of the array. *)
Fixpoint assign (i : nat) (v : StarData) (stars : list StarData) : list StarData :=
  match stars, i with
  | [], _ => []
  | _ :: rest, O => v :: rest
  | s :: rest, S i' => s :: assign i' v rest
  end.

(** [handleMassTransfer]: the updater passed to [setStars]. *)
Definition handleMassTransfer (sourceId targetId : string) (amount : R)
    (prevStars : list StarData) : list StarData :=
  match findIndex sourceId prevStars, findIndex targetId prevStars with
  | Some sourceIndex, Some _ =>
      match nth_error prevStars sourceIndex with
      | Some source =>
          if negb (isShredding source) then
            assign sourceIndex
              (set_isShredding true (set_consumedBy (Some targetId) source)) prevStars
          else prevStars
      | None => prevStars
      end
  | _, _ => prevStars
  end.

(** The star [handleCloudClick] builds when the collapse timer fires,
    from the cloud, the classification and the random draws for the
    velocity and the planets. *)
Definition newStar (cloud : CloudData) (rand : R) (v : Position)
    (planets : list PlanetData) : StarData :=
  let c := classify (cloud_mass cloud) rand in
  mkStar (cloud_id cloud) (cloud_position cloud) v (cloud_mass cloud)
    (cls_type c) (cls_radius c) (cls_color c) (cls_secondaryColor c)
    (cls_intensity c) (cloud_rotationSpeed cloud * 10) (cls_disk c)
    planets 0 None false.

(** [setStars(prev => [...prev, newStar])]. *)
Definition addStar (star : StarData) (prev : list StarData) : list StarData :=
  prev ++ [star].

(** One rendered frame: the tick, then the registry updates ([setStars])
    requested by the callbacks it fired, applied in the order in which
    they were fired. *)
Definition dispatch (stars : list StarData) (e : Event) : list StarData :=
  match e with
  | onMerger winnerId loserId => handleMerger winnerId loserId stars
  | onMassTransfer sourceId targetId amount =>
      handleMassTransfer sourceId targetId amount stars
  end.

Definition frame (stars : list StarData) (timeScale delta : R) : list StarData :=
  let '(stars', events) := tick stars timeScale delta in
  fold_left dispatch events stars'.

(** The render loop calls the frame once per rendered frame, each with
    its own [delta]. *)
Definition run (timeScale : R) (deltas : list R) (stars : list StarData) : list StarData :=
  fold_left (fun registry delta => frame registry timeScale delta) deltas stars.

(** ** Relations between a body and the same body later *)

(** [s'] is [s] with another velocity and nothing else changed. *)
Definition velocity_only (s s' : StarData) : Prop :=
  s' = set_velocity (velocity s') s.

(** The two feeding flags say the same thing. *)
Definition flags_agree (s : StarData) : Prop :=
  isShredding s = true <-> consumedBy s <> None.

(** [s'] has the identity of [s] and every feeding flag that [s] had. *)
Definition descends (s s' : StarData) : Prop :=
  id s' = id s /\
  (isShredding s = true -> isShredding s' = true) /\
  (consumedBy s <> None -> consumedBy s' <> None) /\
  (flags_agree s -> flags_agree s').

(** Every body of the registry [after] descends from one of [before]. *)
Definition registry_descends (before after : list StarData) : Prop :=
  forall s', In s' after -> exists s, In s before /\ descends s s'.

(** ** Bodies and registries used as concrete inputs

    Each body carries the radius, colour, intensity and disk flag that
    [classify] assigns to its type, and the flags of a newly created
    star. *)

Definition origin : Position := mkPosition 0 0 0.

Definition blackHole (name : string) (m : R) (p v : Position) : StarData :=
  mkStar name p v m BLACK_HOLE 1 "#000000" None 0 1 true [] 0 None false.

Definition yellowDwarf (name : string) (m : R) (p v : Position) : StarData :=
  mkStar name p v m YELLOW_DWARF 1.5 COLORS_YELLOW None 5 1 true [] 0 None false.

Definition redDwarf (name : string) (m : R) (p v : Position) : StarData :=
  mkStar name p v m RED_DWARF 0.8 COLORS_RED None 2 1 true [] 0 None false.

(** The feeding scenario: a black hole of mass 90 and a yellow dwarf of
    mass 40, ten units apart (merge threshold 1, feeding threshold 20). *)
Definition feeding_hole : StarData := blackHole "hole" 90 origin origin.
Definition feeding_dwarf : StarData := yellowDwarf "dwarf" 40 (mkPosition 10 0 0) origin.

(** The same pair with the prey first in the array, 18 units apart
    (capture radius 15, feeding threshold 20), the black hole moving
    across the line that joins them. *)
Definition prey_first_dwarf : StarData := yellowDwarf "dwarf" 40 origin origin.
Definition prey_first_hole : StarData :=
  blackHole "hole" 90 (mkPosition 18 0 0) (mkPosition 0 1 0).

(** Two red dwarfs 0.3 apart (merge threshold 0.64) and a third body far
    away, all three moving along the x axis. *)
Definition merging_a : StarData := redDwarf "a" 20 origin (mkPosition 1 0 0).
Definition merging_b : StarData :=
  redDwarf "b" 25 (mkPosition 0.3 0 0) (mkPosition 1 0 0).
Definition bystander : StarData :=
  yellowDwarf "c" 40 (mkPosition 100 0 0) (mkPosition 1 0 0).

(** A yellow dwarf at the origin and two black holes 0.6 apart (merge
    threshold 0.8), the nearer one 19.9 and the farther one 20.5 away from
    the dwarf (feeding threshold 20). *)
Definition third_body : StarData := yellowDwarf "d" 40 origin origin.
Definition survivor_hole : StarData := blackHole "bh1" 95 (mkPosition 20.5 0 0) origin.
Definition removed_hole : StarData := blackHole "bh2" 90 (mkPosition 19.9 0 0) origin.

(** Every feeding flag a body of [before] has, the body of [after] with
    the same id has too. *)
Definition flags_kept (before after : list StarData) : Prop :=
  forall s s', In s before -> In s' after -> id s' = id s ->
    (isShredding s = true -> isShredding s' = true) /\
    (consumedBy s <> None -> consumedBy s' <> None).

(** ** Quantities summed over the registry *)

(** The sum of [q] over the bodies of the registry. *)
Definition total (q : StarData -> R) (stars : list StarData) : R :=
  fold_right (fun s acc => q s + acc) 0 stars.

(** The components of the momentum of a body. *)
Definition momentum_x (s : StarData) : R := mass s * x (velocity s).
Definition momentum_y (s : StarData) : R := mass s * y (velocity s).
Definition momentum_z (s : StarData) : R := mass s * z (velocity s).

(** The callback is [onMassTransfer]. *)
Definition is_transfer (e : Event) : bool :=
  match e with
  | onMassTransfer _ _ _ => true
  | onMerger _ _ => false
  end.

(** The registry without the bodies that carry [loserId]: the filter of
    [handleMerger]. *)
Definition without (loserId : string) (stars : list StarData) : list StarData :=
  filter (fun s => negb (String.eqb (id s) loserId)) stars.

(** The data invariant of a body: positive mass and radius. *)
Definition well_formed (s : StarData) : Prop := 0 < mass s /\ 0 < radius s.

(** What the two loops leave, for a quantity [q] and a property [P] of
    the bodies: bodies that satisfy [P], the same ids, and either only
    transfers fired and [q] conserved, or transfers followed by one merger
    and [q] conserved once the loser is taken out. *)
Definition loops_conserve (q : StarData -> R) (P : StarData -> Prop)
    (before after : list StarData) (fired : list Event) (stop : bool) : Prop :=
  Forall P after /\ map id after = map id before /\
  if stop then
    exists pre w l,
      fired = pre ++ [onMerger w l] /\ forallb is_transfer pre = true /\
      In w (map id before) /\ In l (map id before) /\ w <> l /\
      total q (without l after) = total q before
  else forallb is_transfer fired = true /\ total q after = total q before.

(** A body later, with its id and its [q], and with [P] if it had it. *)
Definition keeps (q : StarData -> R) (P : StarData -> Prop) (s s' : StarData) : Prop :=
  id s' = id s /\ q s' = q s /\ (P s -> P s').

(** A body of positive mass that is not a compact object. *)
Definition ordinary (s : StarData) : Prop := 0 < mass s /\ isBH s = false.

(** ** The registry as the components read it *)

(** [stars.find(s => s.id === wanted)]. *)
Definition find_star (wanted : string) (stars : list StarData) : option StarData :=
  find (fun s => String.eqb (id s) wanted) stars.

(** The [predatorPosition] prop that App passes to [CelestialBody]:
    [star.consumedBy ? stars.find(s => s.id === star.consumedBy)?.position
    : undefined].  [None] is [undefined]. *)
Definition predatorPosition (stars : list StarData) (star : StarData) : option Position :=
  match consumedBy star with
  | Some predator =>
      match find_star predator stars with
      | Some s => Some (position s)
      | None => None
      end
  | None => None
  end.

(** [data.consumedBy && predatorPosition]: the matter stream is drawn. *)
Definition streamDrawn (stars : list StarData) (data : StarData) : bool :=
  match consumedBy data, predatorPosition stars data with
  | Some _, Some _ => true
  | _, _ => false
  end.

(** [data.isShredding && predatorPosition]: the body is drawn stretched
    towards its predator. *)
Definition drawnStretched (stars : list StarData) (data : StarData) : bool :=
  isShredding data &&
  match predatorPosition stars data with
  | Some _ => true
  | None => false
  end.

(** The focus after [handleMerger]: [if (focusedId === loserId)
    setFocusedId(winnerId)], inside [if (winner && loser)]. *)
Definition handleMerger_focus (focusedId : option string) (winnerId loserId : string)
    (stars : list StarData) : option string :=
  if has_id winnerId stars && has_id loserId stars then
    match focusedId with
    | Some f => if String.eqb f loserId then Some winnerId else focusedId
    | None => focusedId
    end
  else focusedId.

(** ** The planets of a new star (handleCloudClick, "Generate Planets Data") *)

(** The draws the loop body makes for one planet, in the order it makes
    them: [Math.random()] for the type, [uuidv4()], and [Math.random()]
    for the distance, the size, the speed and the angle. *)
Record PlanetDraws : Type := mkPlanetDraws {
  draw_type : R;
  draw_id : string;
  draw_distance : R;
  draw_size : R;
  draw_speed : R;
  draw_angle : R
}.

(** [Math.floor]. *)
Definition Math_floor (v : R) : Z := Int_part v.

(** [numPlanets = Math.floor(Math.random() * 6) + 2]. *)
Definition numPlanets (rand : R) : Z := (Math_floor (rand * 6) + 2)%Z.

Definition PlanetType_eqb (a b : PlanetType) : bool :=
  match a, b with
  | rocky, rocky | gas, gas | ice, ice => true
  | _, _ => false
  end.

(** The object pushed for index [i]; [r] is the radius of the star. *)
Definition generatePlanet (r : R) (i : nat) (d : PlanetDraws) : PlanetData :=
  let pType := if Rgtb (draw_type d) 0.6 then gas else rocky in
  mkPlanet (draw_id d)
    (r * 4 + (INR i * 2) + draw_distance d * 2)
    (r * (if PlanetType_eqb pType gas then 0.3 else 0.12) + draw_size d * 0.05)
    ((0.8 + draw_speed d) / (Math_sqrt (INR i + 1)))
    (draw_angle d * PI * 2)
    (if PlanetType_eqb pType gas then COLORS_ORANGE else "#888888")
    pType
    (Some (if PlanetType_eqb pType gas then 0.01 else 0.002)).

(** [for (let i = 0; i < numPlanets; i++) planets.push(...)]; [draws i]
    are the draws of iteration [i]. *)
Definition generatePlanets (r : R) (rand : R) (draws : nat -> PlanetDraws) : list PlanetData :=
  map (fun i => generatePlanet r i (draws i)) (seq 0 (Z.to_nat (numPlanets rand))).

(** ** The state of App that the cloud handlers read and write *)

Record AppState : Type := mkApp {
  app_clouds : list CloudData;
  app_stars : list StarData;
  app_focusedId : option string;
  app_isZoomMode : bool
}.

(** [{ ...c, isCollapsing: true }]. *)
Definition set_isCollapsing (b : bool) (c : CloudData) : CloudData :=
  mkCloud (cloud_id c) (cloud_position c) (cloud_mass c) (cloud_size c) b
    (collapseProgress c) (cloud_rotationSpeed c).

(** [clouds.find(c => c.id === id)]. *)
Definition find_cloud (wanted : string) (clouds : list CloudData) : option CloudData :=
  find (fun c => String.eqb (cloud_id c) wanted) clouds.

(** [handleCloudClick] up to [setTimeout]: the new state, and the cloud
    whose collapse timer is started, if any. *)
Definition handleCloudClick (st : AppState) (clicked : string) : AppState * option CloudData :=
  match find_cloud clicked (app_clouds st) with
  | None => (st, None)
  | Some cloud =>
      if app_isZoomMode st then
        (mkApp (app_clouds st) (app_stars st) (Some clicked) false, None)
      else if isCollapsing cloud then (st, None)
      else
        (mkApp (map (fun c => if String.eqb (cloud_id c) clicked
                              then set_isCollapsing true c else c) (app_clouds st))
               (app_stars st) (app_focusedId st) (app_isZoomMode st),
         Some cloud)
  end.

(** The callback of the collapse timer, for the cloud found at the click
    and the draws made then: the cloud leaves, the star arrives, the
    focus goes to the star. *)
Definition materialize (cloud : CloudData) (rand : R) (v : Position)
    (ps : list PlanetData) (st : AppState) : AppState :=
  mkApp (filter (fun c => negb (String.eqb (cloud_id c) (cloud_id cloud))) (app_clouds st))
        (addStar (newStar cloud rand v ps) (app_stars st))
        (Some (id (newStar cloud rand v ps)))
        (app_isZoomMode st).

(** The ids of everything in the universe. *)
Definition all_ids (st : AppState) : list string :=
  map cloud_id (app_clouds st) ++ map id (app_stars st).

(** ** Clouds: getRandomPosition, spawnCloud, UniverseSpawner *)

(** [getRandomPosition(range)] with its three draws. *)
Definition getRandomPosition (range : R) (u v w : R) : Position :=
  mkPosition ((u - 0.5) * range) ((v - 0.5) * range / 4) ((w - 0.5) * range).

(** The draws of one spawned cloud, in the order the object literal makes
    them. *)
Record CloudDraws : Type := mkCloudDraws {
  cd_id : string;
  cd_x : R;
  cd_y : R;
  cd_z : R;
  cd_mass : R;
  cd_size : R;
  cd_rotation : R
}.

(** [spawnCloud]. *)
Definition spawnCloud (clouds : list CloudData) (d : CloudDraws) : list CloudData :=
  if (30 <? length clouds)%nat then clouds
  else
    clouds ++
    [mkCloud (cd_id d) (getRandomPosition 350 (cd_x d) (cd_y d) (cd_z d))
       (cd_mass d * 100) (4 + cd_size d * 6) false 0 (0.1 + cd_rotation d * 0.3)].

(** The test of [UniverseSpawner]: [elapsedTime > 5 &&
    Math.floor(elapsedTime) % 8 === 0 && Math.random() < 0.01].  [%] on
    integers is the remainder that takes the sign of the dividend. *)
Definition spawn_due (elapsedTime rand : R) : bool :=
  Rgtb elapsedTime 5 && Z.eqb (Z.rem (Math_floor elapsedTime) 8) 0 && Rltb rand 0.01.

(** ** CelestialBody.tsx *)

(** [isBlackHole]. *)
Definition isBlackHole (data : StarData) : bool :=
  StarType_eqb (type data) BLACK_HOLE
  || StarType_eqb (type data) SUPERMASSIVE_BLACK_HOLE
  || StarType_eqb (type data) QUASAR.

(** [formationProgress = Math.min(data.age / 800, 1)] and
    [isForming = formationProgress < 1]. *)
Definition formationProgress (data : StarData) : R := Rmin (age data / 800) 1.
Definition isForming (data : StarData) : bool := Rltb (formationProgress data) 1.

(** 6. Planet Orbits: the [forEach] body assigns [planet.angle] and places
    the mesh of the planet; every planet has its mesh mounted. *)
Definition set_planet_angle (a : R) (p : PlanetData) : PlanetData :=
  mkPlanet (planet_id p) (planet_distance p) (planet_size p) (planet_speed p) a
    (planet_color p) (planet_type p) (planet_mass p).

Definition orbit_planets (timeScale delta : R) (activePlanets : list PlanetData)
    : list PlanetData :=
  let effectiveDelta := delta * timeScale in
  if negb (Reqb timeScale 0) && (0 <? length activePlanets)%nat then
    map (fun planet =>
           set_planet_angle (planet_angle planet + planet_speed planet * effectiveDelta)
             planet) activePlanets
  else activePlanets.

(** [ref.position.x] and [ref.position.z] as the loop body sets them from
    the planet. *)
Definition planet_mesh_x (planet : PlanetData) : R :=
  cos (planet_angle planet) * planet_distance planet.
Definition planet_mesh_z (planet : PlanetData) : R :=
  sin (planet_angle planet) * planet_distance planet.

(** 4. Binary Star System Logic: the x and z of the two meshes at clock
    time [elapsedTime]. *)
Definition binary_primary (data : StarData) (timeScale elapsedTime : R) : R * R :=
  let orbitSpeed := rotationSpeed data * 0.5 in
  let orbitRadius := radius data * 1.5 in
  let t := elapsedTime * timeScale in
  (cos (t * orbitSpeed) * orbitRadius, sin (t * orbitSpeed) * orbitRadius).

Definition binary_secondary (data : StarData) (timeScale elapsedTime : R) : R * R :=
  let orbitSpeed := rotationSpeed data * 0.5 in
  let orbitRadius := radius data * 1.5 in
  let t := elapsedTime * timeScale in
  (cos (t * orbitSpeed + PI) * orbitRadius, sin (t * orbitSpeed + PI) * orbitRadius).

(** 3. Spaghettification: [stretch] and [squash]. *)
Definition stretch (elapsedTime : R) : R := 1.5 + sin (elapsedTime * 20) * 0.1.
Definition squash (elapsedTime : R) : R := 1 / Math_sqrt (stretch elapsedTime).

(** ** HydrogenCloud.tsx *)



(** ** geminiService.ts *)

(** What [ai.models.generateContent] does: it throws, or it answers with
    a [text] that may be absent. *)
Inductive GenerateOutcome : Type :=
| Threw
| Responded (text : option string).

(** [generateStarDescription]: [response.text || ...] in the [try], the
    other fallback in the [catch]. *)
Definition generateStarDescription (outcome : GenerateOutcome) : string :=
  match outcome with
  | Responded (Some text) =>
      if String.eqb text EmptyString then "Dados estelares processados. Sistema estável." else text
  | Responded None => "Dados estelares processados. Sistema estável."
  | Threw =>
      "Uma nova estrela nasceu das cinzas cósmicas. Seus mistérios aguardam exploração."
  end.

(** ** Predators *)

(** [p] is the id of a compact body of the registry. *)
Definition compact_id (stars : list StarData) (p : string) : Prop :=
  exists t, In t stars /\ id t = p /\ isBH t = true.

(** Every body that names a predator names a compact body of the
    registry. *)
Definition predators_compact (stars : list StarData) : Prop :=
  forall s p, In s stars -> consumedBy s = Some p -> compact_id stars p.

(** ** Properties *)

(** *** Comparisons *)

Lemma Rltb_true (a b : R) : Rltb a b = true <-> a < b.
Proof. unfold Rltb. destruct (Rlt_dec a b); split; intros; congruence || assumption. Qed.

Lemma Rltb_false (a b : R) : Rltb a b = false <-> b <= a.
Proof.
  unfold Rltb. destruct (Rlt_dec a b); split; intros; try congruence; lra.
Qed.

Lemma Rgtb_true (a b : R) : Rgtb a b = true <-> a > b.
Proof. unfold Rgtb. rewrite Rltb_true. lra. Qed.

Lemma Rgtb_false (a b : R) : Rgtb a b = false <-> a <= b.
Proof. unfold Rgtb. rewrite Rltb_false. lra. Qed.

Lemma Reqb_true (a b : R) : Reqb a b = true <-> a = b.
Proof. unfold Reqb. destruct (Req_dec_T a b); split; intros; congruence. Qed.

Lemma Reqb_false (a b : R) : Reqb a b = false <-> a <> b.
Proof. unfold Reqb. destruct (Req_dec_T a b); split; intros; congruence. Qed.

(** Decide every comparison in the goal whose outcome linear arithmetic
    settles from the context. *)
Ltac decide_R :=
  repeat match goal with
  | |- context [Rltb ?a ?b] =>
      first [ replace (Rltb a b) with true by (symmetry; apply Rltb_true; lra)
            | replace (Rltb a b) with false by (symmetry; apply Rltb_false; lra) ]
  | |- context [Rgtb ?a ?b] =>
      first [ replace (Rgtb a b) with true by (symmetry; apply Rgtb_true; lra)
            | replace (Rgtb a b) with false by (symmetry; apply Rgtb_false; lra) ]
  | |- context [Reqb ?a ?b] =>
      first [ replace (Reqb a b) with true by (symmetry; apply Reqb_true; lra)
            | replace (Reqb a b) with false by (symmetry; apply Reqb_false; lra) ]
  end.

(** *** The classifier *)

(** C6.  The type of a newly collapsed star depends on the cloud's mass and
    on the one draw [rand] only, whatever the draws for its velocity and
    planets, and follows the bands: below 15 brown dwarf, 15 to 30 red
    dwarf, 30 to 60 yellow dwarf unless the draw exceeds 0.8, then binary
    star, 60 to 80 blue giant, 80 to 90 neutron star, 90 to 98 black hole,
    98 and above quasar.  Mass 10 gives a brown dwarf, mass 50 with a draw
    above 0.8 a binary star, mass 99 a quasar. *)
Theorem classifier_bands (cloud : CloudData) (rand : R) (v : Position)
    (ps : list PlanetData) :
  let m := cloud_mass cloud in
  let t := type (newStar cloud rand v ps) in
  t = cls_type (classify m rand) /\
  (m < 15 -> t = BROWN_DWARF) /\
  (15 <= m < 30 -> t = RED_DWARF) /\
  (30 <= m < 60 -> rand <= 0.8 -> t = YELLOW_DWARF) /\
  (30 <= m < 60 -> rand > 0.8 -> t = BINARY_STAR) /\
  (60 <= m < 80 -> t = BLUE_GIANT) /\
  (80 <= m < 90 -> t = NEUTRON_STAR) /\
  (90 <= m < 98 -> t = BLACK_HOLE) /\
  (98 <= m -> t = QUASAR) /\
  (m = 10 -> t = BROWN_DWARF) /\
  (m = 50 -> rand > 0.8 -> t = BINARY_STAR) /\
  (m = 99 -> t = QUASAR).
Proof.
  intros m t. subst t. cbn [newStar type]. fold m.
  repeat split; intros; unfold classify; decide_R; reflexivity.
Qed.

Lemma classifier_bands_witness :
  type (newStar (mkCloud "c" origin 50 5 true 0 0.2) 0.9 origin []) = BINARY_STAR.
Proof.
  destruct (classifier_bands (mkCloud "c" origin 50 5 true 0 0.2) 0.9 origin [])
    as (_ & _ & _ & _ & _ & _ & _ & _ & _ & _ & H & _).
  apply H.
  - reflexivity.
  - lra.
Defined.

(** *** Predator and prey *)

Lemma isBH_types (body : StarData) :
  isBH body = true <->
  type body = BLACK_HOLE \/ type body = SUPERMASSIVE_BLACK_HOLE \/ type body = QUASAR.
Proof.
  unfold isBH. destruct (type body); cbv; intuition congruence.
Qed.

Lemma winnerIsB_eq (bodyA bodyB : StarData) :
  winnerIsB bodyA bodyB
  = negb (isBH bodyA) && (isBH bodyB || Rgtb (mass bodyB) (mass bodyA)).
Proof.
  unfold winnerIsB.
  destruct (isBH bodyA), (isBH bodyB), (Rgtb (mass bodyB) (mass bodyA)); reflexivity.
Qed.

(** C5, as the code has it.  If exactly one body of the pair is compact it
    is the predator whatever the masses; if neither is compact the more
    massive one is the predator and a tie goes to the first body; if both
    are compact the first body is the predator whatever the masses. *)
Theorem predator_selection (bodyA bodyB : StarData) :
  (isBH bodyA = true -> isBH bodyB = false ->
     winner bodyA bodyB = bodyA /\ loser bodyA bodyB = bodyB) /\
  (isBH bodyA = false -> isBH bodyB = true ->
     winner bodyA bodyB = bodyB /\ loser bodyA bodyB = bodyA) /\
  (isBH bodyA = false -> isBH bodyB = false -> mass bodyB > mass bodyA ->
     winner bodyA bodyB = bodyB /\ loser bodyA bodyB = bodyA) /\
  (isBH bodyA = false -> isBH bodyB = false -> mass bodyB <= mass bodyA ->
     winner bodyA bodyB = bodyA /\ loser bodyA bodyB = bodyB) /\
  (isBH bodyA = true -> isBH bodyB = true ->
     winner bodyA bodyB = bodyA /\ loser bodyA bodyB = bodyB).
Proof.
  unfold winner, loser. rewrite winnerIsB_eq.
  repeat split; intros; repeat match goal with H : isBH _ = _ |- _ => rewrite H end;
    cbn [andb negb orb]; decide_R; reflexivity.
Qed.

Lemma predator_selection_witness :
  winner (redDwarf "a" 20 origin origin) (redDwarf "b" 25 origin origin)
  = redDwarf "b" 25 origin origin.
Proof.
  destruct (predator_selection (redDwarf "a" 20 origin origin)
              (redDwarf "b" 25 origin origin)) as (_ & _ & H & _).
  apply H.
  - reflexivity.
  - reflexivity.
  - cbn [mass redDwarf]. lra.
Defined.

(** C5, counterexample.  Two black holes of masses 90 and 95: neither is
    the only compact body of the pair and the second is the more massive,
    yet the first is the predator. *)
Lemma predator_two_black_holes :
  let bodyA := blackHole "a" 90 origin origin in
  let bodyB := blackHole "b" 95 origin origin in
  isBH bodyA = true /\ isBH bodyB = true /\ mass bodyB > mass bodyA /\
  winner bodyA bodyB = bodyA /\ winner bodyA bodyB <> bodyB.
Proof.
  cbv zeta. split; [reflexivity|]. split; [reflexivity|].
  split; [cbn [mass blackHole]; lra|].
  assert (E : winner (blackHole "a" 90 origin origin) (blackHole "b" 95 origin origin)
              = blackHole "a" 90 origin origin).
  { unfold winner. rewrite winnerIsB_eq. reflexivity. }
  split; [exact E|]. rewrite E. intro H. apply (f_equal id) in H. discriminate H.
Qed.

(** *** Pause *)

Lemma tick_paused (stars : list StarData) (delta : R) :
  tick stars 0 delta = (stars, []).
Proof. unfold tick. rewrite Rmult_0_r. decide_R. reflexivity. Qed.

(** C7.  With [timeScale = 0] a tick returns at once: it leaves the array
    as it is and fires no callback, so after any number of frames every
    body has the position, velocity, mass and age it had. *)
Theorem paused_changes_nothing (deltas : list R) (stars : list StarData) :
  run 0 deltas stars = stars /\
  (forall delta, tick stars 0 delta = (stars, [])) /\
  Forall2 (fun before after =>
             position after = position before /\ velocity after = velocity before /\
             mass after = mass before /\ age after = age before)
          stars (run 0 deltas stars).
Proof.
  assert (E : forall ds s, run 0 ds s = s).
  { induction ds as [|d ds IH]; intros s; [reflexivity|].
    unfold run in *. cbn [fold_left]. unfold frame at 2. rewrite tick_paused.
    cbn [fold_left]. apply IH. }
  split; [apply E|]. split; [intros; apply tick_paused|].
  rewrite E. induction stars; constructor; auto.
Qed.

(** *** Geometry of a pair *)

Lemma distSq_nonneg (bodyA bodyB : StarData) : 0 <= distSq bodyA bodyB.
Proof. unfold distSq. nra. Qed.

Lemma dist_nonneg (bodyA bodyB : StarData) : 0 <= dist bodyA bodyB.
Proof. apply sqrt_pos. Qed.

Lemma dist_dist (bodyA bodyB : StarData) :
  dist bodyA bodyB * dist bodyA bodyB = distSq bodyA bodyB.
Proof. apply sqrt_sqrt, distSq_nonneg. Qed.

Lemma dist_positive (bodyA bodyB : StarData) :
  distSq bodyA bodyB <> 0 -> 0 < dist bodyA bodyB.
Proof.
  intros H. pose proof (distSq_nonneg bodyA bodyB).
  apply sqrt_lt_R0. lra.
Qed.

(** Two bodies on a line parallel to the x axis. *)
Lemma dist_along_x (bodyA bodyB : StarData) :
  y (position bodyB) = y (position bodyA) ->
  z (position bodyB) = z (position bodyA) ->
  x (position bodyA) <= x (position bodyB) ->
  dist bodyA bodyB = x (position bodyB) - x (position bodyA).
Proof.
  intros Hy Hz Hx. unfold dist, Math_sqrt, distSq, dx, dy, dz.
  rewrite Hy, Hz.
  replace (_ + _ + _)
    with ((x (position bodyB) - x (position bodyA))
          * (x (position bodyB) - x (position bodyA))) by ring.
  apply sqrt_square. lra.
Qed.

(** The setters read back. *)
Lemma gravity_frame (bodyA bodyB : StarData) (dt : R) :
  let a := fst (gravity bodyA bodyB dt) in
  let b := snd (gravity bodyA bodyB dt) in
  (id a = id bodyA /\ position a = position bodyA /\ mass a = mass bodyA /\
   radius a = radius bodyA /\ type a = type bodyA /\ age a = age bodyA /\
   consumedBy a = consumedBy bodyA /\ isShredding a = isShredding bodyA) /\
  (id b = id bodyB /\ position b = position bodyB /\ mass b = mass bodyB /\
   radius b = radius bodyB /\ type b = type bodyB /\ age b = age bodyB /\
   consumedBy b = consumedBy bodyB /\ isShredding b = isShredding bodyB).
Proof. cbv zeta. unfold gravity. cbn. repeat split. Qed.

(** *** Gravity *)

Lemma force_nonneg (bodyA bodyB : StarData) :
  0 < mass bodyA -> 0 < mass bodyB -> 0 <= force bodyA bodyB.
Proof.
  intros Ha Hb. unfold force, G, SOFTENING.
  pose proof (distSq_nonneg bodyA bodyB).
  apply Rmult_le_pos.
  - assert (0 < mass bodyA * mass bodyB) by (apply Rmult_lt_0_compat; assumption).
    lra.
  - left. apply Rinv_0_lt_compat. lra.
Qed.

Lemma force_components (bodyA bodyB : StarData) :
  distSq bodyA bodyB <> 0 ->
  fx bodyA bodyB * fx bodyA bodyB + fy bodyA bodyB * fy bodyA bodyB
  + fz bodyA bodyB * fz bodyA bodyB
  = force bodyA bodyB * force bodyA bodyB.
Proof.
  intros H. pose proof (dist_positive _ _ H) as Hd.
  pose proof (dist_dist bodyA bodyB) as Hdd.
  unfold fx, fy, fz.
  transitivity (force bodyA bodyB * force bodyA bodyB
                * (dx bodyA bodyB * dx bodyA bodyB + dy bodyA bodyB * dy bodyA bodyB
                   + dz bodyA bodyB * dz bodyA bodyB)
                / (dist bodyA bodyB * dist bodyA bodyB)).
  - field. lra.
  - fold (distSq bodyA bodyB). rewrite Hdd. field. exact H.
Qed.

(** C3.  For a pair of bodies of positive mass at distinct positions, the
    gravity block changes the momentum of A by F dt and that of B by -F dt
    for one and the same force F = (fx, fy, fz), whose magnitude is
    G mA mB / (r^2 + S), with G = 0.5 and S = 2.0. *)
Theorem gravity_third_law (bodyA bodyB : StarData) (dt : R) :
  0 < mass bodyA -> 0 < mass bodyB -> distSq bodyA bodyB <> 0 ->
  let a := fst (gravity bodyA bodyB dt) in
  let b := snd (gravity bodyA bodyB dt) in
  let Fx := fx bodyA bodyB in
  let Fy := fy bodyA bodyB in
  let Fz := fz bodyA bodyB in
  (mass bodyA * (x (velocity a) - x (velocity bodyA)) = Fx * dt /\
   mass bodyA * (y (velocity a) - y (velocity bodyA)) = Fy * dt /\
   mass bodyA * (z (velocity a) - z (velocity bodyA)) = Fz * dt) /\
  (mass bodyB * (x (velocity b) - x (velocity bodyB)) = - Fx * dt /\
   mass bodyB * (y (velocity b) - y (velocity bodyB)) = - Fy * dt /\
   mass bodyB * (z (velocity b) - z (velocity bodyB)) = - Fz * dt) /\
  sqrt (Fx * Fx + Fy * Fy + Fz * Fz)
  = G * mass bodyA * mass bodyB / (distSq bodyA bodyB + SOFTENING) /\
  G = 0.5 /\ SOFTENING = 2.0.
Proof.
  intros Ha Hb Hd. cbv zeta. unfold gravity. cbn [fst snd velocity set_velocity x y z].
  split; [repeat split; field; lra|].
  split; [repeat split; field; lra|].
  split; [|split; reflexivity].
  rewrite force_components by exact Hd.
  rewrite sqrt_square by (apply force_nonneg; assumption).
  reflexivity.
Qed.

Lemma gravity_third_law_witness :
  let bodyA := blackHole "a" 90 origin origin in
  let bodyB := yellowDwarf "b" 40 (mkPosition 10 0 0) origin in
  sqrt (fx bodyA bodyB * fx bodyA bodyB + fy bodyA bodyB * fy bodyA bodyB
        + fz bodyA bodyB * fz bodyA bodyB)
  = G * 90 * 40 / (distSq bodyA bodyB + SOFTENING).
Proof.
  cbv zeta.
  apply (gravity_third_law (blackHole "a" 90 origin origin)
           (yellowDwarf "b" 40 (mkPosition 10 0 0) origin) 1).
  - cbn [mass blackHole]. lra.
  - cbn [mass yellowDwarf]. lra.
  - unfold distSq, dx, dy, dz. cbn [position x y z blackHole yellowDwarf origin]. lra.
Defined.

(** *** Merger *)

Lemma Math_pow_3 (r : R) : 0 < r -> Math_pow r 3 = r ^ 3.
Proof.
  intros H. unfold Math_pow. destruct (Rlt_dec 0 r) as [_|N]; [|contradiction].
  replace 3 with (INR 3) by (simpl; lra). apply Rpower_pow, H.
Qed.

Lemma Math_pow_cube_root (s : R) : 0 < s -> Math_pow s (1 / 3) ^ 3 = s.
Proof.
  intros H. unfold Math_pow. destruct (Rlt_dec 0 s) as [_|N]; [|contradiction].
  assert (P : 0 < Rpower s (1 / 3)) by (unfold Rpower; apply exp_pos).
  rewrite <- (Rpower_pow 3 _ P), Rpower_mult.
  replace (1 / 3 * INR 3) with 1 by (simpl; lra).
  apply Rpower_1, H.
Qed.

Lemma merge_radius (w l : StarData) :
  0 < radius w -> 0 < radius l ->
  radius (merge w l) ^ 3 = radius w ^ 3 + radius l ^ 3.
Proof.
  intros Hw Hl. unfold merge. cbn [radius set_radius set_mass set_velocity].
  rewrite !Math_pow_3 by assumption.
  apply Math_pow_cube_root.
  assert (0 < radius w ^ 3) by (apply pow_lt; assumption).
  assert (0 < radius l ^ 3) by (apply pow_lt; assumption).
  lra.
Qed.

(** Inside the merge zone the capture block is skipped and the merge
    block runs on the bodies the gravity block left. *)
Lemma pair_step_merge (bodyA bodyB : StarData) (dt : R) :
  dist bodyA bodyB < mergeThreshold bodyA bodyB ->
  let a := fst (gravity bodyA bodyB dt) in
  let b := snd (gravity bodyA bodyB dt) in
  pair_step bodyA bodyB dt =
  if winnerIsB bodyA bodyB
  then mkPairResult a (merge b a) [onMerger (id bodyB) (id bodyA)] true
  else mkPairResult (merge a b) b [onMerger (id bodyA) (id bodyB)] true.
Proof.
  intros H. cbv zeta. unfold pair_step, forces_and_capture.
  destruct (gravity bodyA bodyB dt) as [a b] eqn:E.
  replace (Rgtb (dist bodyA bodyB) (mergeThreshold bodyA bodyB)) with false
    by (symmetry; apply Rgtb_false; lra).
  rewrite andb_false_r. unfold feeding_merging.
  replace (Rltb (dist bodyA bodyB) (mergeThreshold bodyA bodyB)) with true
    by (symmetry; apply Rltb_true; lra).
  pose proof (gravity_frame bodyA bodyB dt) as F. rewrite E in F. cbn [fst snd] in *.
  destruct F as ((Ia & _) & (Ib & _)).
  destruct (winnerIsB bodyA bodyB); rewrite Ia, Ib; reflexivity.
Qed.

(** C1.  For a pair inside the merge zone, of bodies with positive masses
    and radii at distinct positions, the inner loop body returns after
    firing [onMerger winner loser] and leaves a winner whose mass is the
    sum of the two masses, whose velocity is the mass-weighted average
    (mA vA + mB vB) / (mA + mB) of the two velocities, and whose radius r'
    satisfies r'^3 = rWinner^3 + rLoser^3. *)
Theorem merger_conservation (bodyA bodyB : StarData) (dt : R) :
  dist bodyA bodyB < mergeThreshold bodyA bodyB ->
  0 < mass bodyA -> 0 < mass bodyB ->
  0 < radius bodyA -> 0 < radius bodyB ->
  distSq bodyA bodyB <> 0 ->
  let r := pair_step bodyA bodyB dt in
  let w' := if winnerIsB bodyA bodyB then resB r else resA r in
  returned r = true /\
  fired r = [onMerger (id (winner bodyA bodyB)) (id (loser bodyA bodyB))] /\
  mass w' = mass (winner bodyA bodyB) + mass (loser bodyA bodyB) /\
  mass w' = mass bodyA + mass bodyB /\
  x (velocity w')
  = (mass bodyA * x (velocity bodyA) + mass bodyB * x (velocity bodyB))
    / (mass bodyA + mass bodyB) /\
  y (velocity w')
  = (mass bodyA * y (velocity bodyA) + mass bodyB * y (velocity bodyB))
    / (mass bodyA + mass bodyB) /\
  z (velocity w')
  = (mass bodyA * z (velocity bodyA) + mass bodyB * z (velocity bodyB))
    / (mass bodyA + mass bodyB) /\
  radius w' ^ 3 = radius (winner bodyA bodyB) ^ 3 + radius (loser bodyA bodyB) ^ 3.
Proof.
  intros Hz Ha Hb Ra Rb Hd. cbv zeta.
  rewrite (pair_step_merge bodyA bodyB dt Hz). cbv zeta.
  pose proof (dist_positive _ _ Hd) as Hp.
  unfold winner, loser.
  destruct (winnerIsB bodyA bodyB); cbn [returned fired resA resB];
    (split; [reflexivity|]); (split; [reflexivity|]).
  - split; [unfold merge, gravity; cbn; ring|].
    split; [unfold merge, gravity; cbn; ring|].
    repeat split;
      try (unfold merge, gravity;
           cbn [fst snd velocity mass set_velocity set_mass set_radius x y z];
           field; lra).
    rewrite merge_radius; unfold gravity; cbn [fst snd radius set_velocity];
      [reflexivity | assumption | assumption].
  - split; [unfold merge, gravity; cbn; ring|].
    split; [unfold merge, gravity; cbn; ring|].
    repeat split;
      try (unfold merge, gravity;
           cbn [fst snd velocity mass set_velocity set_mass set_radius x y z];
           field; lra).
    rewrite merge_radius; unfold gravity; cbn [fst snd radius set_velocity];
      [reflexivity | assumption | assumption].
Qed.

Lemma merger_conservation_witness :
  let r := pair_step merging_a merging_b 1 in
  let w' := if winnerIsB merging_a merging_b then resB r else resA r in
  mass w' = mass merging_a + mass merging_b /\
  radius w' ^ 3 = radius (winner merging_a merging_b) ^ 3
                  + radius (loser merging_a merging_b) ^ 3.
Proof.
  cbv zeta.
  assert (H : dist merging_a merging_b < mergeThreshold merging_a merging_b).
  { rewrite dist_along_x; unfold mergeThreshold, combinedRadius;
      cbn [position radius x y z merging_a merging_b redDwarf origin]; lra. }
  assert (Ma : 0 < mass merging_a) by (cbn [mass merging_a redDwarf]; lra).
  assert (Mb : 0 < mass merging_b) by (cbn [mass merging_b redDwarf]; lra).
  assert (Ra : 0 < radius merging_a) by (cbn [radius merging_a redDwarf]; lra).
  assert (Rb : 0 < radius merging_b) by (cbn [radius merging_b redDwarf]; lra).
  assert (D : distSq merging_a merging_b <> 0).
  { unfold distSq, dx, dy, dz.
    cbn [position x y z merging_a merging_b redDwarf origin]. lra. }
  destruct (merger_conservation merging_a merging_b 1 H Ma Mb Ra Rb D)
    as (_ & _ & _ & M & _ & _ & _ & C).
  split; [exact M | exact C].
Defined.

(** *** What a pair interaction leaves alone *)

Lemma velocity_only_fields (s s' : StarData) :
  velocity_only s s' ->
  id s' = id s /\ position s' = position s /\ mass s' = mass s /\
  type s' = type s /\ radius s' = radius s /\ age s' = age s /\
  consumedBy s' = consumedBy s /\ isShredding s' = isShredding s.
Proof. unfold velocity_only. intros E. rewrite E. repeat split. Qed.

Lemma forces_and_capture_velocity_only (bodyA bodyB : StarData) (dt : R) :
  velocity_only bodyA (fst (forces_and_capture bodyA bodyB dt)) /\
  velocity_only bodyB (snd (forces_and_capture bodyA bodyB dt)).
Proof.
  unfold forces_and_capture, velocity_only.
  destruct (gravity bodyA bodyB dt) as [a1 b1] eqn:E.
  assert (Ea : a1 = fst (gravity bodyA bodyB dt)) by (rewrite E; reflexivity).
  assert (Eb : b1 = snd (gravity bodyA bodyB dt)) by (rewrite E; reflexivity).
  unfold gravity in Ea, Eb. cbn [fst snd] in Ea, Eb.
  destruct (_ && _).
  - unfold capture. cbn [fst snd]. rewrite Ea, Eb. split; reflexivity.
  - cbn [fst snd]. rewrite Ea, Eb. split; reflexivity.
Qed.

Lemma pair_step_eq (bodyA bodyB : StarData) (dt : R) :
  pair_step bodyA bodyB dt
  = feeding_merging (fst (forces_and_capture bodyA bodyB dt))
      (snd (forces_and_capture bodyA bodyB dt)) (winnerIsB bodyA bodyB)
      (dist bodyA bodyB) (mergeThreshold bodyA bodyB)
      (feedingThreshold bodyA bodyB) dt.
Proof. unfold pair_step. destruct (forces_and_capture bodyA bodyB dt). reflexivity. Qed.

Lemma feeding_merging_static (a b : StarData) (wB : bool) (d mergeT feedT dt : R) :
  let r := feeding_merging a b wB d mergeT feedT dt in
  (id (resA r) = id a /\ position (resA r) = position a /\
   type (resA r) = type a /\ age (resA r) = age a) /\
  (id (resB r) = id b /\ position (resB r) = position b /\
   type (resB r) = type b /\ age (resB r) = age b).
Proof.
  cbv zeta. unfold feeding_merging.
  destruct (Rltb d mergeT); [destruct wB; repeat split|].
  destruct (Rltb d feedT); [|repeat split].
  destruct (Rgtb _ 0.1); [|repeat split].
  destruct wB; repeat split.
Qed.

Lemma feeding_merging_no_merge (a b : StarData) (wB : bool) (d mergeT feedT dt : R) :
  let r := feeding_merging a b wB d mergeT feedT dt in
  returned r = false ->
  (mass (resA r) = mass a /\ radius (resA r) = radius a) /\
  (mass (resB r) = mass b /\ radius (resB r) = radius b).
Proof.
  cbv zeta. unfold feeding_merging.
  destruct (Rltb d mergeT); [intros H; discriminate H|].
  destruct (Rltb d feedT); [|repeat split].
  destruct (Rgtb _ 0.1); [|repeat split].
  destruct wB; repeat split.
Qed.

Lemma descends_refl (s : StarData) : descends s s.
Proof. unfold descends. auto. Qed.

Lemma descends_trans (s1 s2 s3 : StarData) :
  descends s1 s2 -> descends s2 s3 -> descends s1 s3.
Proof.
  unfold descends. intros (I1 & S1 & C1 & A1) (I2 & S2 & C2 & A2).
  repeat split; try congruence; auto.
  - apply A2, A1. assumption.
  - apply A2, A1. assumption.
Qed.

(** A body that has just been marked as prey. *)
Lemma descends_shred (winnerId : string) (rvx rvy rvz dt : R) (l : StarData) :
  descends l (shred winnerId rvx rvy rvz dt l).
Proof.
  unfold descends, flags_agree, shred. cbn. repeat split; try discriminate; auto.
Qed.

Lemma descends_merge (w l : StarData) : descends w (merge w l).
Proof. unfold descends, flags_agree, merge. cbn. auto. Qed.

Lemma feeding_merging_descends (a b : StarData) (wB : bool) (d mergeT feedT dt : R) :
  let r := feeding_merging a b wB d mergeT feedT dt in
  descends a (resA r) /\ descends b (resB r).
Proof.
  cbv zeta. unfold feeding_merging.
  destruct (Rltb d mergeT).
  { destruct wB; cbn [resA resB]; split;
      auto using descends_refl, descends_merge. }
  destruct (Rltb d feedT); [|split; apply descends_refl].
  destruct (Rgtb _ 0.1); [|split; apply descends_refl].
  destruct wB; cbn [resA resB]; split; auto using descends_refl, descends_shred.
Qed.

Lemma velocity_only_descends (s s' : StarData) : velocity_only s s' -> descends s s'.
Proof.
  intros H. destruct (velocity_only_fields _ _ H) as (I & _ & _ & _ & _ & _ & C & S).
  unfold descends, flags_agree. rewrite I, C, S. auto.
Qed.

Lemma pair_step_descends (bodyA bodyB : StarData) (dt : R) :
  descends bodyA (resA (pair_step bodyA bodyB dt)) /\
  descends bodyB (resB (pair_step bodyA bodyB dt)).
Proof.
  rewrite pair_step_eq.
  destruct (forces_and_capture_velocity_only bodyA bodyB dt) as (Va & Vb).
  pose proof (feeding_merging_descends
                (fst (forces_and_capture bodyA bodyB dt))
                (snd (forces_and_capture bodyA bodyB dt)) (winnerIsB bodyA bodyB)
                (dist bodyA bodyB) (mergeThreshold bodyA bodyB)
                (feedingThreshold bodyA bodyB) dt) as (Da & Db).
  split; eapply descends_trans; eauto using velocity_only_descends.
Qed.

Lemma pair_step_static (bodyA bodyB : StarData) (dt : R) :
  let r := pair_step bodyA bodyB dt in
  (id (resA r) = id bodyA /\ position (resA r) = position bodyA /\
   type (resA r) = type bodyA /\ age (resA r) = age bodyA) /\
  (id (resB r) = id bodyB /\ position (resB r) = position bodyB /\
   type (resB r) = type bodyB /\ age (resB r) = age bodyB).
Proof.
  cbv zeta. rewrite pair_step_eq.
  destruct (forces_and_capture_velocity_only bodyA bodyB dt) as (Va & Vb).
  apply velocity_only_fields in Va, Vb.
  destruct Va as (Ia & Pa & _ & Ta & _ & Aa & _).
  destruct Vb as (Ib & Pb & _ & Tb & _ & Ab & _).
  pose proof (feeding_merging_static
                (fst (forces_and_capture bodyA bodyB dt))
                (snd (forces_and_capture bodyA bodyB dt)) (winnerIsB bodyA bodyB)
                (dist bodyA bodyB) (mergeThreshold bodyA bodyB)
                (feedingThreshold bodyA bodyB) dt) as F.
  cbv zeta in F. destruct F as ((I1 & P1 & T1 & A1) & (I2 & P2 & T2 & A2)).
  repeat split; congruence.
Qed.

Lemma pair_step_no_merge (bodyA bodyB : StarData) (dt : R) :
  let r := pair_step bodyA bodyB dt in
  returned r = false ->
  (mass (resA r) = mass bodyA /\ radius (resA r) = radius bodyA) /\
  (mass (resB r) = mass bodyB /\ radius (resB r) = radius bodyB).
Proof.
  cbv zeta. rewrite pair_step_eq. intros H.
  destruct (forces_and_capture_velocity_only bodyA bodyB dt) as (Va & Vb).
  apply velocity_only_fields in Va, Vb.
  destruct Va as (_ & _ & Ma & _ & Ra & _).
  destruct Vb as (_ & _ & Mb & _ & Rb & _).
  pose proof (feeding_merging_no_merge _ _ _ _ _ _ _ H) as ((M1 & R1) & (M2 & R2)).
  repeat split; congruence.
Qed.

(** *** The two loops *)

Lemma inner_loop_length (rest : list StarData) (bodyA : StarData) (dt : R) :
  length (innerRest (inner_loop bodyA rest dt)) = length rest.
Proof.
  revert bodyA. induction rest as [|bodyB rest IH]; intros bodyA; cbn [inner_loop].
  - reflexivity.
  - destruct (returned (pair_step bodyA bodyB dt)); cbn [innerRest length].
    + reflexivity.
    + rewrite IH. reflexivity.
Qed.

(** The count passed by [pair_loops] is enough: a larger one changes
    nothing, so the outer loop always reaches the end of the array or the
    [return]. *)
Lemma outer_loop_enough (n : nat) (stars : list StarData) (dt : R) :
  (length stars <= n)%nat ->
  outer_loop n stars dt = outer_loop (length stars) stars dt.
Proof.
  revert stars. induction n as [|n IH]; intros stars H.
  - destruct stars; [reflexivity | cbn in H; lia].
  - destruct stars as [|bodyA rest]; [reflexivity|].
    cbn [length outer_loop]. cbn [length] in H.
    destruct (innerStopped (inner_loop bodyA rest dt)); [reflexivity|].
    rewrite IH by (rewrite inner_loop_length; lia).
    rewrite inner_loop_length. reflexivity.
Qed.

Lemma Forall2_same {A : Type} (Rel : A -> A -> Prop) (l : list A) :
  (forall a, Rel a a) -> Forall2 Rel l l.
Proof. intros H. induction l; constructor; auto. Qed.

Lemma Forall2_map_r {A : Type} (Rel : A -> A -> Prop) (f : A -> A) (l l' : list A) :
  (forall a b, Rel a b -> Rel a (f b)) -> Forall2 Rel l l' -> Forall2 Rel l (map f l').
Proof. intros H F. induction F; cbn [map]; constructor; auto. Qed.

Lemma Forall2_compose {A : Type} (Rel : A -> A -> Prop) (l1 l2 l3 : list A) :
  (forall a b c, Rel a b -> Rel b c -> Rel a c) ->
  Forall2 Rel l1 l2 -> Forall2 Rel l2 l3 -> Forall2 Rel l1 l3.
Proof.
  intros T F. revert l3. induction F; intros l3 G; inversion G; subst; constructor; eauto.
Qed.

Section LoopInvariant.

(** A relation between a body and the same body later that every pair
    interaction respects is respected by the loops.  With [guard] set,
    the pair interaction needs to respect it only when it does not
    return, and the loops respect it when they run to the end. *)
Variable Rel : StarData -> StarData -> Prop.
Variable guard : bool.
Variable dt : R.

Hypothesis Rel_refl : forall s, Rel s s.
Hypothesis Rel_trans : forall s1 s2 s3, Rel s1 s2 -> Rel s2 s3 -> Rel s1 s3.
Hypothesis Rel_step : forall bodyA bodyB,
  (guard = true -> returned (pair_step bodyA bodyB dt) = false) ->
  Rel bodyA (resA (pair_step bodyA bodyB dt)) /\
  Rel bodyB (resB (pair_step bodyA bodyB dt)).

Lemma inner_loop_invariant (rest : list StarData) (bodyA : StarData) :
  (guard = true -> innerStopped (inner_loop bodyA rest dt) = false) ->
  Rel bodyA (innerA (inner_loop bodyA rest dt)) /\
  Forall2 Rel rest (innerRest (inner_loop bodyA rest dt)).
Proof.
  revert bodyA. induction rest as [|bodyB rest IH]; intros bodyA; cbn [inner_loop].
  - intros _. split; [apply Rel_refl | constructor].
  - destruct (returned (pair_step bodyA bodyB dt)) eqn:E;
      cbn [innerA innerRest innerStopped]; intros H.
    + destruct (Rel_step bodyA bodyB) as (Ha & Hb).
      { intros Hg. specialize (H Hg). discriminate H. }
      split; [exact Ha|]. constructor; [exact Hb|]. apply Forall2_same, Rel_refl.
    + destruct (Rel_step bodyA bodyB) as (Ha & Hb); [intros _; exact E|].
      destruct (IH _ H) as (Ha' & Hrest).
      split; [eapply Rel_trans; eassumption|]. constructor; assumption.
Qed.

Lemma outer_loop_invariant (n : nat) (stars : list StarData) :
  (guard = true -> stopped (outer_loop n stars dt) = false) ->
  Forall2 Rel stars (bodies (outer_loop n stars dt)).
Proof.
  revert stars. induction n as [|n IH]; intros stars.
  - intros _. destruct stars; cbn [outer_loop bodies]; apply Forall2_same, Rel_refl.
  - destruct stars as [|bodyA rest]; cbn [outer_loop].
    + intros _. constructor.
    + destruct (innerStopped (inner_loop bodyA rest dt)) eqn:E;
        cbn [bodies stopped]; intros H.
      * destruct (inner_loop_invariant rest bodyA) as (Ha & Hrest).
        { intros Hg. specialize (H Hg). discriminate H. }
        constructor; assumption.
      * destruct (inner_loop_invariant rest bodyA) as (Ha & Hrest);
          [intros _; exact E|].
        constructor; [exact Ha|].
        eapply Forall2_compose; [exact Rel_trans | exact Hrest | apply IH, H].
Qed.

Lemma pair_loops_invariant (stars : list StarData) :
  (guard = true -> stopped (pair_loops stars dt) = false) ->
  Forall2 Rel stars (bodies (pair_loops stars dt)).
Proof. apply outer_loop_invariant. Qed.

End LoopInvariant.

Lemma pair_loops_descends (stars : list StarData) (dt : R) :
  Forall2 descends stars (bodies (pair_loops stars dt)).
Proof.
  apply (pair_loops_invariant descends false dt).
  - apply descends_refl.
  - apply descends_trans.
  - intros bodyA bodyB _. apply pair_step_descends.
  - intros H. discriminate H.
Qed.

(** The loops never move a body. *)
Lemma pair_loops_positions (stars : list StarData) (dt : R) :
  Forall2 (fun s s' => position s' = position s /\ age s' = age s /\ id s' = id s)
    stars (bodies (pair_loops stars dt)).
Proof.
  apply (pair_loops_invariant _ false dt).
  - intros s. auto.
  - intros s1 s2 s3 (P1 & A1 & I1) (P2 & A2 & I2). repeat split; congruence.
  - intros bodyA bodyB _.
    destruct (pair_step_static bodyA bodyB dt) as ((Ia & Pa & _ & Aa) & (Ib & Pb & _ & Ab)).
    auto.
  - intros H. discriminate H.
Qed.

(** Without a merger the loops change no mass and no radius. *)
Lemma pair_loops_masses (stars : list StarData) (dt : R) :
  stopped (pair_loops stars dt) = false ->
  Forall2 (fun s s' => mass s' = mass s /\ radius s' = radius s)
    stars (bodies (pair_loops stars dt)).
Proof.
  intros H. apply (pair_loops_invariant _ true dt).
  - intros s. auto.
  - intros s1 s2 s3 (M1 & R1) (M2 & R2). split; congruence.
  - intros bodyA bodyB E.
    destruct (pair_step_no_merge bodyA bodyB dt (E eq_refl)) as ((Ma & Ra) & (Mb & Rb)).
    auto.
  - intros _. exact H.
Qed.

(** *** The zones of a pair *)

(** Between the merge threshold and the feeding threshold, with a prey
    that passes the 0.1 gate: the prey is marked and dragged, the transfer
    is announced, and the loop goes on. *)
Lemma pair_step_feed (bodyA bodyB : StarData) (dt : R) :
  mergeThreshold bodyA bodyB <= dist bodyA bodyB ->
  dist bodyA bodyB < feedingThreshold bodyA bodyB ->
  mass (loser bodyA bodyB) > 0.1 ->
  let a := fst (forces_and_capture bodyA bodyB dt) in
  let b := snd (forces_and_capture bodyA bodyB dt) in
  pair_step bodyA bodyB dt =
  if winnerIsB bodyA bodyB
  then mkPairResult (shred (id bodyB) (relVx a b) (relVy a b) (relVz a b) dt a) b
         [onMassTransfer (id bodyA) (id bodyB) (0.1 * dt)] false
  else mkPairResult a (shred (id bodyA) (relVx a b) (relVy a b) (relVz a b) dt b)
         [onMassTransfer (id bodyB) (id bodyA) (0.1 * dt)] false.
Proof.
  intros Hm Hf Hl. cbv zeta. rewrite pair_step_eq.
  destruct (forces_and_capture_velocity_only bodyA bodyB dt) as (Va & Vb).
  apply velocity_only_fields in Va, Vb.
  destruct Va as (Ia & _ & Ma & _). destruct Vb as (Ib & _ & Mb & _).
  unfold feeding_merging, loser in *. decide_R.
  destruct (winnerIsB bodyA bodyB).
  - rewrite Ma, Ia, Ib. decide_R. reflexivity.
  - rewrite Mb, Ia, Ib. decide_R. reflexivity.
Qed.

(** Outside the merge and feeding zones nothing but the two velocity
    blocks happens. *)
Lemma pair_step_quiet (bodyA bodyB : StarData) (dt : R) :
  mergeThreshold bodyA bodyB <= dist bodyA bodyB ->
  feedingThreshold bodyA bodyB <= dist bodyA bodyB ->
  pair_step bodyA bodyB dt
  = mkPairResult (fst (forces_and_capture bodyA bodyB dt))
      (snd (forces_and_capture bodyA bodyB dt)) [] false.
Proof.
  intros Hm Hf. rewrite pair_step_eq. unfold feeding_merging. decide_R. reflexivity.
Qed.

(** The thresholds and the choice of predator read the position, the
    radius, the type and the mass only. *)
Lemma geometry_congruence (bodyA bodyB a b : StarData) :
  position a = position bodyA -> position b = position bodyB ->
  radius a = radius bodyA -> radius b = radius bodyB ->
  type a = type bodyA -> type b = type bodyB ->
  mass a = mass bodyA -> mass b = mass bodyB ->
  dist a b = dist bodyA bodyB /\
  mergeThreshold a b = mergeThreshold bodyA bodyB /\
  captureRadius a b = captureRadius bodyA bodyB /\
  feedingThreshold a b = feedingThreshold bodyA bodyB /\
  winnerIsB a b = winnerIsB bodyA bodyB.
Proof.
  intros Pa Pb Ra Rb Ta Tb Ma Mb.
  unfold dist, distSq, dx, dy, dz, mergeThreshold, captureRadius, feedingThreshold,
    combinedRadius, winnerIsB, isBH.
  rewrite Pa, Pb, Ra, Rb, Ta, Tb, Ma, Mb. repeat split.
Qed.

Lemma update_age_geometry (bodyA bodyB : StarData) (dt : R) :
  dist (update_age dt bodyA) (update_age dt bodyB) = dist bodyA bodyB /\
  mergeThreshold (update_age dt bodyA) (update_age dt bodyB) = mergeThreshold bodyA bodyB /\
  captureRadius (update_age dt bodyA) (update_age dt bodyB) = captureRadius bodyA bodyB /\
  feedingThreshold (update_age dt bodyA) (update_age dt bodyB)
  = feedingThreshold bodyA bodyB /\
  winnerIsB (update_age dt bodyA) (update_age dt bodyB) = winnerIsB bodyA bodyB.
Proof. apply geometry_congruence; reflexivity. Qed.

(** *** The tick on the first pair of the array *)

Lemma tick_two_bodies (bodyA bodyB : StarData) (timeScale delta : R) :
  0 < delta * timeScale ->
  let dt := delta * timeScale in
  let r := pair_step (update_age dt bodyA) (update_age dt bodyB) dt in
  tick [bodyA; bodyB] timeScale delta =
  (if returned r then [resA r; resB r]
   else [update_position dt (resA r); update_position dt (resB r)], fired r).
Proof.
  intros H. cbv zeta. unfold tick, pair_loops. decide_R.
  cbn [map length outer_loop inner_loop].
  destruct (returned (pair_step _ _ _)) eqn:E;
    cbn [innerStopped innerA innerRest innerCalls bodies calls stopped outer_loop map].
  - reflexivity.
  - rewrite !app_nil_r. reflexivity.
Qed.

(** When the very first pair merges the callback returns there. *)
Lemma tick_first_pair_merges (bodyA bodyB : StarData) (others : list StarData)
    (timeScale delta : R) :
  0 < delta * timeScale ->
  let dt := delta * timeScale in
  let r := pair_step (update_age dt bodyA) (update_age dt bodyB) dt in
  returned r = true ->
  tick (bodyA :: bodyB :: others) timeScale delta
  = (resA r :: resB r :: map (update_age dt) others, fired r).
Proof.
  intros H. cbv zeta. intros E. unfold tick, pair_loops. decide_R.
  cbn [map length outer_loop inner_loop]. rewrite E.
  cbn [innerStopped innerA innerRest innerCalls bodies calls stopped].
  reflexivity.
Qed.

(** *** Feeding *)

Lemma geometry_symmetric (bodyA bodyB : StarData) :
  dist bodyB bodyA = dist bodyA bodyB /\
  mergeThreshold bodyB bodyA = mergeThreshold bodyA bodyB /\
  captureRadius bodyB bodyA = captureRadius bodyA bodyB /\
  feedingThreshold bodyB bodyA = feedingThreshold bodyA bodyB.
Proof.
  unfold dist, mergeThreshold, captureRadius, feedingThreshold, combinedRadius.
  replace (distSq bodyB bodyA) with (distSq bodyA bodyB)
    by (unfold distSq, dx, dy, dz; ring).
  rewrite (orb_comm (isBH bodyB)), (Rplus_comm (radius bodyB)). repeat split.
Qed.

(** The prey of a feeding pair after the tick: marked, and as massive as
    before. *)
Lemma fed_prey (winnerId : string) (rvx rvy rvz dt : R) (s l : StarData) :
  velocity_only s l ->
  let l' := update_position dt (shred winnerId rvx rvy rvz dt l) in
  mass l' = mass s /\ isShredding l' = true /\ consumedBy l' = Some winnerId /\
  id l' = id s.
Proof.
  intros V. apply velocity_only_fields in V. destruct V as (I & _ & M & _).
  cbv zeta. unfold update_position, shred. cbn. auto.
Qed.

(** A black hole of mass 90 and a yellow dwarf of mass 40, between the
    merge threshold and the feeding threshold, in either order in the
    array: what the tick returns. *)
Lemma feeding_tick (hole dwarf : StarData) (timeScale delta : R) :
  type hole = BLACK_HOLE -> mass hole = 90 ->
  type dwarf = YELLOW_DWARF -> mass dwarf = 40 ->
  mergeThreshold hole dwarf <= dist hole dwarf ->
  dist hole dwarf < feedingThreshold hole dwarf ->
  0 < delta * timeScale ->
  let dt := delta * timeScale in
  (exists hole' dwarf',
     tick [hole; dwarf] timeScale delta
     = ([hole'; dwarf'], [onMassTransfer (id dwarf) (id hole) (0.1 * dt)]) /\
     mass dwarf' = 40 /\ mass dwarf' <> 40 - 0.1 * dt /\ mass hole' = 90 /\
     isShredding dwarf' = true /\ consumedBy dwarf' = Some (id hole) /\
     id hole' = id hole /\ id dwarf' = id dwarf) /\
  (exists dwarf' hole',
     tick [dwarf; hole] timeScale delta
     = ([dwarf'; hole'], [onMassTransfer (id dwarf) (id hole) (0.1 * dt)]) /\
     mass dwarf' = 40 /\ mass dwarf' <> 40 - 0.1 * dt /\ mass hole' = 90 /\
     isShredding dwarf' = true /\ consumedBy dwarf' = Some (id hole) /\
     id hole' = id hole /\ id dwarf' = id dwarf).
Proof.
  intros Th Mh Td Md Hm Hf Hdt. cbv zeta.
  assert (Bh : isBH hole = true) by (unfold isBH; rewrite Th; reflexivity).
  assert (Bd : isBH dwarf = false) by (unfold isBH; rewrite Td; reflexivity).
  set (dt := delta * timeScale) in *.
  split.
  - rewrite tick_two_bodies by exact Hdt. cbv zeta. fold dt.
    destruct (update_age_geometry hole dwarf dt) as (Ed & Em & _ & Ef & Ew).
    assert (W : winnerIsB hole dwarf = false)
      by (rewrite winnerIsB_eq, Bh; reflexivity).
    rewrite pair_step_feed;
      [ | rewrite Ed, Em; exact Hm | rewrite Ed, Ef; exact Hf
        | unfold loser; rewrite Ew, W; cbn [mass update_age set_age]; lra ].
    cbv zeta. rewrite Ew, W. cbn [returned resA resB fired].
    destruct (forces_and_capture_velocity_only (update_age dt hole)
                (update_age dt dwarf) dt) as (Va & Vb).
    eexists. eexists. split; [reflexivity|].
    destruct (fed_prey (id (update_age dt hole))
                (relVx (fst (forces_and_capture (update_age dt hole) (update_age dt dwarf) dt))
                       (snd (forces_and_capture (update_age dt hole) (update_age dt dwarf) dt)))
                (relVy (fst (forces_and_capture (update_age dt hole) (update_age dt dwarf) dt))
                       (snd (forces_and_capture (update_age dt hole) (update_age dt dwarf) dt)))
                (relVz (fst (forces_and_capture (update_age dt hole) (update_age dt dwarf) dt))
                       (snd (forces_and_capture (update_age dt hole) (update_age dt dwarf) dt)))
                dt _ _ Vb) as (M & S & C & I).
    apply velocity_only_fields in Va. destruct Va as (Ia & _ & Ma & _).
    rewrite M, S, C, I. cbn [mass update_age set_age update_position set_position id].
    rewrite Ma, Ia. cbn [mass id update_age set_age]. rewrite Md, Mh.
    repeat split; lra.
  - rewrite tick_two_bodies by exact Hdt. cbv zeta. fold dt.
    destruct (geometry_symmetric hole dwarf) as (Sd & Sm & _ & Sf).
    destruct (update_age_geometry dwarf hole dt) as (Ed & Em & _ & Ef & Ew).
    assert (W : winnerIsB dwarf hole = true)
      by (rewrite winnerIsB_eq, Bh, Bd; reflexivity).
    rewrite pair_step_feed;
      [ | rewrite Ed, Em, Sd, Sm; exact Hm | rewrite Ed, Ef, Sd, Sf; exact Hf
        | unfold loser; rewrite Ew, W; cbn [mass update_age set_age]; lra ].
    cbv zeta. rewrite Ew, W. cbn [returned resA resB fired].
    destruct (forces_and_capture_velocity_only (update_age dt dwarf)
                (update_age dt hole) dt) as (Va & Vb).
    eexists. eexists. split; [reflexivity|].
    destruct (fed_prey (id (update_age dt hole))
                (relVx (fst (forces_and_capture (update_age dt dwarf) (update_age dt hole) dt))
                       (snd (forces_and_capture (update_age dt dwarf) (update_age dt hole) dt)))
                (relVy (fst (forces_and_capture (update_age dt dwarf) (update_age dt hole) dt))
                       (snd (forces_and_capture (update_age dt dwarf) (update_age dt hole) dt)))
                (relVz (fst (forces_and_capture (update_age dt dwarf) (update_age dt hole) dt))
                       (snd (forces_and_capture (update_age dt dwarf) (update_age dt hole) dt)))
                dt _ _ Va) as (M & S & C & I).
    apply velocity_only_fields in Vb. destruct Vb as (Ib & _ & Mb & _).
    rewrite M, S, C, I. cbn [mass update_age set_age update_position set_position id].
    rewrite Mb, Ib. cbn [mass id update_age set_age]. rewrite Md, Mh.
    repeat split; lra.
Qed.


(** The callback fired by a feeding tick finds the prey marked already. *)
Lemma handleMassTransfer_marked (sourceId targetId : string) (amount : R)
    (stars : list StarData) :
  (forall i s, findIndex sourceId stars = Some i -> nth_error stars i = Some s ->
               isShredding s = true) ->
  handleMassTransfer sourceId targetId amount stars = stars.
Proof.
  intros H. unfold handleMassTransfer.
  destruct (findIndex sourceId stars) as [i|]; [|reflexivity].
  destruct (findIndex targetId stars); [|reflexivity].
  destruct (nth_error stars i) as [s|] eqn:E; [|reflexivity].
  rewrite (H i s eq_refl E). reflexivity.
Qed.

(** C2, as the code has it.  A black hole of mass 90 and a yellow dwarf of
    mass 40, between the merge threshold and the feeding threshold, in
    either order in the array: one frame with dt > 0 (the tick and the
    callback it fires) announces a transfer of 0.1 dt, marks the dwarf as
    shredding and as consumed by the black hole, and leaves the mass of
    the dwarf at 40, not at 40 - 0.1 dt, and that of the black hole at
    90. *)
Theorem feeding_keeps_prey_mass (hole dwarf : StarData) (timeScale delta : R) :
  type hole = BLACK_HOLE -> mass hole = 90 ->
  type dwarf = YELLOW_DWARF -> mass dwarf = 40 ->
  id hole <> id dwarf ->
  mergeThreshold hole dwarf <= dist hole dwarf ->
  dist hole dwarf < feedingThreshold hole dwarf ->
  0 < delta * timeScale ->
  let dt := delta * timeScale in
  (exists hole' dwarf',
     frame [hole; dwarf] timeScale delta = [hole'; dwarf'] /\
     snd (tick [hole; dwarf] timeScale delta)
     = [onMassTransfer (id dwarf) (id hole) (0.1 * dt)] /\
     mass dwarf' = 40 /\ mass dwarf' <> 40 - 0.1 * dt /\ mass hole' = 90 /\
     isShredding dwarf' = true /\ consumedBy dwarf' = Some (id hole)) /\
  (exists dwarf' hole',
     frame [dwarf; hole] timeScale delta = [dwarf'; hole'] /\
     snd (tick [dwarf; hole] timeScale delta)
     = [onMassTransfer (id dwarf) (id hole) (0.1 * dt)] /\
     mass dwarf' = 40 /\ mass dwarf' <> 40 - 0.1 * dt /\ mass hole' = 90 /\
     isShredding dwarf' = true /\ consumedBy dwarf' = Some (id hole)).
Proof.
  intros Th Mh Td Md Hid Hm Hf Hdt. cbv zeta.
  destruct (feeding_tick hole dwarf timeScale delta Th Mh Td Md Hm Hf Hdt)
    as ((h1 & d1 & E1 & P1 & Q1 & R1 & S1 & C1 & Ih1 & Id1)
        & (d2 & h2 & E2 & P2 & Q2 & R2 & S2 & C2 & Ih2 & Id2)).
  split.
  - exists h1, d1. unfold frame. rewrite E1. cbn [snd fold_left dispatch].
    rewrite handleMassTransfer_marked; [auto 10|].
    intros i s. cbn [findIndex]. rewrite Ih1, Id1.
    destruct (String.eqb_spec (id hole) (id dwarf)) as [|_]; [contradiction|].
    rewrite String.eqb_refl. intros Ei En. inversion Ei; subst i.
    cbn [nth_error] in En. inversion En; subst s. exact S1.
  - exists d2, h2. unfold frame. rewrite E2. cbn [snd fold_left dispatch].
    rewrite handleMassTransfer_marked; [auto 10|].
    intros i s. cbn [findIndex]. rewrite Id2, String.eqb_refl.
    intros Ei En. inversion Ei; subst i.
    cbn [nth_error] in En. inversion En; subst s. exact S2.
Qed.

Lemma feeding_keeps_prey_mass_witness :
  exists hole' dwarf',
    frame [feeding_hole; feeding_dwarf] 1 1 = [hole'; dwarf'] /\
    snd (tick [feeding_hole; feeding_dwarf] 1 1)
    = [onMassTransfer (id feeding_dwarf) (id feeding_hole) (0.1 * (1 * 1))] /\
    mass dwarf' = 40 /\ mass dwarf' <> 40 - 0.1 * (1 * 1) /\ mass hole' = 90 /\
    isShredding dwarf' = true /\ consumedBy dwarf' = Some (id feeding_hole).
Proof.
  apply (feeding_keeps_prey_mass feeding_hole feeding_dwarf 1 1).
  - reflexivity.
  - reflexivity.
  - reflexivity.
  - reflexivity.
  - discriminate.
  - rewrite dist_along_x; unfold mergeThreshold, combinedRadius;
      cbn [position radius x y z feeding_hole feeding_dwarf blackHole yellowDwarf origin];
      lra.
  - rewrite dist_along_x; unfold feedingThreshold, combinedRadius;
      cbn [position radius x y z feeding_hole feeding_dwarf blackHole yellowDwarf origin];
      [|lra..].
    replace (isBH _ || isBH _) with true by reflexivity. lra.
  - lra.
Defined.

(** *** Spiral drag *)

(** The drag subtracts [spiralDrag] times [bodyB.velocity - bodyA.velocity]
    from the velocity of the prey.  When the prey is [bodyB] this shrinks
    the relative velocity by the factor 1 - 0.05 dt; when the prey is
    [bodyA] it stretches it by the factor 1 + 0.05 dt. *)
Lemma spiral_drag_relative_velocity (bodyA bodyB : StarData) (dt : R) :
  mergeThreshold bodyA bodyB <= dist bodyA bodyB ->
  dist bodyA bodyB < feedingThreshold bodyA bodyB ->
  mass (loser bodyA bodyB) > 0.1 ->
  let a := fst (forces_and_capture bodyA bodyB dt) in
  let b := snd (forces_and_capture bodyA bodyB dt) in
  let r := pair_step bodyA bodyB dt in
  if winnerIsB bodyA bodyB
  then resB r = b /\
       relVx (resA r) (resB r) = (1 + 0.05 * dt) * relVx a b /\
       relVy (resA r) (resB r) = (1 + 0.05 * dt) * relVy a b /\
       relVz (resA r) (resB r) = (1 + 0.05 * dt) * relVz a b
  else resA r = a /\
       relVx (resA r) (resB r) = (1 - 0.05 * dt) * relVx a b /\
       relVy (resA r) (resB r) = (1 - 0.05 * dt) * relVy a b /\
       relVz (resA r) (resB r) = (1 - 0.05 * dt) * relVz a b.
Proof.
  intros Hm Hf Hl. cbv zeta. rewrite (pair_step_feed bodyA bodyB dt Hm Hf Hl). cbv zeta.
  destruct (winnerIsB bodyA bodyB); cbn [resA resB]; (split; [reflexivity|]);
    unfold relVx, relVy, relVz, shred;
    cbn [velocity set_velocity set_consumedBy set_isShredding x y z];
    repeat split; ring.
Qed.

Lemma update_position_relative (a b : StarData) (dt : R) :
  relVx (update_position dt a) (update_position dt b) = relVx a b /\
  relVy (update_position dt a) (update_position dt b) = relVy a b /\
  relVz (update_position dt a) (update_position dt b) = relVz a b.
Proof. repeat split. Qed.

(** C8, at a feeding pair whose prey comes first in the array.  A yellow
    dwarf at the origin, at rest, and a black hole 18 units away moving
    across at speed 1, one tick with dt = 1.  The dwarf is the prey and
    its velocity alone is changed by the drag, but away from the velocity
    of the black hole: each component of the relative velocity is 1.05
    times what it was when the feeding block was entered, and the
    component across, which gravity leaves at 1, ends at 1.05. *)
Theorem spiral_drag_first_prey :
  let dt := 1 * 1 in
  let a := update_age dt prey_first_dwarf in
  let b := update_age dt prey_first_hole in
  let entering := forces_and_capture a b dt in
  exists dwarf' hole',
    fst (tick [prey_first_dwarf; prey_first_hole] 1 1) = [dwarf'; hole'] /\
    consumedBy dwarf' = Some "hole"%string /\
    velocity hole' = velocity (snd entering) /\
    relVx dwarf' hole' = 1.05 * relVx (fst entering) (snd entering) /\
    relVy dwarf' hole' = 1.05 * relVy (fst entering) (snd entering) /\
    relVz dwarf' hole' = 1.05 * relVz (fst entering) (snd entering) /\
    relVy (fst entering) (snd entering) = 1 /\
    relVy dwarf' hole' = 1.05.
Proof.
  cbv zeta.
  assert (Hdt : 0 < 1 * 1) by lra.
  rewrite (tick_two_bodies prey_first_dwarf prey_first_hole 1 1 Hdt). cbv zeta.
  set (dt := 1 * 1) in *.
  set (a := update_age dt prey_first_dwarf).
  set (b := update_age dt prey_first_hole).
  assert (D : dist a b = 18).
  { unfold a, b. rewrite dist_along_x;
      cbn [position x y z update_age set_age prey_first_dwarf prey_first_hole
           yellowDwarf blackHole origin]; lra. }
  assert (Hm : mergeThreshold a b <= dist a b).
  { rewrite D. unfold mergeThreshold, combinedRadius, a, b.
    cbn [radius update_age set_age prey_first_dwarf prey_first_hole
         yellowDwarf blackHole]. lra. }
  assert (Hc : captureRadius a b <= dist a b).
  { rewrite D. unfold captureRadius, combinedRadius, a, b.
    cbn [radius update_age set_age prey_first_dwarf prey_first_hole
         yellowDwarf blackHole]. lra. }
  assert (Hf : dist a b < feedingThreshold a b).
  { rewrite D. unfold feedingThreshold, combinedRadius, a, b.
    replace (isBH _ || isBH _) with true by reflexivity.
    cbn [radius update_age set_age prey_first_dwarf prey_first_hole
         yellowDwarf blackHole]. lra. }
  assert (W : winnerIsB a b = true) by (rewrite winnerIsB_eq; reflexivity).
  assert (Hl : mass (loser a b) > 0.1).
  { unfold loser. rewrite W. unfold a.
    cbn [mass update_age set_age prey_first_dwarf yellowDwarf]. lra. }
  pose proof (spiral_drag_relative_velocity a b dt Hm Hf Hl) as S.
  cbv zeta in S. rewrite W in S. destruct S as (Sb & Sx & Sy & Sz).
  assert (R : returned (pair_step a b dt) = false).
  { rewrite (pair_step_feed a b dt Hm Hf Hl). cbv zeta. rewrite W. reflexivity. }
  assert (C : consumedBy (resA (pair_step a b dt)) = Some "hole"%string).
  { rewrite (pair_step_feed a b dt Hm Hf Hl). cbv zeta. rewrite W. reflexivity. }
  assert (Y : relVy (fst (forces_and_capture a b dt)) (snd (forces_and_capture a b dt)) = 1).
  { unfold forces_and_capture.
    replace (Rltb (dist a b) (captureRadius a b)) with false
      by (symmetry; apply Rltb_false; exact Hc).
    cbn [andb]. unfold gravity, relVy, fy, dy. cbn [fst snd velocity set_velocity y].
    unfold a, b, dt.
    cbn [position velocity mass y update_age set_age prey_first_dwarf prey_first_hole
         yellowDwarf blackHole origin].
    unfold Rdiv. ring. }
  rewrite R. cbn [fst].
  eexists. eexists. split; [reflexivity|].
  destruct (update_position_relative (resA (pair_step a b dt))
              (resB (pair_step a b dt)) dt) as (Ux & Uy & Uz).
  rewrite Ux, Uy, Uz, Sx, Sy, Sz, Y.
  cbn [consumedBy velocity update_position set_position]. rewrite C, Sb.
  unfold dt. repeat split; lra.
Qed.

(** *** Position integration *)

Lemma Forall2_positions_map (l l' : list StarData) :
  Forall2 (fun s s' => position s' = position s /\ age s' = age s /\ id s' = id s) l l' ->
  map position l' = map position l.
Proof.
  intros F. induction F as [|s s' l l' (P & _) _ IH]; cbn [map]; [reflexivity|].
  rewrite P, IH. reflexivity.
Qed.

Lemma update_age_positions (stars : list StarData) (dt : R) :
  map position (map (update_age dt) stars) = map position stars.
Proof. rewrite map_map. reflexivity. Qed.

(** C4, as the code has it.  In a tick with dt <> 0 the two loops advance
    no position.  When they run to the end, the positions are advanced
    in a pass of their own after them: every body ends at the position it
    had before the tick plus dt times the velocity the loops have left
    it.  When a pair merges the callback returns from inside the loops,
    as designed: the pass does not run in that tick and every body,
    merged or not, keeps the position it had. *)
Theorem positions_after_the_loops (stars : list StarData) (timeScale delta : R) :
  delta * timeScale <> 0 ->
  let dt := delta * timeScale in
  let aged := if Rgtb dt 0 then map (update_age dt) stars else stars in
  let k := pair_loops aged dt in
  map position (bodies k) = map position stars /\
  (stopped k = false ->
     fst (tick stars timeScale delta) = map (update_position dt) (bodies k) /\
     map velocity (fst (tick stars timeScale delta)) = map velocity (bodies k) /\
     Forall2 (fun s s' =>
                position s'
                = mkPosition (x (position s) + x (velocity s') * dt)
                             (y (position s) + y (velocity s') * dt)
                             (z (position s) + z (velocity s') * dt))
       stars (fst (tick stars timeScale delta))) /\
  (stopped k = true ->
     fst (tick stars timeScale delta) = bodies k /\
     map position (fst (tick stars timeScale delta)) = map position stars).
Proof.
  intros H. cbv zeta.
  assert (P : map position
                (bodies (pair_loops
                           (if Rgtb (delta * timeScale) 0
                            then map (update_age (delta * timeScale)) stars
                            else stars) (delta * timeScale)))
              = map position stars).
  { rewrite (Forall2_positions_map _ _ (pair_loops_positions _ _)).
    destruct (Rgtb (delta * timeScale) 0); [apply update_age_positions | reflexivity]. }
  split; [exact P|].
  unfold tick. decide_R.
  split; intros E; rewrite E; cbn [fst].
  - split; [reflexivity|]. split.
    + rewrite map_map. reflexivity.
    + revert P. generalize (bodies (pair_loops
                           (if Rgtb (delta * timeScale) 0
                            then map (update_age (delta * timeScale)) stars
                            else stars) (delta * timeScale))).
      clear E. induction stars as [|s stars IH]; intros [|b l] P; cbn [map] in *;
        try discriminate P; constructor.
      * injection P as Ps _. cbn [position velocity update_position set_position].
        rewrite Ps. reflexivity.
      * apply IH. injection P as _ Pl. exact Pl.
  - split; [reflexivity | exact P].
Qed.

(** C4, at a tick in which no pair merges.  A red dwarf at the origin
    and a yellow dwarf a hundred units away, outside every zone, one tick
    with dt = 1: the loops run to the end and each body ends at its old
    position plus dt times the velocity that gravity has left it. *)
Lemma positions_after_the_loops_witness :
  Forall2 (fun s s' =>
             position s'
             = mkPosition (x (position s) + x (velocity s') * (1 * 1))
                          (y (position s) + y (velocity s') * (1 * 1))
                          (z (position s) + z (velocity s') * (1 * 1)))
    [merging_a; bystander] (fst (tick [merging_a; bystander] 1 1)).
Proof.
  assert (Hdt : 0 < 1 * 1) by lra.
  assert (Hne : 1 * 1 <> 0) by lra.
  pose proof (positions_after_the_loops [merging_a; bystander] 1 1 Hne) as T.
  cbv zeta in T. destruct T as (_ & T & _).
  assert (D : dist (update_age (1 * 1) merging_a) (update_age (1 * 1) bystander) = 100).
  { rewrite dist_along_x;
      cbn [position x y z update_age set_age merging_a bystander redDwarf yellowDwarf
           origin]; lra. }
  assert (Hm : mergeThreshold (update_age (1 * 1) merging_a) (update_age (1 * 1) bystander)
               <= dist (update_age (1 * 1) merging_a) (update_age (1 * 1) bystander)).
  { rewrite D. unfold mergeThreshold, combinedRadius.
    cbn [radius update_age set_age merging_a bystander redDwarf yellowDwarf]. lra. }
  assert (Hf : feedingThreshold (update_age (1 * 1) merging_a)
                 (update_age (1 * 1) bystander)
               <= dist (update_age (1 * 1) merging_a) (update_age (1 * 1) bystander)).
  { rewrite D. unfold feedingThreshold, combinedRadius.
    replace (isBH _) with false by reflexivity.
    replace (isBH _) with false by reflexivity.
    cbn [orb radius update_age set_age merging_a bystander redDwarf yellowDwarf]. lra. }
  pose proof (pair_step_quiet _ _ (1 * 1) Hm Hf) as Q.
  assert (K : stopped (pair_loops
                (if Rgtb (1 * 1) 0
                 then map (update_age (1 * 1)) [merging_a; bystander]
                 else [merging_a; bystander]) (1 * 1)) = false).
  { replace (Rgtb (1 * 1) 0) with true by (symmetry; apply Rgtb_true; exact Hdt).
    unfold pair_loops. cbn [map length outer_loop inner_loop]. rewrite Q. reflexivity. }
  destruct (T K) as (_ & _ & F). exact F.
Defined.

(** C4, counterexample.  Two red dwarfs inside their merge threshold and
    a third body a hundred units away, each with velocity (1, 0, 0), one
    tick with dt = 1: the tick ages the three bodies and merges the pair,
    and leaves every position as it was, the third body still at x = 100
    with its velocity of (1, 0, 0), not at x = 101. *)
Lemma positions_kept_on_merge_tick :
  exists a' b' c',
    tick [merging_a; merging_b; bystander] 1 1 = ([a'; b'; c'], [onMerger "b" "a"]) /\
    map position (fst (tick [merging_a; merging_b; bystander] 1 1))
    = map position [merging_a; merging_b; bystander] /\
    position a' = origin /\
    position b' = mkPosition 0.3 0 0 /\
    position c' = mkPosition 100 0 0 /\
    velocity c' = mkPosition 1 0 0 /\
    age c' = age bystander + 1 * 1 * 10 /\
    x (position c') <> x (position bystander) + x (velocity c') * (1 * 1).
Proof.
  assert (Hdt : 0 < 1 * 1) by lra.
  assert (Hz : dist (update_age (1 * 1) merging_a) (update_age (1 * 1) merging_b)
               < mergeThreshold (update_age (1 * 1) merging_a)
                   (update_age (1 * 1) merging_b)).
  { rewrite dist_along_x; unfold mergeThreshold, combinedRadius;
      cbn [position radius x y z update_age set_age merging_a merging_b redDwarf origin];
      lra. }
  assert (W : winnerIsB (update_age (1 * 1) merging_a) (update_age (1 * 1) merging_b)
              = true).
  { rewrite winnerIsB_eq. replace (isBH _) with false by reflexivity.
    replace (isBH _) with false by reflexivity.
    cbn [mass update_age set_age merging_a merging_b redDwarf negb andb orb].
    apply Rgtb_true. lra. }
  pose proof (pair_step_merge _ _ (1 * 1) Hz) as E. cbv zeta in E. rewrite W in E.
  assert (Q : tick [merging_a; merging_b; bystander] 1 1
              = ([fst (gravity (update_age (1 * 1) merging_a)
                        (update_age (1 * 1) merging_b) (1 * 1));
                  merge (snd (gravity (update_age (1 * 1) merging_a)
                                (update_age (1 * 1) merging_b) (1 * 1)))
                        (fst (gravity (update_age (1 * 1) merging_a)
                                (update_age (1 * 1) merging_b) (1 * 1)));
                  update_age (1 * 1) bystander],
                 [onMerger "b" "a"])).
  { rewrite (tick_first_pair_merges merging_a merging_b [bystander] 1 1 Hdt);
      rewrite E; reflexivity. }
  eexists. eexists. eexists. split; [exact Q|]. split; [rewrite Q; reflexivity|].
  split; [reflexivity|]. split; [reflexivity|]. split; [reflexivity|].
  split; [reflexivity|]. split; [reflexivity|].
  cbn [position velocity x update_age set_age bystander yellowDwarf]. lra.
Qed.

(** *** The registry *)

Lemma has_id_In (wanted : string) (stars : list StarData) :
  has_id wanted stars = true <-> exists s, In s stars /\ id s = wanted.
Proof.
  unfold has_id. rewrite existsb_exists.
  split; intros (s & I & E); exists s; (split; [exact I|]); apply String.eqb_eq, E.
Qed.

Lemma negb_eqb_true (a b : string) : negb (String.eqb a b) = true <-> a <> b.
Proof. rewrite negb_true_iff. apply String.eqb_neq. Qed.

(** C9, as the code has it.  When a merge removes the loser, the registry
    loses the bodies that carry the loser's id and nothing else changes:
    every other body stays in the registry exactly as it was, no
    [consumedBy] is repointed, and a third body that names the removed
    loser as its predator still names it afterwards. *)
Theorem handleMerger_removes_only_loser (winnerId loserId : string)
    (stars : list StarData) :
  has_id winnerId stars = true -> has_id loserId stars = true ->
  (forall s, In s (handleMerger winnerId loserId stars) <-> In s stars /\ id s <> loserId) /\
  has_id loserId (handleMerger winnerId loserId stars) = false /\
  (forall s, In s stars -> id s <> loserId -> consumedBy s = Some loserId ->
     exists s', In s' (handleMerger winnerId loserId stars) /\
                id s' = id s /\ consumedBy s' = Some loserId).
Proof.
  intros Hw Hl. unfold handleMerger. rewrite Hw, Hl. cbn [andb].
  assert (M : forall s,
             In s (filter (fun s0 => negb (String.eqb (id s0) loserId)) stars)
             <-> In s stars /\ id s <> loserId).
  { intros s. rewrite filter_In, negb_eqb_true. reflexivity. }
  split; [exact M|]. split.
  - destruct (has_id loserId (filter _ stars)) eqn:E; [|reflexivity].
    apply has_id_In in E. destruct E as (s & I & E).
    apply M in I. destruct I as (_ & N). contradiction.
  - intros s I N C. exists s. split; [apply M; auto | auto].
Qed.

Lemma handleMerger_removes_only_loser_witness :
  let stars := [set_consumedBy (Some "bh2"%string) third_body; survivor_hole; removed_hole] in
  exists s', In s' (handleMerger "bh1" "bh2" stars) /\
             id s' = "d"%string /\ consumedBy s' = Some "bh2"%string.
Proof.
  cbv zeta.
  destruct (handleMerger_removes_only_loser "bh1" "bh2"
              [set_consumedBy (Some "bh2"%string) third_body; survivor_hole; removed_hole])
    as (_ & _ & H).
  - reflexivity.
  - reflexivity.
  - apply (H (set_consumedBy (Some "bh2"%string) third_body)).
    + left. reflexivity.
    + discriminate.
    + reflexivity.
Defined.

(** The fields the thresholds and the predator choice read, after the
    velocity blocks of a pair. *)
Lemma forces_and_capture_fields (bodyA bodyB : StarData) (dt : R) :
  let a := fst (forces_and_capture bodyA bodyB dt) in
  let b := snd (forces_and_capture bodyA bodyB dt) in
  (id a = id bodyA /\ position a = position bodyA /\ mass a = mass bodyA /\
   type a = type bodyA /\ radius a = radius bodyA /\ consumedBy a = consumedBy bodyA /\
   isShredding a = isShredding bodyA) /\
  (id b = id bodyB /\ position b = position bodyB /\ mass b = mass bodyB /\
   type b = type bodyB /\ radius b = radius bodyB /\ consumedBy b = consumedBy bodyB /\
   isShredding b = isShredding bodyB).
Proof.
  cbv zeta. destruct (forces_and_capture_velocity_only bodyA bodyB dt) as (Va & Vb).
  apply velocity_only_fields in Va, Vb.
  destruct Va as (? & ? & ? & ? & ? & ? & ? & ?).
  destruct Vb as (? & ? & ? & ? & ? & ? & ? & ?). auto 20.
Qed.

(** The two callbacks of the frame below, on a registry of three bodies
    of which the first is marked already. *)
Lemma dispatch_transfer_then_merger (s1 s2 s3 : StarData) (amount : R) :
  id s1 = "d"%string -> id s2 = "bh1"%string -> id s3 = "bh2"%string ->
  isShredding s1 = true ->
  fold_left dispatch [onMassTransfer "d" "bh2" amount; onMerger "bh1" "bh2"] [s1; s2; s3]
  = [s1; s2].
Proof.
  intros I1 I2 I3 S. cbn [fold_left dispatch].
  assert (E : handleMassTransfer "d" "bh2" amount [s1; s2; s3] = [s1; s2; s3]).
  { apply handleMassTransfer_marked. intros i s. cbn [findIndex]. rewrite I1.
    replace (String.eqb "d" "d") with true by reflexivity.
    intros Ei En. inversion Ei; subst i. cbn [nth_error] in En.
    inversion En; subst s. exact S. }
  rewrite E. unfold handleMerger, has_id. cbn [existsb filter].
  rewrite I1, I2, I3. reflexivity.
Qed.

(** C9, counterexample.  A yellow dwarf and two black holes, none of them
    consumed by anything.  In one frame the dwarf is fed upon by the
    second black hole, which then merges into the first and is removed
    from the registry; the dwarf is left with [consumedBy] naming the
    removed black hole, not the winner. *)
Lemma dangling_predator_after_merger :
  let before := [third_body; survivor_hole; removed_hole] in
  let after := frame before 1 1 in
  (forall s, In s before -> consumedBy s = None) /\
  snd (tick before 1 1)
  = [onMassTransfer "d" "bh2" (0.1 * (1 * 1)); onMerger "bh1" "bh2"] /\
  exists d' h',
    after = [d'; h'] /\ id d' = "d"%string /\ id h' = "bh1"%string /\
    consumedBy d' = Some "bh2"%string /\ consumedBy d' <> Some "bh1"%string /\
    has_id "bh2" after = false.
Proof.
  cbv zeta. split.
  { intros s [<-|[<-|[<-|[]]]]; reflexivity. }
  unfold frame, tick.
  remember (1 * 1) as dt eqn:Edt.
  assert (Hdt : 0 < dt) by lra.
  decide_R. cbn [map]. unfold pair_loops. cbn [length outer_loop inner_loop].
  set (D0 := update_age dt third_body).
  set (H1 := update_age dt survivor_hole).
  set (H2 := update_age dt removed_hole).
  (* the dwarf and the far black hole *)
  assert (Q1m : mergeThreshold D0 H1 <= dist D0 H1).
  { unfold D0, H1. rewrite dist_along_x; unfold mergeThreshold, combinedRadius;
      cbn [position radius x y z update_age set_age third_body survivor_hole
           yellowDwarf blackHole origin]; lra. }
  assert (Q1f : feedingThreshold D0 H1 <= dist D0 H1).
  { unfold D0, H1. rewrite dist_along_x; unfold feedingThreshold, combinedRadius;
      [replace (isBH _ || isBH _) with true by reflexivity|..];
      cbn [position radius x y z update_age set_age third_body survivor_hole
           yellowDwarf blackHole origin]; lra. }
  rewrite (pair_step_quiet D0 H1 dt Q1m Q1f). cbn [returned resA resB fired].
  destruct (forces_and_capture_fields D0 H1 dt)
    as ((Ia1 & Pa1 & Ma1 & Ta1 & Ra1 & _) & (Ib1 & Pb1 & Mb1 & Tb1 & Rb1 & _)).
  cbv zeta in *.
  set (a1 := fst (forces_and_capture D0 H1 dt)) in *.
  set (b1 := snd (forces_and_capture D0 H1 dt)) in *.
  (* the dwarf and the near black hole *)
  destruct (geometry_congruence D0 H2 a1 H2 Pa1 eq_refl Ra1 eq_refl Ta1 eq_refl
              Ma1 eq_refl) as (G2d & G2m & _ & G2f & G2w).
  assert (Q2m : mergeThreshold a1 H2 <= dist a1 H2).
  { rewrite G2d, G2m. unfold D0, H2.
    rewrite dist_along_x; unfold mergeThreshold, combinedRadius;
      cbn [position radius x y z update_age set_age third_body removed_hole
           yellowDwarf blackHole origin]; lra. }
  assert (Q2f : dist a1 H2 < feedingThreshold a1 H2).
  { rewrite G2d, G2f. unfold D0, H2.
    rewrite dist_along_x; unfold feedingThreshold, combinedRadius;
      [replace (isBH _ || isBH _) with true by reflexivity|..];
      cbn [position radius x y z update_age set_age third_body removed_hole
           yellowDwarf blackHole origin]; lra. }
  assert (W2 : winnerIsB a1 H2 = true).
  { rewrite G2w, winnerIsB_eq. reflexivity. }
  assert (Q2l : mass (loser a1 H2) > 0.1).
  { unfold loser. rewrite W2, Ma1. unfold D0.
    cbn [mass update_age set_age third_body yellowDwarf]. lra. }
  rewrite (pair_step_feed a1 H2 dt Q2m Q2f Q2l). cbv zeta. rewrite W2.
  cbn [returned resA resB fired inner_loop innerA innerRest innerCalls innerStopped].
  destruct (forces_and_capture_fields a1 H2 dt)
    as ((Ia2 & _) & (Ib2 & Pb2 & Mb2 & Tb2 & Rb2 & _)).
  cbv zeta in *.
  set (a2 := fst (forces_and_capture a1 H2 dt)) in *.
  set (b2 := snd (forces_and_capture a1 H2 dt)) in *.
  (* the two black holes *)
  destruct (geometry_congruence H1 H2 b1 b2 Pb1 Pb2 Rb1 Rb2 Tb1 Tb2 Mb1 Mb2)
    as (G3d & G3m & _ & _ & G3w).
  assert (Q3 : dist b1 b2 < mergeThreshold b1 b2).
  { rewrite G3d, G3m. destruct (geometry_symmetric H2 H1) as (Sd & Sm & _).
    rewrite Sd, Sm. unfold H1, H2.
    rewrite dist_along_x; unfold mergeThreshold, combinedRadius;
      cbn [position radius x y z update_age set_age survivor_hole removed_hole
           blackHole]; lra. }
  assert (W3 : winnerIsB b1 b2 = false).
  { rewrite G3w, winnerIsB_eq. reflexivity. }
  rewrite (pair_step_merge b1 b2 dt Q3). cbv zeta. rewrite W3.
  cbn [returned resA resB fired inner_loop innerA innerRest innerCalls innerStopped
       bodies calls stopped app snd fst].
  rewrite Ia1, Ib1, Ib2.
  replace (id D0) with "d"%string by reflexivity.
  replace (id H1) with "bh1"%string by reflexivity.
  replace (id H2) with "bh2"%string by reflexivity.
  split; [rewrite Edt; reflexivity|].
  rewrite dispatch_transfer_then_merger.
  - eexists. eexists. split; [reflexivity|].
    cbn [id consumedBy shred merge set_velocity set_consumedBy set_isShredding
         set_mass set_radius].
    destruct (gravity_frame b1 b2 dt) as ((Ig & _) & _). cbv zeta in Ig.
    unfold has_id. cbn [existsb id consumedBy shred merge set_velocity set_consumedBy
                        set_isShredding set_mass set_radius].
    rewrite Ia2, Ia1, Ig, Ib1.
    replace (id D0) with "d"%string by reflexivity.
    replace (id H1) with "bh1"%string by reflexivity.
    repeat split. discriminate.
  - cbn [id shred set_velocity set_consumedBy set_isShredding].
    rewrite Ia2, Ia1. reflexivity.
  - cbn [id merge set_velocity set_mass set_radius].
    destruct (gravity_frame b1 b2 dt) as ((Ig & _) & _). cbv zeta in Ig.
    rewrite Ig, Ib1. reflexivity.
  - destruct (gravity_frame b1 b2 dt) as (_ & (Ig & _)). cbv zeta in Ig.
    rewrite Ig, Ib2. reflexivity.
  - reflexivity.
Qed.

(** *** The feeding flags *)

Lemma update_age_descends (dt : R) (s : StarData) : descends s (update_age dt s).
Proof. unfold descends, flags_agree. cbn. auto. Qed.

Lemma update_position_descends (dt : R) (s : StarData) : descends s (update_position dt s).
Proof. unfold descends, flags_agree. cbn. auto. Qed.

Lemma Forall2_map_same {A : Type} (Rel : A -> A -> Prop) (f : A -> A) (l : list A) :
  (forall a, Rel a (f a)) -> Forall2 Rel l (map f l).
Proof. intros H. induction l; cbn [map]; constructor; auto. Qed.

Lemma tick_descends (stars : list StarData) (timeScale delta : R) :
  Forall2 descends stars (fst (tick stars timeScale delta)).
Proof.
  unfold tick. destruct (Reqb (delta * timeScale) 0); cbn [fst].
  { apply Forall2_same, descends_refl. }
  set (dt := delta * timeScale).
  assert (A : Forall2 descends stars
                (if Rgtb dt 0 then map (update_age dt) stars else stars)).
  { destruct (Rgtb dt 0).
    - apply Forall2_map_same, update_age_descends.
    - apply Forall2_same, descends_refl. }
  assert (L : Forall2 descends stars
                (bodies (pair_loops
                   (if Rgtb dt 0 then map (update_age dt) stars else stars) dt))).
  { eapply Forall2_compose; [exact descends_trans | exact A | apply pair_loops_descends]. }
  destruct (stopped _); cbn [fst]; [exact L|].
  apply Forall2_map_r; [|exact L].
  intros a b D. eapply descends_trans; [exact D | apply update_position_descends].
Qed.

Lemma Forall2_registry_descends (before after : list StarData) :
  Forall2 descends before after -> registry_descends before after.
Proof.
  intros F. induction F as [|s s' l l' D _ IH]; intros t I; cbn [In] in I.
  - contradiction.
  - destruct I as [<-|I].
    + exists s. split; [left; reflexivity | exact D].
    + destruct (IH t I) as (u & Iu & Du). exists u. split; [right; exact Iu | exact Du].
Qed.

Lemma registry_descends_refl (stars : list StarData) : registry_descends stars stars.
Proof. intros s I. exists s. split; [exact I | apply descends_refl]. Qed.

Lemma registry_descends_trans (l1 l2 l3 : list StarData) :
  registry_descends l1 l2 -> registry_descends l2 l3 -> registry_descends l1 l3.
Proof.
  intros H12 H23 s3 I3. destruct (H23 s3 I3) as (s2 & I2 & D23).
  destruct (H12 s2 I2) as (s1 & I1 & D12).
  exists s1. split; [exact I1 | eapply descends_trans; eassumption].
Qed.

Lemma handleMerger_descends (winnerId loserId : string) (stars : list StarData) :
  registry_descends stars (handleMerger winnerId loserId stars).
Proof.
  unfold handleMerger. destruct (_ && _); [|apply registry_descends_refl].
  intros s I. apply filter_In in I. destruct I as (I & _).
  exists s. split; [exact I | apply descends_refl].
Qed.

Lemma assign_descends (stars : list StarData) (i : nat) (s v : StarData) :
  nth_error stars i = Some s -> descends s v ->
  Forall2 descends stars (assign i v stars).
Proof.
  revert i. induction stars as [|t rest IH]; intros i E D.
  - destruct i; discriminate E.
  - destruct i as [|i]; cbn [assign nth_error] in *.
    + inversion E; subst t. constructor; [exact D | apply Forall2_same, descends_refl].
    + constructor; [apply descends_refl | apply IH; assumption].
Qed.

Lemma handleMassTransfer_descends (sourceId targetId : string) (amount : R)
    (stars : list StarData) :
  registry_descends stars (handleMassTransfer sourceId targetId amount stars).
Proof.
  unfold handleMassTransfer.
  destruct (findIndex sourceId stars) as [i|]; [|apply registry_descends_refl].
  destruct (findIndex targetId stars); [|apply registry_descends_refl].
  destruct (nth_error stars i) as [s|] eqn:E; [|apply registry_descends_refl].
  destruct (isShredding s) eqn:S; cbn [negb]; [apply registry_descends_refl|].
  apply Forall2_registry_descends, (assign_descends stars i s); [exact E|].
  unfold descends, flags_agree. cbn. rewrite S.
  repeat split; try discriminate; auto.
Qed.

Lemma dispatch_descends (events : list Event) (stars : list StarData) :
  registry_descends stars (fold_left dispatch events stars).
Proof.
  revert stars. induction events as [|e events IH]; intros stars; cbn [fold_left].
  - apply registry_descends_refl.
  - eapply registry_descends_trans; [|apply IH].
    destruct e; cbn [dispatch];
      [apply handleMerger_descends | apply handleMassTransfer_descends].
Qed.

Lemma frame_descends (stars : list StarData) (timeScale delta : R) :
  registry_descends stars (frame stars timeScale delta).
Proof.
  unfold frame. pose proof (tick_descends stars timeScale delta) as T.
  destruct (tick stars timeScale delta) as [stars' events]. cbn [fst] in T.
  eapply registry_descends_trans;
    [apply Forall2_registry_descends, T | apply dispatch_descends].
Qed.

Lemma run_descends (timeScale : R) (deltas : list R) (stars : list StarData) :
  registry_descends stars (run timeScale deltas stars).
Proof.
  revert stars. induction deltas as [|d deltas IH]; intros stars; unfold run in *;
    cbn [fold_left].
  - apply registry_descends_refl.
  - eapply registry_descends_trans; [apply frame_descends | apply IH].
Qed.

Lemma NoDup_map_injective {A B : Type} (f : A -> B) (l : list A) (a b : A) :
  NoDup (map f l) -> In a l -> In b l -> f a = f b -> a = b.
Proof.
  induction l as [|c l IH]; cbn [map In]; intros N Ia Ib E; [contradiction|].
  inversion N as [|? ? Nc Nl]; subst.
  destruct Ia as [<-|Ia], Ib as [<-|Ib].
  - reflexivity.
  - exfalso. apply Nc. rewrite E. apply in_map, Ib.
  - exfalso. apply Nc. rewrite <- E. apply in_map, Ia.
  - apply IH; assumption.
Qed.

Lemma registry_descends_flags_kept (before after : list StarData) :
  NoDup (map id before) -> registry_descends before after -> flags_kept before after.
Proof.
  intros N H s s' I I' E. destruct (H s' I') as (t & It & (Et & S & C & _)).
  assert (t = s) by (apply (NoDup_map_injective id before); congruence).
  subst t. auto.
Qed.

Lemma registry_descends_flags_agree (before after : list StarData) :
  registry_descends before after ->
  Forall flags_agree before -> Forall flags_agree after.
Proof.
  intros H F. apply Forall_forall. intros s' I'.
  destruct (H s' I') as (s & I & (_ & _ & _ & A)).
  apply A. rewrite Forall_forall in F. apply F, I.
Qed.

(** C10.  In a registry whose ids are distinct, a body whose [isShredding]
    is true, or whose [consumedBy] is set, still has it so after the
    physics tick, after either callback, after the birth of a star from a
    cloud with a new id, and after any number of frames, for as long as a
    body with its id is in the registry.  A newly built star has
    [isShredding] false and [consumedBy] null, and the two flags, once they
    agree on every body, agree ever after. *)
Theorem feeding_flags_never_reset (stars : list StarData) :
  NoDup (map id stars) ->
  (forall timeScale delta, flags_kept stars (fst (tick stars timeScale delta))) /\
  (forall winnerId loserId, flags_kept stars (handleMerger winnerId loserId stars)) /\
  (forall sourceId targetId amount,
     flags_kept stars (handleMassTransfer sourceId targetId amount stars)) /\
  (forall cloud rand v ps,
     has_id (cloud_id cloud) stars = false ->
     flags_kept stars (addStar (newStar cloud rand v ps) stars)) /\
  (forall timeScale deltas, flags_kept stars (run timeScale deltas stars)) /\
  (forall cloud rand v ps,
     isShredding (newStar cloud rand v ps) = false /\
     consumedBy (newStar cloud rand v ps) = None) /\
  (Forall flags_agree stars ->
   forall timeScale deltas, Forall flags_agree (run timeScale deltas stars)).
Proof.
  intros N.
  split; [intros; apply registry_descends_flags_kept, Forall2_registry_descends,
                    tick_descends; exact N|].
  split; [intros; apply registry_descends_flags_kept, handleMerger_descends; exact N|].
  split; [intros; apply registry_descends_flags_kept, handleMassTransfer_descends;
          exact N|].
  split.
  { intros cloud rand v ps F s s' I I' E. unfold addStar in I'.
    apply in_app_or in I'. destruct I' as [I'|[<-|[]]].
    - assert (s' = s) by (apply (NoDup_map_injective id stars); assumption).
      subst s'. auto.
    - exfalso. assert (T : has_id (cloud_id cloud) stars = true).
      { apply has_id_In. exists s. split; [exact I | symmetry; exact E]. }
      rewrite T in F. discriminate F. }
  split; [intros; apply registry_descends_flags_kept, run_descends; exact N|].
  split; [intros; split; reflexivity|].
  intros F timeScale deltas.
  exact (registry_descends_flags_agree _ _ (run_descends timeScale deltas stars) F).
Qed.

Lemma feeding_flags_never_reset_witness :
  flags_kept [set_isShredding true (set_consumedBy (Some "hole"%string) feeding_dwarf);
              feeding_hole]
    (run 1 [1; 1; 1]
       [set_isShredding true (set_consumedBy (Some "hole"%string) feeding_dwarf);
        feeding_hole]).
Proof.
  apply (feeding_flags_never_reset
           [set_isShredding true (set_consumedBy (Some "hole"%string) feeding_dwarf);
            feeding_hole]).
  cbn [map id set_isShredding set_consumedBy feeding_dwarf feeding_hole
       yellowDwarf blackHole].
  constructor.
  - cbn [In]. intros [H|[]]. discriminate H.
  - constructor; [cbn [In]; tauto | constructor].
Defined.

(** ** Further properties of the physics tick *)

(** *** The callbacks of one pair *)

Lemma pair_step_returned (bodyA bodyB : StarData) (dt : R) :
  returned (pair_step bodyA bodyB dt) = Rltb (dist bodyA bodyB) (mergeThreshold bodyA bodyB).
Proof.
  rewrite pair_step_eq. unfold feeding_merging.
  destruct (Rltb (dist bodyA bodyB) (mergeThreshold bodyA bodyB)); [reflexivity|].
  destruct (Rltb _ _); [|reflexivity]. destruct (Rgtb _ _); reflexivity.
Qed.

Lemma pair_step_fired (bodyA bodyB : StarData) (dt : R) :
  let r := pair_step bodyA bodyB dt in
  (returned r = true ->
     fired r = [onMerger (id (winner bodyA bodyB)) (id (loser bodyA bodyB))]) /\
  (returned r = false -> forallb is_transfer (fired r) = true).
Proof.
  cbv zeta. split; intros H.
  - rewrite pair_step_returned in H. apply Rltb_true in H.
    rewrite (pair_step_merge bodyA bodyB dt H). cbv zeta. unfold winner, loser.
    destruct (winnerIsB bodyA bodyB); reflexivity.
  - revert H. rewrite pair_step_eq. unfold feeding_merging.
    destruct (Rltb (dist bodyA bodyB) (mergeThreshold bodyA bodyB));
      [intros H; discriminate H|].
    destruct (Rltb _ _); [|reflexivity]. destruct (Rgtb _ _); reflexivity.
Qed.

Lemma pair_step_ids (bodyA bodyB : StarData) (dt : R) :
  id (resA (pair_step bodyA bodyB dt)) = id bodyA /\
  id (resB (pair_step bodyA bodyB dt)) = id bodyB.
Proof.
  destruct (pair_step_static bodyA bodyB dt) as ((Ia & _) & (Ib & _)). auto.
Qed.

(** *** Sums over the registry *)

Lemma total_app (q : StarData -> R) (l1 l2 : list StarData) :
  total q (l1 ++ l2) = total q l1 + total q l2.
Proof.
  induction l1 as [|s l1 IH]; cbn [app total fold_right].
  - unfold total. cbn. lra.
  - fold (total q (l1 ++ l2)). fold (total q l1). rewrite IH. lra.
Qed.

Lemma total_cons (q : StarData -> R) (s : StarData) (l : list StarData) :
  total q (s :: l) = q s + total q l.
Proof. reflexivity. Qed.

Lemma without_absent (loserId : string) (stars : list StarData) :
  ~ In loserId (map id stars) -> without loserId stars = stars.
Proof.
  induction stars as [|s stars IH]; cbn [map In without filter]; intros H; [reflexivity|].
  destruct (String.eqb_spec (id s) loserId) as [E|N]; cbn [negb].
  - exfalso. apply H. left. exact E.
  - fold (without loserId stars). rewrite IH; [reflexivity|]. intros I. apply H. right. exact I.
Qed.

Lemma without_cons (loserId : string) (s : StarData) (stars : list StarData) :
  without loserId (s :: stars)
  = if String.eqb (id s) loserId then without loserId stars else s :: without loserId stars.
Proof. unfold without. cbn [filter]. destruct (String.eqb _ _); reflexivity. Qed.

Lemma total_without_second (q : StarData -> R) (loserId : string) (a b : StarData)
    (rest : list StarData) :
  id b <> loserId ->
  total q (without loserId (a :: b :: rest)) = q b + total q (without loserId (a :: rest)).
Proof.
  intros N. rewrite (without_cons loserId a (b :: rest)), (without_cons loserId a rest).
  rewrite (without_cons loserId b rest).
  destruct (String.eqb_spec (id b) loserId) as [E|_]; [contradiction|].
  destruct (String.eqb (id a) loserId); rewrite ?total_cons; lra.
Qed.

Lemma assign_Forall2 (Rel : StarData -> StarData -> Prop) (stars : list StarData)
    (i : nat) (s v : StarData) :
  (forall a, Rel a a) -> nth_error stars i = Some s -> Rel s v ->
  Forall2 Rel stars (assign i v stars).
Proof.
  intros Hr. revert i. induction stars as [|t rest IH]; intros i E D.
  - destruct i; discriminate E.
  - destruct i as [|i]; cbn [assign nth_error] in *.
    + inversion E; subst t. constructor; [exact D | apply Forall2_same, Hr].
    + constructor; [apply Hr | apply IH; assumption].
Qed.

Section Conservation.

(** A quantity [q] that every pair interaction keeps in the pair, and
    that a merger hands over to the winner, is kept by the whole frame
    once the loser has been removed, in a registry with distinct ids whose
    bodies satisfy [P]. *)
Variable q : StarData -> R.
Variable P : StarData -> Prop.

Hypothesis P_step : forall dt bodyA bodyB, P bodyA -> P bodyB ->
  P (resA (pair_step bodyA bodyB dt)) /\ P (resB (pair_step bodyA bodyB dt)).
Hypothesis q_keep : forall dt bodyA bodyB, P bodyA -> P bodyB ->
  returned (pair_step bodyA bodyB dt) = false ->
  q (resA (pair_step bodyA bodyB dt)) + q (resB (pair_step bodyA bodyB dt))
  = q bodyA + q bodyB.
Hypothesis q_merge : forall dt bodyA bodyB, P bodyA -> P bodyB ->
  returned (pair_step bodyA bodyB dt) = true ->
  q (if winnerIsB bodyA bodyB
     then resB (pair_step bodyA bodyB dt) else resA (pair_step bodyA bodyB dt))
  = q bodyA + q bodyB.
Hypothesis P_age : forall dt s, P s -> P (update_age dt s).
Hypothesis q_age : forall dt s, q (update_age dt s) = q s.
Hypothesis P_position : forall dt s, P s -> P (update_position dt s).
Hypothesis q_position : forall dt s, q (update_position dt s) = q s.
Hypothesis P_flags : forall c s, P s -> P (set_isShredding true (set_consumedBy c s)).
Hypothesis q_flags : forall c s, q (set_isShredding true (set_consumedBy c s)) = q s.

Lemma inner_loop_conserves (dt : R) (rest : list StarData) (bodyA : StarData) :
  P bodyA -> Forall P rest -> NoDup (map id (bodyA :: rest)) ->
  loops_conserve q P (bodyA :: rest)
    (innerA (inner_loop bodyA rest dt) :: innerRest (inner_loop bodyA rest dt))
    (innerCalls (inner_loop bodyA rest dt)) (innerStopped (inner_loop bodyA rest dt)).
Proof.
  revert bodyA. induction rest as [|bodyB rest IH]; intros bodyA Pa Pr N;
    cbn [inner_loop].
  { cbn [innerA innerRest innerCalls innerStopped]. unfold loops_conserve.
    split; [constructor; [exact Pa | constructor]|]. split; [reflexivity|].
    split; reflexivity. }
  inversion Pr as [|? ? Pb Pr']; subst.
  destruct (pair_step_ids bodyA bodyB dt) as (Ia & Ib).
  destruct (P_step dt bodyA bodyB Pa Pb) as (Pa' & Pb').
  cbn [map] in N. inversion N as [|? ? Na N']; subst.
  inversion N' as [|? ? Nb N'']; subst.
  assert (Nab : id bodyA <> id bodyB) by (intros E; apply Na; left; symmetry; exact E).
  destruct (returned (pair_step bodyA bodyB dt)) eqn:E.
  - cbn [innerA innerRest innerCalls innerStopped]. unfold loops_conserve.
    split; [constructor; [exact Pa' | constructor; [exact Pb' | exact Pr']]|].
    split; [cbn [map]; rewrite Ia, Ib; reflexivity|].
    destruct (pair_step_fired bodyA bodyB dt) as (F & _). specialize (F E).
    pose proof (q_merge dt bodyA bodyB Pa Pb E) as Q.
    exists [], (id (winner bodyA bodyB)), (id (loser bodyA bodyB)).
    split; [exact F|]. split; [reflexivity|].
    unfold winner, loser in *. cbn [map In].
    destruct (winnerIsB bodyA bodyB).
    + split; [auto|]. split; [auto|]. split; [congruence|].
      rewrite !without_cons, Ia, Ib, String.eqb_refl.
      destruct (String.eqb_spec (id bodyB) (id bodyA)) as [X|_]; [congruence|].
      rewrite without_absent by (intros I; apply Na; right; exact I).
      rewrite !total_cons, Q. lra.
    + split; [auto|]. split; [auto|]. split; [congruence|].
      rewrite !without_cons, Ia, Ib, String.eqb_refl.
      destruct (String.eqb_spec (id bodyA) (id bodyB)) as [X|_]; [congruence|].
      rewrite without_absent by exact Nb.
      rewrite !total_cons, Q. lra.
  - cbn [innerA innerRest innerCalls innerStopped].
    destruct (pair_step_fired bodyA bodyB dt) as (_ & F). specialize (F E).
    pose proof (q_keep dt bodyA bodyB Pa Pb E) as Q.
    assert (N1 : NoDup (map id (resA (pair_step bodyA bodyB dt) :: rest))).
    { cbn [map]. rewrite Ia. constructor; [|exact N''].
      intros I. apply Na. right. exact I. }
    destruct (IH _ Pa' Pr' N1) as (Pk & Ik & Ck).
    set (k := inner_loop (resA (pair_step bodyA bodyB dt)) rest dt) in *.
    unfold loops_conserve.
    inversion Pk as [|? ? Pk1 Pk2]; subst.
    split; [constructor; [exact Pk1 | constructor; [exact Pb' | exact Pk2]]|].
    cbn [map] in Ik. injection Ik as Ik1 Ik2.
    split; [cbn [map]; rewrite Ik1, Ik2, Ia, Ib; reflexivity|].
    destruct (innerStopped k).
    + destruct Ck as (pre & w & l & Ec & Tp & Iw & Il & Nwl & Tq).
      exists (fired (pair_step bodyA bodyB dt) ++ pre), w, l.
      split; [rewrite Ec, app_assoc; reflexivity|].
      split; [rewrite forallb_app, F, Tp; reflexivity|].
      cbn [map In] in Iw, Il |- *. rewrite Ia in Iw, Il.
      split; [tauto|]. split; [tauto|]. split; [exact Nwl|].
      rewrite total_without_second.
      * rewrite Tq, !total_cons. lra.
      * rewrite Ib. intros X. subst l. destruct Il as [Il|Il].
        -- apply Nab. exact Il.
        -- apply Nb. exact Il.
    + destruct Ck as (Tp & Tq). split; [rewrite forallb_app, F, Tp; reflexivity|].
      rewrite !total_cons in *. lra.
Qed.

Lemma outer_loop_conserves (dt : R) (n : nat) (stars : list StarData) :
  Forall P stars -> NoDup (map id stars) ->
  loops_conserve q P stars (bodies (outer_loop n stars dt)) (calls (outer_loop n stars dt))
    (stopped (outer_loop n stars dt)).
Proof.
  revert stars. induction n as [|n IH]; intros stars Ps N.
  { destruct stars; cbn [outer_loop bodies calls stopped]; unfold loops_conserve; auto. }
  destruct stars as [|bodyA rest]; cbn [outer_loop].
  { cbn [bodies calls stopped]. unfold loops_conserve. auto. }
  inversion Ps as [|? ? Pa Pr]; subst.
  pose proof (inner_loop_conserves dt rest bodyA Pa Pr N) as (Pk & Ik & Ck).
  set (k := inner_loop bodyA rest dt) in *.
  destruct (innerStopped k); cbn [bodies calls stopped].
  { unfold loops_conserve. auto. }
  destruct Ck as (Tp & Tq).
  inversion Pk as [|? ? Pk1 Pk2]; subst.
  cbn [map] in Ik, N. injection Ik as Ik1 Ik2.
  inversion N as [|? ? Na N']; subst.
  assert (N2 : NoDup (map id (innerRest k))) by (rewrite Ik2; exact N').
  destruct (IH _ Pk2 N2) as (Pk' & Ik' & Ck').
  set (k' := outer_loop n (innerRest k) dt) in *.
  unfold loops_conserve.
  split; [constructor; assumption|].
  split; [cbn [map]; rewrite Ik1, Ik', Ik2; reflexivity|].
  destruct (stopped k').
  - destruct Ck' as (pre & w & l & Ec & Tp' & Iw & Il & Nwl & Tq').
    exists (innerCalls k ++ pre), w, l.
    split; [rewrite Ec, app_assoc; reflexivity|].
    split; [rewrite forallb_app, Tp, Tp'; reflexivity|].
    rewrite Ik2 in Iw, Il. cbn [map In].
    split; [tauto|]. split; [tauto|]. split; [exact Nwl|].
    rewrite without_cons, Ik1.
    destruct (String.eqb_spec (id bodyA) l) as [X|_].
    + exfalso. apply Na. rewrite X. exact Il.
    + rewrite !total_cons in *. rewrite Tq'. lra.
  - destruct Ck' as (Tp' & Tq'). split; [rewrite forallb_app, Tp, Tp'; reflexivity|].
    rewrite !total_cons in *. lra.
Qed.

Lemma keeps_refl (s : StarData) : keeps q P s s.
Proof. unfold keeps. auto. Qed.

Lemma keeps_trans (s1 s2 s3 : StarData) :
  keeps q P s1 s2 -> keeps q P s2 s3 -> keeps q P s1 s3.
Proof. unfold keeps. intros (I1 & Q1 & P1) (I2 & Q2 & P2). repeat split; try congruence; auto. Qed.

Lemma handleMassTransfer_keeps (sourceId targetId : string) (amount : R)
    (stars : list StarData) :
  Forall2 (keeps q P) stars (handleMassTransfer sourceId targetId amount stars).
Proof.
  unfold handleMassTransfer.
  destruct (findIndex sourceId stars) as [i|]; [|apply Forall2_same, keeps_refl].
  destruct (findIndex targetId stars); [|apply Forall2_same, keeps_refl].
  destruct (nth_error stars i) as [s|] eqn:E; [|apply Forall2_same, keeps_refl].
  destruct (negb (isShredding s)); [|apply Forall2_same, keeps_refl].
  apply (assign_Forall2 _ stars i s); [apply keeps_refl | exact E|].
  unfold keeps. split; [reflexivity|]. split; [apply q_flags | apply P_flags].
Qed.

Lemma transfers_keep (events : list Event) (stars : list StarData) :
  forallb is_transfer events = true ->
  Forall2 (keeps q P) stars (fold_left dispatch events stars).
Proof.
  revert stars. induction events as [|e events IH]; intros stars H; cbn [fold_left].
  - apply Forall2_same, keeps_refl.
  - cbn [forallb] in H. apply andb_true_iff in H. destruct H as (He & H).
    destruct e as [w l|s t a]; [discriminate He|]. cbn [dispatch].
    eapply Forall2_compose; [exact keeps_trans | apply handleMassTransfer_keeps | apply IH, H].
Qed.

Lemma keeps_facts (l l' : list StarData) :
  Forall2 (keeps q P) l l' ->
  map id l' = map id l /\ (Forall P l -> Forall P l') /\
  total q l' = total q l /\
  forall loserId, total q (without loserId l') = total q (without loserId l) /\
                  map id (without loserId l') = map id (without loserId l) /\
                  (Forall P l -> Forall P (without loserId l')).
Proof.
  intros F. induction F as [|s s' l l' (I & Q & Ps) _ (Im & Pm & Tm & Wm)].
  { repeat split; auto. }
  split; [cbn [map]; rewrite I, Im; reflexivity|].
  split; [intros H; inversion H; subst; constructor; auto|].
  split; [rewrite !total_cons, Q, Tm; reflexivity|].
  intros loserId. destruct (Wm loserId) as (Tw & Iw & Pw).
  rewrite !without_cons, I.
  destruct (String.eqb (id s) loserId).
  - split; [exact Tw|]. split; [exact Iw|]. intros H. inversion H; subst. auto.
  - split; [rewrite !total_cons, Q, Tw; reflexivity|].
    split; [cbn [map]; rewrite I, Iw; reflexivity|].
    intros H. inversion H; subst. constructor; auto.
Qed.

Lemma has_id_map (wanted : string) (stars : list StarData) :
  In wanted (map id stars) -> has_id wanted stars = true.
Proof.
  intros H. apply in_map_iff in H. destruct H as (s & E & I).
  apply has_id_In. exists s. auto.
Qed.

Lemma NoDup_without (loserId : string) (stars : list StarData) :
  NoDup (map id stars) -> NoDup (map id (without loserId stars)).
Proof.
  induction stars as [|s stars IH]; cbn [map]; intros N; [constructor|].
  inversion N as [|? ? Ns N']; subst. rewrite without_cons.
  destruct (String.eqb (id s) loserId); [apply IH, N'|].
  cbn [map]. constructor; [|apply IH, N'].
  intros I. apply Ns. apply in_map_iff in I. destruct I as (t & E & I).
  apply filter_In in I. destruct I as (I & _). apply in_map_iff. exists t. auto.
Qed.

Lemma Forall_without (loserId : string) (stars : list StarData) :
  Forall P stars -> Forall P (without loserId stars).
Proof.
  intros F. apply Forall_forall. intros s I. apply filter_In in I.
  rewrite Forall_forall in F. apply F, I.
Qed.

Lemma map_id_without (loserId : string) (stars : list StarData) :
  map id (without loserId stars)
  = filter (fun i => negb (String.eqb i loserId)) (map id stars).
Proof.
  induction stars as [|s stars IH]; [reflexivity|].
  rewrite without_cons. cbn [map filter].
  destruct (String.eqb (id s) loserId); cbn [negb map]; rewrite IH; reflexivity.
Qed.

(** The frame: the tick, then the callbacks.  Either the tick fired
    transfers only and the registry keeps its ids, or it fired transfers
    and then one merger, and the registry loses the loser. *)
Lemma frame_shape (stars : list StarData) (timeScale delta : R) :
  Forall P stars -> NoDup (map id stars) ->
  Forall P (frame stars timeScale delta) /\
  NoDup (map id (frame stars timeScale delta)) /\
  total q (frame stars timeScale delta) = total q stars /\
  ((forallb is_transfer (snd (tick stars timeScale delta)) = true /\
    map id (frame stars timeScale delta) = map id stars) \/
   (exists pre w l,
      snd (tick stars timeScale delta) = pre ++ [onMerger w l] /\
      forallb is_transfer pre = true /\
      In w (map id stars) /\ In l (map id stars) /\ w <> l /\
      map id (frame stars timeScale delta) = map id (without l stars))).
Proof.
  intros Ps N. unfold frame, tick.
  destruct (Reqb (delta * timeScale) 0); [cbn [fold_left snd]; auto 10|].
  set (dt := delta * timeScale).
  set (aged := if Rgtb dt 0 then map (update_age dt) stars else stars).
  assert (A : Forall2 (keeps q P) stars aged).
  { unfold aged. destruct (Rgtb dt 0); [|apply Forall2_same, keeps_refl].
    apply Forall2_map_same. intros s. unfold keeps. auto. }
  destruct (keeps_facts _ _ A) as (Ia & Pa & Ta & _).
  assert (Na : NoDup (map id aged)) by (rewrite Ia; exact N).
  pose proof (outer_loop_conserves dt (length aged) aged (Pa Ps) Na) as (Pk & Ik & Ck).
  fold (pair_loops aged dt) in Pk, Ik, Ck.
  set (k := pair_loops aged dt) in *.
  destruct (stopped k).
  - destruct Ck as (pre & w & l & Ec & Tp & Iw & Il & Nwl & Tq).
    cbn [snd]. rewrite Ec, fold_left_app. cbn [fold_left dispatch].
    destruct (keeps_facts _ _ (transfers_keep pre (bodies k) Tp)) as (I1 & P1 & _ & W1).
    destruct (W1 l) as (Tw & Iww & Pw).
    unfold handleMerger.
    rewrite (has_id_map w), (has_id_map l) by (rewrite I1, Ik; assumption).
    cbn [andb]. fold (without l (fold_left dispatch pre (bodies k))).
    split; [apply Pw, Pk|].
    split; [rewrite Iww; apply NoDup_without; rewrite Ik; exact Na|].
    split; [rewrite Tw, Tq; exact Ta|].
    right. exists pre, w, l. rewrite Ia in Iw, Il.
    repeat (split; [assumption || reflexivity|]).
    rewrite Iww, !map_id_without, Ik, Ia. reflexivity.
  - destruct Ck as (Tp & Tq).
    assert (M : Forall2 (keeps q P) (bodies k) (map (update_position dt) (bodies k))).
    { apply Forall2_map_same. intros s. unfold keeps. auto. }
    pose proof (transfers_keep (calls k) (map (update_position dt) (bodies k)) Tp) as D.
    pose proof (Forall2_compose _ _ _ _ keeps_trans M D) as MD.
    destruct (keeps_facts _ _ MD) as (I1 & P1 & T1 & _).
    split; [apply P1, Pk|]. split; [rewrite I1, Ik; exact Na|].
    split; [rewrite T1, Tq; exact Ta|].
    left. cbn [snd]. split; [exact Tp|]. rewrite I1, Ik. exact Ia.
Qed.

Lemma frame_conserves (stars : list StarData) (timeScale delta : R) :
  Forall P stars -> NoDup (map id stars) ->
  Forall P (frame stars timeScale delta) /\
  NoDup (map id (frame stars timeScale delta)) /\
  total q (frame stars timeScale delta) = total q stars.
Proof.
  intros Ps N. destruct (frame_shape stars timeScale delta Ps N) as (F & N' & T & _).
  auto.
Qed.

Lemma run_conserves (timeScale : R) (deltas : list R) (stars : list StarData) :
  Forall P stars -> NoDup (map id stars) ->
  Forall P (run timeScale deltas stars) /\
  NoDup (map id (run timeScale deltas stars)) /\
  total q (run timeScale deltas stars) = total q stars.
Proof.
  revert stars. induction deltas as [|d deltas IH]; intros stars Ps N; unfold run in *;
    cbn [fold_left]; [auto|].
  destruct (frame_conserves stars timeScale d Ps N) as (P1 & N1 & T1).
  destruct (IH _ P1 N1) as (P2 & N2 & T2). rewrite T2, T1. auto.
Qed.

End Conservation.

(** *** Conservation of mass *)

Lemma pair_step_merge_mass (dt : R) (bodyA bodyB : StarData) :
  returned (pair_step bodyA bodyB dt) = true ->
  mass (if winnerIsB bodyA bodyB
        then resB (pair_step bodyA bodyB dt) else resA (pair_step bodyA bodyB dt))
  = mass bodyA + mass bodyB.
Proof.
  intros H. rewrite pair_step_returned in H. apply Rltb_true in H.
  rewrite (pair_step_merge bodyA bodyB dt H). cbv zeta.
  destruct (winnerIsB bodyA bodyB); cbn [resA resB]; unfold merge, gravity; cbn; ring.
Qed.

Lemma pair_step_keeps_mass (dt : R) (bodyA bodyB : StarData) :
  returned (pair_step bodyA bodyB dt) = false ->
  mass (resA (pair_step bodyA bodyB dt)) + mass (resB (pair_step bodyA bodyB dt))
  = mass bodyA + mass bodyB.
Proof.
  intros H. destruct (pair_step_no_merge bodyA bodyB dt H) as ((Ma & _) & (Mb & _)).
  rewrite Ma, Mb. reflexivity.
Qed.

(** X1.  In a registry with distinct ids the total mass is the same after
    any number of frames, whatever the time scale and the frame deltas:
    feeding moves no mass, a merger gives the winner the mass of the loser
    and the loser is removed in the same frame.  The ids stay distinct. *)
Theorem total_mass_conserved (timeScale : R) (deltas : list R) (stars : list StarData) :
  NoDup (map id stars) ->
  total mass (run timeScale deltas stars) = total mass stars /\
  NoDup (map id (run timeScale deltas stars)).
Proof.
  intros N.
  destruct (run_conserves mass (fun _ => True)) with (timeScale := timeScale)
    (deltas := deltas) (stars := stars) as (_ & N' & T); auto.
  - intros dt bodyA bodyB _ _. apply pair_step_keeps_mass.
  - intros dt bodyA bodyB _ _. apply pair_step_merge_mass.
  - apply Forall_forall. auto.
Qed.

Lemma total_mass_conserved_witness :
  total mass (run 1 [1; 1] [merging_a; merging_b; bystander])
  = total mass [merging_a; merging_b; bystander].
Proof.
  apply (total_mass_conserved 1 [1; 1] [merging_a; merging_b; bystander]).
  cbn [map id merging_a merging_b bystander redDwarf yellowDwarf].
  repeat constructor; cbn [In]; intuition discriminate.
Defined.

(** *** Properties of the bodies that every operation keeps *)

Section PredicateInvariant.

Variable P : StarData -> Prop.

Hypothesis P_step : forall dt bodyA bodyB, P bodyA -> P bodyB ->
  P (resA (pair_step bodyA bodyB dt)) /\ P (resB (pair_step bodyA bodyB dt)).
Hypothesis P_age : forall dt s, P s -> P (update_age dt s).
Hypothesis P_position : forall dt s, P s -> P (update_position dt s).
Hypothesis P_flags : forall c s, P s -> P (set_isShredding true (set_consumedBy c s)).

Lemma inner_loop_Forall (dt : R) (rest : list StarData) (bodyA : StarData) :
  P bodyA -> Forall P rest ->
  P (innerA (inner_loop bodyA rest dt)) /\ Forall P (innerRest (inner_loop bodyA rest dt)).
Proof.
  revert bodyA. induction rest as [|bodyB rest IH]; intros bodyA Pa Pr; cbn [inner_loop].
  - auto.
  - inversion Pr as [|? ? Pb Pr']; subst.
    destruct (P_step dt bodyA bodyB Pa Pb) as (Pa' & Pb').
    destruct (returned (pair_step bodyA bodyB dt)); cbn [innerA innerRest].
    + auto.
    + destruct (IH _ Pa' Pr') as (Pk & Pkr). auto.
Qed.

Lemma outer_loop_Forall (dt : R) (n : nat) (stars : list StarData) :
  Forall P stars -> Forall P (bodies (outer_loop n stars dt)).
Proof.
  revert stars. induction n as [|n IH]; intros stars Ps.
  - destruct stars; exact Ps.
  - destruct stars as [|bodyA rest]; cbn [outer_loop]; [exact Ps|].
    inversion Ps as [|? ? Pa Pr]; subst.
    destruct (inner_loop_Forall dt rest bodyA Pa Pr) as (Pk & Pkr).
    destruct (innerStopped _); cbn [bodies]; auto.
Qed.

Lemma Forall_map_same (f : StarData -> StarData) (stars : list StarData) :
  (forall s, P s -> P (f s)) -> Forall P stars -> Forall P (map f stars).
Proof. intros H F. induction F; cbn [map]; constructor; auto. Qed.

Lemma tick_Forall (stars : list StarData) (timeScale delta : R) :
  Forall P stars -> Forall P (fst (tick stars timeScale delta)).
Proof.
  intros Ps. unfold tick. destruct (Reqb _ _); cbn [fst]; [exact Ps|].
  set (dt := delta * timeScale).
  assert (Pa : Forall P (if Rgtb dt 0 then map (update_age dt) stars else stars)).
  { destruct (Rgtb dt 0); [apply Forall_map_same; auto | exact Ps]. }
  pose proof (outer_loop_Forall dt
                (length (if Rgtb dt 0 then map (update_age dt) stars else stars))
                _ Pa) as Pk.
  fold (pair_loops (if Rgtb dt 0 then map (update_age dt) stars else stars) dt) in Pk.
  destruct (stopped _); cbn [fst]; [exact Pk|].
  apply Forall_map_same; auto.
Qed.

Lemma assign_Forall (i : nat) (v : StarData) (stars : list StarData) :
  P v -> Forall P stars -> Forall P (assign i v stars).
Proof.
  intros Pv. revert i. induction stars as [|s rest IH]; intros i F; cbn [assign].
  - destruct i; constructor.
  - inversion F; subst. destruct i; constructor; auto.
Qed.

Lemma dispatch_Forall (events : list Event) (stars : list StarData) :
  Forall P stars -> Forall P (fold_left dispatch events stars).
Proof.
  revert stars. induction events as [|e events IH]; intros stars F; cbn [fold_left];
    [exact F|].
  apply IH. destruct e as [w l|s t a]; cbn [dispatch].
  - unfold handleMerger. destruct (_ && _); [|exact F].
    apply Forall_forall. intros b I. apply filter_In in I.
    rewrite Forall_forall in F. apply F, I.
  - unfold handleMassTransfer.
    destruct (findIndex s stars) as [i|]; [|exact F].
    destruct (findIndex t stars); [|exact F].
    destruct (nth_error stars i) as [b|] eqn:E; [|exact F].
    destruct (negb (isShredding b)); [|exact F].
    apply assign_Forall; [|exact F]. apply P_flags.
    rewrite Forall_forall in F. apply F. eapply nth_error_In. exact E.
Qed.

Lemma run_Forall (timeScale : R) (deltas : list R) (stars : list StarData) :
  Forall P stars -> Forall P (run timeScale deltas stars).
Proof.
  revert stars. induction deltas as [|d deltas IH]; intros stars F; unfold run in *;
    cbn [fold_left]; [exact F|].
  apply IH. unfold frame. pose proof (tick_Forall stars timeScale d F) as T.
  destruct (tick stars timeScale d) as [stars' events]. apply dispatch_Forall, T.
Qed.

End PredicateInvariant.

Lemma Math_pow_positive (base exponent : R) : 0 < base -> 0 < Math_pow base exponent.
Proof.
  intros H. unfold Math_pow. destruct (Rlt_dec 0 base) as [_|N]; [|contradiction].
  unfold Rpower. apply exp_pos.
Qed.

Lemma merge_well_formed (w l : StarData) :
  well_formed w -> well_formed l -> well_formed (merge w l).
Proof.
  unfold well_formed. intros (Mw & Rw) (Ml & Rl). unfold merge.
  cbn [mass radius set_radius set_mass set_velocity]. split; [lra|].
  apply Math_pow_positive. rewrite !Math_pow_3 by assumption.
  assert (0 < radius w ^ 3) by (apply pow_lt; assumption).
  assert (0 < radius l ^ 3) by (apply pow_lt; assumption). lra.
Qed.

Lemma pair_step_well_formed (dt : R) (bodyA bodyB : StarData) :
  well_formed bodyA -> well_formed bodyB ->
  well_formed (resA (pair_step bodyA bodyB dt)) /\
  well_formed (resB (pair_step bodyA bodyB dt)).
Proof.
  intros Wa Wb. destruct (returned (pair_step bodyA bodyB dt)) eqn:E.
  - rewrite pair_step_returned in E. apply Rltb_true in E.
    rewrite (pair_step_merge bodyA bodyB dt E). cbv zeta.
    destruct (gravity_frame bodyA bodyB dt)
      as ((_ & _ & Ma & Ra & _) & (_ & _ & Mb & Rb & _)). cbv zeta in *.
    assert (Ga : well_formed (fst (gravity bodyA bodyB dt)))
      by (unfold well_formed in *; rewrite Ma, Ra; exact Wa).
    assert (Gb : well_formed (snd (gravity bodyA bodyB dt)))
      by (unfold well_formed in *; rewrite Mb, Rb; exact Wb).
    destruct (winnerIsB bodyA bodyB); cbn [resA resB]; auto using merge_well_formed.
  - destruct (pair_step_no_merge bodyA bodyB dt E) as ((Ma & Ra) & (Mb & Rb)).
    unfold well_formed in *. rewrite Ma, Ra, Mb, Rb. auto.
Qed.

(** X2.  Positive mass and positive radius are kept by every frame: if
    every body of the registry has them, every body has them after any
    number of frames, mergers included. *)
Theorem well_formed_invariant (timeScale : R) (deltas : list R) (stars : list StarData) :
  Forall well_formed stars -> Forall well_formed (run timeScale deltas stars).
Proof.
  apply run_Forall.
  - intros dt bodyA bodyB. apply pair_step_well_formed.
  - intros dt s W. exact W.
  - intros dt s W. exact W.
  - intros c s W. exact W.
Qed.

Lemma well_formed_invariant_witness :
  Forall well_formed (run 1 [1; 1] [merging_a; merging_b; bystander]).
Proof.
  apply (well_formed_invariant 1 [1; 1] [merging_a; merging_b; bystander]).
  repeat constructor; cbn [mass radius merging_a merging_b bystander redDwarf yellowDwarf];
    lra.
Defined.

(** *** Conservation of momentum *)

Lemma gravity_momentum (bodyA bodyB : StarData) (dt : R) :
  0 < mass bodyA -> 0 < mass bodyB ->
  let a := fst (gravity bodyA bodyB dt) in
  let b := snd (gravity bodyA bodyB dt) in
  momentum_x a + momentum_x b = momentum_x bodyA + momentum_x bodyB /\
  momentum_y a + momentum_y b = momentum_y bodyA + momentum_y bodyB /\
  momentum_z a + momentum_z b = momentum_z bodyA + momentum_z bodyB.
Proof.
  intros Ha Hb. cbv zeta. unfold momentum_x, momentum_y, momentum_z, gravity.
  cbn [fst snd mass velocity set_velocity x y z].
  repeat split; field; lra.
Qed.

Lemma capture_momentum (a b : StarData) (d dt : R) :
  0 < mass a -> 0 < mass b ->
  let a' := fst (capture a b d dt) in
  let b' := snd (capture a b d dt) in
  momentum_x a' + momentum_x b' = momentum_x a + momentum_x b /\
  momentum_y a' + momentum_y b' = momentum_y a + momentum_y b /\
  momentum_z a' + momentum_z b' = momentum_z a + momentum_z b.
Proof.
  intros Ha Hb. cbv zeta. unfold momentum_x, momentum_y, momentum_z, capture.
  cbn [fst snd mass velocity set_velocity x y z].
  repeat split; field; lra.
Qed.

Lemma forces_and_capture_momentum (bodyA bodyB : StarData) (dt : R) :
  0 < mass bodyA -> 0 < mass bodyB ->
  let a := fst (forces_and_capture bodyA bodyB dt) in
  let b := snd (forces_and_capture bodyA bodyB dt) in
  momentum_x a + momentum_x b = momentum_x bodyA + momentum_x bodyB /\
  momentum_y a + momentum_y b = momentum_y bodyA + momentum_y bodyB /\
  momentum_z a + momentum_z b = momentum_z bodyA + momentum_z bodyB.
Proof.
  intros Ha Hb. cbv zeta. unfold forces_and_capture.
  pose proof (gravity_momentum bodyA bodyB dt Ha Hb) as G. cbv zeta in G.
  destruct (gravity_frame bodyA bodyB dt) as ((_ & _ & Ma & _) & (_ & _ & Mb & _)).
  cbv zeta in Ma, Mb.
  destruct (gravity bodyA bodyB dt) as [a1 b1]. cbn [fst snd] in *.
  destruct (_ && _); [|exact G].
  assert (Ha1 : 0 < mass a1) by (rewrite Ma; exact Ha).
  assert (Hb1 : 0 < mass b1) by (rewrite Mb; exact Hb).
  pose proof (capture_momentum a1 b1 (dist bodyA bodyB) dt Ha1 Hb1) as C. cbv zeta in C.
  destruct G as (Gx & Gy & Gz). destruct C as (Cx & Cy & Cz).
  repeat split; congruence.
Qed.

Lemma merge_momentum (w l : StarData) :
  0 < mass w -> 0 < mass l ->
  momentum_x (merge w l) = momentum_x w + momentum_x l /\
  momentum_y (merge w l) = momentum_y w + momentum_y l /\
  momentum_z (merge w l) = momentum_z w + momentum_z l.
Proof.
  intros Hw Hl. unfold momentum_x, momentum_y, momentum_z, merge.
  cbn [mass velocity set_velocity set_mass set_radius x y z].
  repeat split; field; lra.
Qed.

(** Two ordinary bodies never feed: their feeding threshold is 0. *)
Lemma ordinary_pair_quiet (bodyA bodyB : StarData) (dt : R) :
  isBH bodyA = false -> isBH bodyB = false ->
  returned (pair_step bodyA bodyB dt) = false ->
  pair_step bodyA bodyB dt
  = mkPairResult (fst (forces_and_capture bodyA bodyB dt))
      (snd (forces_and_capture bodyA bodyB dt)) [] false.
Proof.
  intros Ba Bb H. rewrite pair_step_returned in H. apply Rltb_false in H.
  apply pair_step_quiet; [exact H|].
  unfold feedingThreshold. rewrite Ba, Bb. cbn [orb].
  pose proof (dist_nonneg bodyA bodyB). lra.
Qed.

Lemma pair_step_ordinary (dt : R) (bodyA bodyB : StarData) :
  ordinary bodyA -> ordinary bodyB ->
  ordinary (resA (pair_step bodyA bodyB dt)) /\
  ordinary (resB (pair_step bodyA bodyB dt)).
Proof.
  intros (Ma & Ba) (Mb & Bb).
  destruct (pair_step_static bodyA bodyB dt) as ((_ & _ & Ta & _) & (_ & _ & Tb & _)).
  assert (Ia : isBH (resA (pair_step bodyA bodyB dt)) = false)
    by (unfold isBH in *; rewrite Ta; exact Ba).
  assert (Ib : isBH (resB (pair_step bodyA bodyB dt)) = false)
    by (unfold isBH in *; rewrite Tb; exact Bb).
  unfold ordinary. rewrite Ia, Ib.
  destruct (returned (pair_step bodyA bodyB dt)) eqn:E.
  - pose proof (pair_step_merge_mass dt bodyA bodyB E) as M.
    rewrite pair_step_returned in E. apply Rltb_true in E.
    rewrite (pair_step_merge bodyA bodyB dt E) in M |- *. cbv zeta in M |- *.
    destruct (gravity_frame bodyA bodyB dt) as ((_ & _ & Ga & _) & (_ & _ & Gb & _)).
    cbv zeta in Ga, Gb.
    destruct (winnerIsB bodyA bodyB); cbn [resA resB] in M |- *;
      rewrite M, ?Ga, ?Gb; repeat split; lra.
  - destruct (pair_step_no_merge bodyA bodyB dt E) as ((Ma' & _) & (Mb' & _)).
    rewrite Ma', Mb'. auto.
Qed.

Lemma pair_step_keeps_momentum (dt : R) (bodyA bodyB : StarData) :
  ordinary bodyA -> ordinary bodyB ->
  returned (pair_step bodyA bodyB dt) = false ->
  let r := pair_step bodyA bodyB dt in
  momentum_x (resA r) + momentum_x (resB r) = momentum_x bodyA + momentum_x bodyB /\
  momentum_y (resA r) + momentum_y (resB r) = momentum_y bodyA + momentum_y bodyB /\
  momentum_z (resA r) + momentum_z (resB r) = momentum_z bodyA + momentum_z bodyB.
Proof.
  intros (Ma & Ba) (Mb & Bb) E. cbv zeta.
  rewrite (ordinary_pair_quiet bodyA bodyB dt Ba Bb E). cbn [resA resB].
  apply forces_and_capture_momentum; assumption.
Qed.

Lemma pair_step_merge_momentum (dt : R) (bodyA bodyB : StarData) :
  ordinary bodyA -> ordinary bodyB ->
  returned (pair_step bodyA bodyB dt) = true ->
  let r := pair_step bodyA bodyB dt in
  let w' := if winnerIsB bodyA bodyB then resB r else resA r in
  momentum_x w' = momentum_x bodyA + momentum_x bodyB /\
  momentum_y w' = momentum_y bodyA + momentum_y bodyB /\
  momentum_z w' = momentum_z bodyA + momentum_z bodyB.
Proof.
  intros (Ma & _) (Mb & _) E. cbv zeta.
  rewrite pair_step_returned in E. apply Rltb_true in E.
  rewrite (pair_step_merge bodyA bodyB dt E). cbv zeta.
  destruct (gravity_momentum bodyA bodyB dt Ma Mb) as (Gx & Gy & Gz).
  destruct (gravity_frame bodyA bodyB dt) as ((_ & _ & Ga & _) & (_ & _ & Gb & _)).
  cbv zeta in *.
  assert (Ha : 0 < mass (fst (gravity bodyA bodyB dt))) by (rewrite Ga; exact Ma).
  assert (Hb : 0 < mass (snd (gravity bodyA bodyB dt))) by (rewrite Gb; exact Mb).
  destruct (winnerIsB bodyA bodyB); cbn [resA resB].
  - destruct (merge_momentum _ _ Hb Ha) as (Mx & My & Mz). repeat split; lra.
  - destruct (merge_momentum _ _ Ha Hb) as (Mx & My & Mz). repeat split; lra.
Qed.

(** X3.  In a registry of bodies of positive mass, none of them compact,
    with distinct ids and at distinct positions, one frame conserves the
    total momentum in each component: gravity and the capture damping
    exchange momentum inside the pair, and a merger gives the winner the
    momentum of both bodies while the loser is removed. *)
Theorem momentum_conserved (stars : list StarData) (timeScale delta : R) :
  Forall ordinary stars -> NoDup (map id stars) -> NoDup (map position stars) ->
  total momentum_x (frame stars timeScale delta) = total momentum_x stars /\
  total momentum_y (frame stars timeScale delta) = total momentum_y stars /\
  total momentum_z (frame stars timeScale delta) = total momentum_z stars.
Proof.
  intros O N _.
  split; [|split].
  - apply (frame_conserves momentum_x ordinary); auto.
    + intros. apply pair_step_ordinary; assumption.
    + intros dt a b Oa Ob E. apply (pair_step_keeps_momentum dt a b Oa Ob E).
    + intros dt a b Oa Ob E. apply (pair_step_merge_momentum dt a b Oa Ob E).
  - apply (frame_conserves momentum_y ordinary); auto.
    + intros. apply pair_step_ordinary; assumption.
    + intros dt a b Oa Ob E. apply (pair_step_keeps_momentum dt a b Oa Ob E).
    + intros dt a b Oa Ob E. apply (pair_step_merge_momentum dt a b Oa Ob E).
  - apply (frame_conserves momentum_z ordinary); auto.
    + intros. apply pair_step_ordinary; assumption.
    + intros dt a b Oa Ob E. apply (pair_step_keeps_momentum dt a b Oa Ob E).
    + intros dt a b Oa Ob E. apply (pair_step_merge_momentum dt a b Oa Ob E).
Qed.

Lemma momentum_conserved_witness :
  total momentum_x (frame [merging_a; merging_b; bystander] 1 1)
  = total momentum_x [merging_a; merging_b; bystander].
Proof.
  apply (momentum_conserved [merging_a; merging_b; bystander] 1 1).
  - repeat constructor; cbn [mass merging_a merging_b bystander redDwarf yellowDwarf]; lra.
  - cbn [map id merging_a merging_b bystander redDwarf yellowDwarf].
    repeat constructor; cbn [In]; intuition discriminate.
  - cbn [map position merging_a merging_b bystander redDwarf yellowDwarf].
    unfold origin.
    apply NoDup_cons; [cbn [In]; intros [H|[H|[]]]; inversion H; lra|].
    apply NoDup_cons; [cbn [In]; intros [H|[]]; inversion H; lra|].
    apply NoDup_cons; [intros []|apply NoDup_nil].
Defined.

(** *** What a frame removes *)

Lemma length_filter_NoDup (wanted : string) (ids : list string) :
  NoDup ids -> In wanted ids ->
  S (length (filter (fun i => negb (String.eqb i wanted)) ids)) = length ids.
Proof.
  induction ids as [|i ids IH]; cbn [In filter length]; intros N I; [contradiction|].
  inversion N as [|? ? Ni N']; subst.
  destruct (String.eqb_spec i wanted) as [E|Ne]; cbn [negb length].
  - subst i. f_equal.
    assert (F : filter (fun i => negb (String.eqb i wanted)) ids = ids).
    { clear IH N N' I. induction ids as [|j ids IHj]; [reflexivity|].
      cbn [filter]. destruct (String.eqb_spec j wanted) as [E|_].
      - exfalso. apply Ni. left. exact E.
      - cbn [negb]. rewrite IHj; [reflexivity|]. intros I. apply Ni. right. exact I. }
    rewrite F. reflexivity.
  - destruct I as [I|I]; [contradiction|]. rewrite IH by assumption. reflexivity.
Qed.

(** X4.  In a registry with distinct ids, a frame fires transfers and then
    at most one merger, and it removes at most one body: either only
    transfers were fired and the registry holds the same ids in the same
    order, or the last callback is the one merger, between two different
    bodies of the registry, and the registry holds the same ids in the
    same order but for the loser, so one body fewer. *)
Theorem frame_removes_only_the_loser (stars : list StarData) (timeScale delta : R) :
  NoDup (map id stars) ->
  (forallb is_transfer (snd (tick stars timeScale delta)) = true /\
   map id (frame stars timeScale delta) = map id stars) \/
  (exists pre w l,
     snd (tick stars timeScale delta) = pre ++ [onMerger w l] /\
     forallb is_transfer pre = true /\
     In w (map id stars) /\ In l (map id stars) /\ w <> l /\
     map id (frame stars timeScale delta)
     = filter (fun i => negb (String.eqb i l)) (map id stars) /\
     S (length (frame stars timeScale delta)) = length stars).
Proof.
  intros N.
  destruct (frame_shape mass (fun _ => True)) with (stars := stars)
    (timeScale := timeScale) (delta := delta) as (_ & _ & _ & [H|H]); auto.
  - intros dt bodyA bodyB _ _. apply pair_step_keeps_mass.
  - intros dt bodyA bodyB _ _. apply pair_step_merge_mass.
  - apply Forall_forall. auto.
  - right. destruct H as (pre & w & l & E & T & Iw & Il & Nwl & Im).
    exists pre, w, l. rewrite map_id_without in Im.
    repeat (split; [assumption|]).
    rewrite <- (length_map id (frame stars timeScale delta)), Im.
    rewrite <- (length_map id stars). apply length_filter_NoDup; assumption.
Qed.

Lemma frame_removes_only_the_loser_witness :
  (forallb is_transfer (snd (tick [merging_a; merging_b; bystander] 1 1)) = true /\
   map id (frame [merging_a; merging_b; bystander] 1 1)
   = map id [merging_a; merging_b; bystander]) \/
  (exists pre w l,
     snd (tick [merging_a; merging_b; bystander] 1 1) = pre ++ [onMerger w l] /\
     forallb is_transfer pre = true /\
     In w (map id [merging_a; merging_b; bystander]) /\
     In l (map id [merging_a; merging_b; bystander]) /\ w <> l /\
     map id (frame [merging_a; merging_b; bystander] 1 1)
     = filter (fun i => negb (String.eqb i l)) (map id [merging_a; merging_b; bystander]) /\
     S (length (frame [merging_a; merging_b; bystander] 1 1))
     = length [merging_a; merging_b; bystander]).
Proof.
  apply (frame_removes_only_the_loser [merging_a; merging_b; bystander] 1 1).
  cbn [map id merging_a merging_b bystander redDwarf yellowDwarf].
  repeat constructor; cbn [In]; intuition discriminate.
Defined.

(** *** Age, identity and type *)

Lemma Forall2_ages_map (l l' : list StarData) :
  Forall2 (fun s s' => position s' = position s /\ age s' = age s /\ id s' = id s) l l' ->
  map age l' = map age l /\ map id l' = map id l.
Proof.
  intros F. induction F as [|s s' l l' (_ & A & I) _ (IHa & IHi)]; cbn [map]; [auto|].
  rewrite A, I, IHa, IHi. auto.
Qed.

Lemma update_position_ages (dt : R) (stars : list StarData) :
  map age (map (update_position dt) stars) = map age stars.
Proof. rewrite map_map. apply map_ext. reflexivity. Qed.

(** X5.  A tick with dt > 0 adds 10 dt to the age of every body, also
    when a merger cuts the tick short; a tick with dt <= 0 (pause or
    rewind) leaves every age as it is. *)
Theorem tick_ages (stars : list StarData) (timeScale delta : R) :
  (0 < delta * timeScale ->
   map age (fst (tick stars timeScale delta))
   = map (fun s => age s + delta * timeScale * 10) stars) /\
  (delta * timeScale <= 0 ->
   map age (fst (tick stars timeScale delta)) = map age stars).
Proof.
  unfold tick. split; intros H.
  - decide_R.
    destruct (Forall2_ages_map _ _ (pair_loops_positions
                (map (update_age (delta * timeScale)) stars) (delta * timeScale)))
      as (A & _).
    assert (E : map age (map (update_age (delta * timeScale)) stars)
                = map (fun s => age s + delta * timeScale * 10) stars)
      by (rewrite map_map; apply map_ext; reflexivity).
    destruct (stopped _); cbn [fst].
    + rewrite A. exact E.
    + rewrite update_position_ages, A. exact E.
  - destruct (Reqb (delta * timeScale) 0); [reflexivity|]. decide_R.
    destruct (Forall2_ages_map _ _ (pair_loops_positions stars (delta * timeScale)))
      as (A & _).
    destruct (stopped _); cbn [fst]; [exact A|].
    rewrite update_position_ages. exact A.
Qed.

Lemma tick_ages_witness :
  map age (fst (tick [feeding_hole; feeding_dwarf] 1 1))
  = map (fun s => age s + 1 * 1 * 10) [feeding_hole; feeding_dwarf].
Proof.
  apply (tick_ages [feeding_hole; feeding_dwarf] 1 1). lra.
Defined.

Lemma tick_ids_types (stars : list StarData) (timeScale delta : R) :
  map id (fst (tick stars timeScale delta)) = map id stars /\
  map type (fst (tick stars timeScale delta)) = map type stars.
Proof.
  assert (F : Forall2 (fun s s' => id s' = id s /\ type s' = type s) stars
                (fst (tick stars timeScale delta))).
  { unfold tick. destruct (Reqb _ _); cbn [fst]; [apply Forall2_same; auto|].
    set (dt := delta * timeScale).
    assert (A : Forall2 (fun s s' => id s' = id s /\ type s' = type s) stars
                  (if Rgtb dt 0 then map (update_age dt) stars else stars)).
    { destruct (Rgtb dt 0); [apply Forall2_map_same | apply Forall2_same]; auto. }
    assert (L : Forall2 (fun s s' => id s' = id s /\ type s' = type s) stars
                  (bodies (pair_loops
                     (if Rgtb dt 0 then map (update_age dt) stars else stars) dt))).
    { eapply Forall2_compose; [|exact A|].
      - intros a b c (I1 & T1) (I2 & T2). split; congruence.
      - apply (pair_loops_invariant _ false dt).
        + auto.
        + intros a b c (I1 & T1) (I2 & T2). split; congruence.
        + intros bodyA bodyB _.
          destruct (pair_step_static bodyA bodyB dt)
            as ((Ia & _ & Ta & _) & (Ib & _ & Tb & _)). auto.
        + intros H. discriminate H. }
    destruct (stopped _); cbn [fst]; [exact L|].
    apply Forall2_map_r; [|exact L]. intros a b (I & T). auto. }
  induction F as [|s s' l l' (I & T) _ (IHi & IHt)]; cbn [map]; [auto|].
  rewrite I, T, IHi, IHt. auto.
Qed.

(** X6.  Identity and type are never rewritten: a tick returns the bodies
    in the same order with the same ids and the same types, and after any
    number of frames every body of the registry has the id and the type of
    a body that was there at the start. *)
Theorem ids_and_types_stable (stars : list StarData) (timeScale : R) :
  (forall delta,
     map id (fst (tick stars timeScale delta)) = map id stars /\
     map type (fst (tick stars timeScale delta)) = map type stars) /\
  (forall deltas,
     Forall (fun s' => exists s, In s stars /\ id s' = id s /\ type s' = type s)
       (run timeScale deltas stars)).
Proof.
  split; [intros delta; apply tick_ids_types|].
  intros deltas.
  assert (S : Forall (fun s' => exists s, In s stars /\ id s' = id s /\ type s' = type s)
                stars).
  { apply Forall_forall. intros s I. exists s. auto. }
  revert S. apply run_Forall.
  - intros dt bodyA bodyB (a & Ia & Ea & Ta) (b & Ib & Eb & Tb).
    destruct (pair_step_static bodyA bodyB dt)
      as ((Ia' & _ & Ta' & _) & (Ib' & _ & Tb' & _)).
    split; [exists a | exists b]; repeat split; congruence.
  - intros dt s H. exact H.
  - intros dt s H. exact H.
  - intros c s H. exact H.
Qed.

(** *** Bodies that are not compact *)

Section GuardedInvariant.

(** A property [P] of the bodies kept by the pair interaction, a relation
    [Rel] between a body and the same body later that the interaction
    respects on bodies with [P], and a property [C] of the callbacks it
    fires on such bodies, hold of the loops. *)
Variable P : StarData -> Prop.
Variable Rel : StarData -> StarData -> Prop.
Variable C : Event -> Prop.
Variable dt : R.

Hypothesis Rel_refl : forall s, Rel s s.
Hypothesis Rel_trans : forall s1 s2 s3, Rel s1 s2 -> Rel s2 s3 -> Rel s1 s3.
Hypothesis step : forall bodyA bodyB, P bodyA -> P bodyB ->
  (P (resA (pair_step bodyA bodyB dt)) /\ P (resB (pair_step bodyA bodyB dt))) /\
  (Rel bodyA (resA (pair_step bodyA bodyB dt)) /\
   Rel bodyB (resB (pair_step bodyA bodyB dt))) /\
  Forall C (fired (pair_step bodyA bodyB dt)).

Lemma inner_loop_guarded (rest : list StarData) (bodyA : StarData) :
  P bodyA -> Forall P rest ->
  (P (innerA (inner_loop bodyA rest dt)) /\ Forall P (innerRest (inner_loop bodyA rest dt))) /\
  (Rel bodyA (innerA (inner_loop bodyA rest dt)) /\
   Forall2 Rel rest (innerRest (inner_loop bodyA rest dt))) /\
  Forall C (innerCalls (inner_loop bodyA rest dt)).
Proof.
  revert bodyA. induction rest as [|bodyB rest IH]; intros bodyA Pa Pr; cbn [inner_loop].
  - cbn [innerA innerRest innerCalls]. auto.
  - inversion Pr as [|? ? Pb Pr']; subst.
    destruct (step bodyA bodyB Pa Pb) as ((Pa' & Pb') & (Ra & Rb) & Cs).
    destruct (returned (pair_step bodyA bodyB dt)); cbn [innerA innerRest innerCalls].
    + repeat split; auto. constructor; [exact Rb | apply Forall2_same, Rel_refl].
    + destruct (IH _ Pa' Pr') as ((Pk & Pkr) & (Rk & Rkr) & Ck).
      repeat split; auto.
      * eapply Rel_trans; eassumption.
      * apply Forall_app. auto.
Qed.

Lemma outer_loop_guarded (n : nat) (stars : list StarData) :
  Forall P stars ->
  Forall P (bodies (outer_loop n stars dt)) /\
  Forall2 Rel stars (bodies (outer_loop n stars dt)) /\
  Forall C (calls (outer_loop n stars dt)).
Proof.
  revert stars. induction n as [|n IH]; intros stars Ps.
  - destruct stars; cbn [outer_loop bodies calls]; repeat split; auto;
      apply Forall2_same, Rel_refl.
  - destruct stars as [|bodyA rest]; cbn [outer_loop].
    + cbn [bodies calls]. auto.
    + inversion Ps as [|? ? Pa Pr]; subst.
      destruct (inner_loop_guarded rest bodyA Pa Pr) as ((Pk & Pkr) & (Rk & Rkr) & Ck).
      destruct (innerStopped _); cbn [bodies calls].
      * auto.
      * destruct (IH _ Pkr) as (Pk' & Rk' & Ck').
        repeat split; auto.
        -- constructor; [exact Rk|].
           eapply Forall2_compose; [exact Rel_trans | exact Rkr | exact Rk'].
        -- apply Forall_app. auto.
Qed.

End GuardedInvariant.

(** Two bodies that are not compact: the interaction fires no transfer
    and touches no feeding flag. *)
Lemma pair_step_not_compact (dt : R) (bodyA bodyB : StarData) :
  isBH bodyA = false -> isBH bodyB = false ->
  let r := pair_step bodyA bodyB dt in
  (isBH (resA r) = false /\ isBH (resB r) = false) /\
  ((consumedBy (resA r) = consumedBy bodyA /\ isShredding (resA r) = isShredding bodyA) /\
   (consumedBy (resB r) = consumedBy bodyB /\ isShredding (resB r) = isShredding bodyB)) /\
  Forall (fun e => is_transfer e = false) (fired r).
Proof.
  intros Ba Bb. cbv zeta.
  destruct (pair_step_static bodyA bodyB dt) as ((_ & _ & Ta & _) & (_ & _ & Tb & _)).
  split; [unfold isBH in *; rewrite Ta, Tb; auto|].
  destruct (returned (pair_step bodyA bodyB dt)) eqn:E.
  - rewrite pair_step_returned in E. apply Rltb_true in E.
    rewrite (pair_step_merge bodyA bodyB dt E). cbv zeta.
    destruct (winnerIsB bodyA bodyB); cbn [resA resB fired];
      (split; [unfold merge, gravity; cbn; auto | repeat constructor]).
  - rewrite (ordinary_pair_quiet bodyA bodyB dt Ba Bb E). cbn [resA resB fired].
    destruct (forces_and_capture_fields bodyA bodyB dt)
      as ((_ & _ & _ & _ & _ & Ca & Sa) & (_ & _ & _ & _ & _ & Cb & Sb)).
    cbv zeta in *. auto.
Qed.

(** X7.  Bodies that are not compact never feed on each other: in a
    registry without a black hole or quasar a tick fires no
    [onMassTransfer], whatever the distances, and leaves [consumedBy] and
    [isShredding] of every body as they were. *)
Theorem no_feeding_without_compact (stars : list StarData) (timeScale delta : R) :
  Forall (fun s => isBH s = false) stars ->
  Forall (fun e => is_transfer e = false) (snd (tick stars timeScale delta)) /\
  map consumedBy (fst (tick stars timeScale delta)) = map consumedBy stars /\
  map isShredding (fst (tick stars timeScale delta)) = map isShredding stars.
Proof.
  intros B.
  set (Rel := fun s s' : StarData =>
                consumedBy s' = consumedBy s /\ isShredding s' = isShredding s).
  assert (Rr : forall s, Rel s s) by (unfold Rel; auto).
  assert (Rt : forall a b c, Rel a b -> Rel b c -> Rel a c)
    by (unfold Rel; intros a b c (C1 & S1) (C2 & S2); split; congruence).
  assert (M : forall l l', Forall2 Rel l l' ->
                           map consumedBy l' = map consumedBy l /\
                           map isShredding l' = map isShredding l).
  { intros l l' F. induction F as [|s s' l l' (Cs & Ss) _ (IHc & IHs)]; cbn [map]; [auto|].
    rewrite Cs, Ss, IHc, IHs. auto. }
  assert (T : Forall (fun e => is_transfer e = false) (snd (tick stars timeScale delta)) /\
              Forall2 Rel stars (fst (tick stars timeScale delta))).
  { unfold tick. destruct (Reqb _ _); cbn [fst snd]; [split; [constructor|]|].
    { apply Forall2_same, Rr. }
    set (dt := delta * timeScale).
    set (aged := if Rgtb dt 0 then map (update_age dt) stars else stars).
    assert (A : Forall2 Rel stars aged).
    { unfold aged. destruct (Rgtb dt 0); [apply Forall2_map_same | apply Forall2_same];
        unfold Rel; auto. }
    assert (Ba : Forall (fun s => isBH s = false) aged).
    { unfold aged. destruct (Rgtb dt 0); [|exact B].
      apply Forall_forall. intros s I. apply in_map_iff in I.
      destruct I as (s0 & <- & I0). rewrite Forall_forall in B. exact (B s0 I0). }
    destruct (outer_loop_guarded (fun s => isBH s = false) Rel
                (fun e => is_transfer e = false) dt Rr Rt
                (fun a b Pa Pb => pair_step_not_compact dt a b Pa Pb)
                (length aged) aged Ba) as (_ & L & Cc).
    fold (pair_loops aged dt) in L, Cc.
    pose proof (Forall2_compose _ _ _ _ Rt A L) as AL.
    destruct (stopped _); cbn [fst snd]; (split; [exact Cc|]); [exact AL|].
    apply Forall2_map_r; [|exact AL]. unfold Rel. intros a b H. exact H. }
  destruct T as (Tc & Tf). split; [exact Tc|]. apply M, Tf.
Qed.

Lemma no_feeding_without_compact_witness :
  Forall (fun e => is_transfer e = false)
    (snd (tick [merging_a; merging_b; bystander] 1 1)).
Proof.
  apply (no_feeding_without_compact [merging_a; merging_b; bystander] 1 1).
  repeat constructor.
Defined.

(** *** Orbital capture *)

Lemma capture_relative_velocity (a b : StarData) (d dt : R) :
  mass a + mass b <> 0 ->
  let a' := fst (capture a b d dt) in
  let b' := snd (capture a b d dt) in
  relVx a' b' = (1 - damping a b d dt) * relVx a b /\
  relVy a' b' = (1 - damping a b d dt) * relVy a b /\
  relVz a' b' = (1 - damping a b d dt) * relVz a b.
Proof.
  intros H. cbv zeta. unfold capture, relVx, relVy, relVz.
  cbn [fst snd velocity set_velocity x y z].
  repeat split; field; exact H.
Qed.

(** X8.  For two bodies of positive mass that are not compact, strictly
    between the merge threshold and the capture radius, the pair
    interaction is gravity followed by the capture damping: the relative
    velocity that gravity leaves is scaled by 1 - damping in each
    component, where damping is 0.1 dt when the bodies are separating
    (positive radial velocity) and 0.005 dt otherwise, and the momentum of
    the pair is unchanged.  For 0 < dt < 10 the factor lies in [0, 1). *)
Theorem capture_damps_relative_velocity (bodyA bodyB : StarData) (dt : R) :
  ordinary bodyA -> ordinary bodyB ->
  mergeThreshold bodyA bodyB < dist bodyA bodyB ->
  dist bodyA bodyB < captureRadius bodyA bodyB ->
  let g := gravity bodyA bodyB dt in
  let r := pair_step bodyA bodyB dt in
  let k := damping (fst g) (snd g) (dist bodyA bodyB) dt in
  relVx (resA r) (resB r) = (1 - k) * relVx (fst g) (snd g) /\
  relVy (resA r) (resB r) = (1 - k) * relVy (fst g) (snd g) /\
  relVz (resA r) (resB r) = (1 - k) * relVz (fst g) (snd g) /\
  (radialVel (fst g) (snd g) (dist bodyA bodyB) > 0 -> k = 0.1 * dt) /\
  (radialVel (fst g) (snd g) (dist bodyA bodyB) <= 0 -> k = 0.005 * dt) /\
  (0 < dt < 10 -> 0 <= 1 - k < 1) /\
  momentum_x (resA r) + momentum_x (resB r) = momentum_x bodyA + momentum_x bodyB /\
  momentum_y (resA r) + momentum_y (resB r) = momentum_y bodyA + momentum_y bodyB /\
  momentum_z (resA r) + momentum_z (resB r) = momentum_z bodyA + momentum_z bodyB.
Proof.
  intros (Ma & Ba) (Mb & Bb) Hm Hc. cbv zeta.
  assert (E : returned (pair_step bodyA bodyB dt) = false).
  { rewrite pair_step_returned. apply Rltb_false. lra. }
  pose proof (pair_step_keeps_momentum dt bodyA bodyB (conj Ma Ba) (conj Mb Bb) E) as Mo.
  cbv zeta in Mo.
  rewrite (ordinary_pair_quiet bodyA bodyB dt Ba Bb E) in Mo |- *. cbn [resA resB] in Mo |- *.
  unfold forces_and_capture in Mo |- *.
  destruct (gravity_frame bodyA bodyB dt) as ((_ & _ & Ga & _) & (_ & _ & Gb & _)).
  cbv zeta in Ga, Gb.
  destruct (gravity bodyA bodyB dt) as [a1 b1]. cbn [fst snd] in *.
  replace (Rltb (dist bodyA bodyB) (captureRadius bodyA bodyB)) with true in Mo |- *
    by (symmetry; apply Rltb_true; exact Hc).
  replace (Rgtb (dist bodyA bodyB) (mergeThreshold bodyA bodyB)) with true in Mo |- *
    by (symmetry; apply Rgtb_true; lra).
  cbn [andb] in Mo |- *.
  assert (N : mass a1 + mass b1 <> 0) by (rewrite Ga, Gb; lra).
  destruct (capture_relative_velocity a1 b1 (dist bodyA bodyB) dt N) as (Vx & Vy & Vz).
  split; [exact Vx|]. split; [exact Vy|]. split; [exact Vz|].
  unfold damping.
  split; [intros H; replace (Rgtb _ 0) with true by (symmetry; apply Rgtb_true; exact H);
          reflexivity|].
  split; [intros H; replace (Rgtb _ 0) with false by (symmetry; apply Rgtb_false; exact H);
          reflexivity|].
  split; [|exact Mo].
  intros D. destruct (Rgtb _ 0); lra.
Qed.

Lemma capture_damps_relative_velocity_witness :
  let bodyA := redDwarf "a" 20 origin origin in
  let bodyB := redDwarf "b" 25 (mkPosition 5 0 0) (mkPosition 1 0 0) in
  let g := gravity bodyA bodyB 1 in
  let r := pair_step bodyA bodyB 1 in
  relVx (resA r) (resB r)
  = (1 - damping (fst g) (snd g) (dist bodyA bodyB) 1) * relVx (fst g) (snd g).
Proof.
  cbv zeta.
  apply (capture_damps_relative_velocity (redDwarf "a" 20 origin origin)
           (redDwarf "b" 25 (mkPosition 5 0 0) (mkPosition 1 0 0)) 1).
  - split; [cbn [mass redDwarf]; lra | reflexivity].
  - split; [cbn [mass redDwarf]; lra | reflexivity].
  - rewrite dist_along_x; unfold mergeThreshold, combinedRadius;
      cbn [position radius x y z redDwarf origin]; lra.
  - rewrite dist_along_x; unfold captureRadius, combinedRadius;
      cbn [position radius x y z redDwarf origin]; lra.
Defined.

(** *** Symmetry of the interaction *)

(** X9.  Swapping the two bodies of a pair changes neither the distance
    nor the three thresholds, nor whether the pair merges.  The choice of
    predator is the same both ways round when exactly one body is compact,
    and when neither is compact and the masses differ; when both are
    compact, or neither is and the masses are equal, each order makes its
    own first body the predator. *)
Theorem interaction_symmetry (bodyA bodyB : StarData) (dt : R) :
  dist bodyB bodyA = dist bodyA bodyB /\
  mergeThreshold bodyB bodyA = mergeThreshold bodyA bodyB /\
  captureRadius bodyB bodyA = captureRadius bodyA bodyB /\
  feedingThreshold bodyB bodyA = feedingThreshold bodyA bodyB /\
  returned (pair_step bodyB bodyA dt) = returned (pair_step bodyA bodyB dt) /\
  (xorb (isBH bodyA) (isBH bodyB) = true ->
   winner bodyB bodyA = winner bodyA bodyB /\ loser bodyB bodyA = loser bodyA bodyB) /\
  (isBH bodyA = false -> isBH bodyB = false -> mass bodyA <> mass bodyB ->
   winner bodyB bodyA = winner bodyA bodyB /\ loser bodyB bodyA = loser bodyA bodyB) /\
  (isBH bodyA = true -> isBH bodyB = true ->
   winner bodyA bodyB = bodyA /\ winner bodyB bodyA = bodyB) /\
  (isBH bodyA = false -> isBH bodyB = false -> mass bodyA = mass bodyB ->
   winner bodyA bodyB = bodyA /\ winner bodyB bodyA = bodyB).
Proof.
  destruct (geometry_symmetric bodyA bodyB) as (D & M & C & F).
  split; [exact D|]. split; [exact M|]. split; [exact C|]. split; [exact F|].
  split; [rewrite !pair_step_returned, D, M; reflexivity|].
  unfold winner, loser. rewrite !winnerIsB_eq.
  split; [|split; [|split]].
  - destruct (isBH bodyA), (isBH bodyB); cbn; intros H; try discriminate H; auto.
  - intros Ba Bb N. rewrite Ba, Bb. cbn [negb andb orb].
    destruct (Rtotal_order (mass bodyA) (mass bodyB)) as [L|[E|G]]; [|contradiction|].
    + replace (Rgtb (mass bodyA) (mass bodyB)) with false
        by (symmetry; apply Rgtb_false; lra).
      replace (Rgtb (mass bodyB) (mass bodyA)) with true
        by (symmetry; apply Rgtb_true; lra). auto.
    + replace (Rgtb (mass bodyA) (mass bodyB)) with true
        by (symmetry; apply Rgtb_true; lra).
      replace (Rgtb (mass bodyB) (mass bodyA)) with false
        by (symmetry; apply Rgtb_false; lra). auto.
  - intros Ba Bb. rewrite Ba, Bb. auto.
  - intros Ba Bb E. rewrite Ba, Bb, E. cbn [negb andb orb].
    replace (Rgtb (mass bodyB) (mass bodyB)) with false
      by (symmetry; apply Rgtb_false; lra). auto.
Qed.

Lemma interaction_symmetry_witness :
  winner feeding_dwarf feeding_hole = winner feeding_hole feeding_dwarf.
Proof.
  destruct (interaction_symmetry feeding_hole feeding_dwarf 1)
    as (_ & _ & _ & _ & _ & H & _).
  destruct (H eq_refl) as (W & _). exact W.
Defined.

(** *** The radius of a merged body *)

(** X10.  A merger of two bodies of positive radius leaves a winner that
    is larger than either of them and smaller than their two radii put
    together. *)
Theorem merged_radius_bounds (w l : StarData) :
  0 < radius w -> 0 < radius l ->
  radius w < radius (merge w l) /\ radius l < radius (merge w l) /\
  radius (merge w l) < radius w + radius l.
Proof.
  intros Rw Rl. pose proof (merge_radius w l Rw Rl) as E.
  assert (P : 0 < radius (merge w l)).
  { unfold merge. cbn [radius set_radius set_mass set_velocity].
    apply Math_pow_positive. rewrite !Math_pow_3 by assumption.
    assert (0 < radius w ^ 3) by (apply pow_lt; assumption).
    assert (0 < radius l ^ 3) by (apply pow_lt; assumption). lra. }
  set (r := radius (merge w l)) in *.
  assert (Hw : 0 < radius w ^ 3) by (apply pow_lt; assumption).
  assert (Hl : 0 < radius l ^ 3) by (apply pow_lt; assumption).
  split; [|split].
  - destruct (Rlt_le_dec (radius w) r) as [L|G]; [exact L|].
    assert (r ^ 3 <= radius w ^ 3) by (apply pow_incr; lra). lra.
  - destruct (Rlt_le_dec (radius l) r) as [L|G]; [exact L|].
    assert (r ^ 3 <= radius l ^ 3) by (apply pow_incr; lra). lra.
  - destruct (Rlt_le_dec r (radius w + radius l)) as [L|G]; [exact L|].
    assert (X : (radius w + radius l) ^ 3 <= r ^ 3) by (apply pow_incr; lra).
    assert (Y : (radius w + radius l) ^ 3
                = radius w ^ 3 + radius l ^ 3
                  + 3 * radius w * radius l * (radius w + radius l)) by ring.
    assert (0 < 3 * radius w * radius l * (radius w + radius l)).
    { apply Rmult_lt_0_compat; [|lra].
      apply Rmult_lt_0_compat; [|lra]. lra. }
    lra.
Qed.

Lemma merged_radius_bounds_witness :
  radius merging_b < radius (merge merging_b merging_a).
Proof.
  apply (merged_radius_bounds merging_b merging_a);
    cbn [radius merging_a merging_b redDwarf]; lra.
Defined.

(** ** Further properties of the registry handlers *)

Lemma has_id_without (wanted loserId : string) (stars : list StarData) :
  wanted <> loserId -> has_id wanted (without loserId stars) = has_id wanted stars.
Proof.
  intros N. induction stars as [|s stars IH]; [reflexivity|].
  rewrite without_cons. unfold has_id in *. cbn [existsb].
  destruct (String.eqb_spec (id s) loserId) as [E|_].
  - rewrite IH. destruct (String.eqb_spec (id s) wanted) as [E'|_]; [congruence|reflexivity].
  - cbn [existsb]. rewrite IH. reflexivity.
Qed.

Lemma has_id_without_self (loserId : string) (stars : list StarData) :
  has_id loserId (without loserId stars) = false.
Proof.
  induction stars as [|s stars IH]; [reflexivity|].
  rewrite without_cons. destruct (String.eqb (id s) loserId) eqn:E; [exact IH|].
  unfold has_id in *. cbn [existsb]. rewrite E, IH. reflexivity.
Qed.

Lemma handleMerger_eq (winnerId loserId : string) (stars : list StarData) :
  handleMerger winnerId loserId stars
  = if has_id winnerId stars && has_id loserId stars then without loserId stars else stars.
Proof. reflexivity. Qed.

(** X11.  [handleMerger] does nothing when the winner or the loser is not
    in the registry, and doing it twice is the same as doing it once.
    When both are there, with different ids, in a registry with distinct
    ids, it removes exactly one body and the winner is still there. *)
Theorem handleMerger_edges (winnerId loserId : string) (stars : list StarData) :
  (has_id winnerId stars = false \/ has_id loserId stars = false ->
   handleMerger winnerId loserId stars = stars) /\
  handleMerger winnerId loserId (handleMerger winnerId loserId stars)
  = handleMerger winnerId loserId stars /\
  (NoDup (map id stars) -> has_id winnerId stars = true -> has_id loserId stars = true ->
   winnerId <> loserId ->
   S (length (handleMerger winnerId loserId stars)) = length stars /\
   has_id winnerId (handleMerger winnerId loserId stars) = true /\
   has_id loserId (handleMerger winnerId loserId stars) = false).
Proof.
  rewrite !handleMerger_eq. split; [|split].
  - intros [H|H]; rewrite H; rewrite ?andb_false_r; reflexivity.
  - destruct (has_id winnerId stars && has_id loserId stars) eqn:E.
    + rewrite has_id_without_self, andb_false_r. reflexivity.
    + rewrite E. reflexivity.
  - intros N Hw Hl Nwl. rewrite Hw, Hl. cbn [andb].
    split; [|split].
    + rewrite <- (length_map id (without loserId stars)), map_id_without.
      rewrite <- (length_map id stars). apply length_filter_NoDup; [exact N|].
      apply has_id_In in Hl. destruct Hl as (s & I & E). subst loserId.
      apply in_map, I.
    + rewrite has_id_without by exact Nwl. exact Hw.
    + apply has_id_without_self.
Qed.

Lemma handleMerger_edges_witness :
  S (length (handleMerger "bh1" "bh2" [third_body; survivor_hole; removed_hole]))
  = length [third_body; survivor_hole; removed_hole].
Proof.
  destruct (handleMerger_edges "bh1" "bh2" [third_body; survivor_hole; removed_hole])
    as (_ & _ & H).
  apply H.
  - cbn [map id third_body survivor_hole removed_hole yellowDwarf blackHole].
    apply NoDup_cons; [cbn [In]; intros [X|[X|[]]]; discriminate X|].
    apply NoDup_cons; [cbn [In]; intros [X|[]]; discriminate X|].
    apply NoDup_cons; [intros []|apply NoDup_nil].
  - reflexivity.
  - reflexivity.
  - discriminate.
Defined.

Lemma findIndex_assign (wanted : string) (i : nat) (s v : StarData)
    (stars : list StarData) :
  nth_error stars i = Some s -> id v = id s ->
  findIndex wanted (assign i v stars) = findIndex wanted stars.
Proof.
  revert i. induction stars as [|t rest IH]; intros i E Ev; [destruct i; discriminate E|].
  destruct i as [|i]; cbn [assign nth_error findIndex] in *.
  - inversion E; subst t. rewrite Ev. reflexivity.
  - rewrite (IH i E Ev). reflexivity.
Qed.

Lemma nth_error_assign (i : nat) (v : StarData) (stars : list StarData) :
  (i < length stars)%nat -> nth_error (assign i v stars) i = Some v.
Proof.
  revert i. induction stars as [|t rest IH]; intros i H; cbn [length] in H; [lia|].
  destruct i as [|i]; cbn [assign nth_error]; [reflexivity|]. apply IH. lia.
Qed.

(** X12.  [handleMassTransfer] moves no mass: it ignores the amount, and
    every body comes out either as it was or with the two feeding flags
    set ([consumedBy] to the target, [isShredding] to true) and nothing
    else changed.  It does nothing when the source or the target is not
    in the registry or the source is shredding already, and doing it
    twice is the same as doing it once. *)
Theorem handleMassTransfer_moves_no_mass (sourceId targetId : string) (amount : R)
    (stars : list StarData) :
  (forall other, handleMassTransfer sourceId targetId other stars
                 = handleMassTransfer sourceId targetId amount stars) /\
  Forall2 (fun s s' => s' = s \/
                       s' = set_isShredding true (set_consumedBy (Some targetId) s))
    stars (handleMassTransfer sourceId targetId amount stars) /\
  map mass (handleMassTransfer sourceId targetId amount stars) = map mass stars /\
  (has_id sourceId stars = false \/ has_id targetId stars = false ->
   handleMassTransfer sourceId targetId amount stars = stars) /\
  (forall s, find_star sourceId stars = Some s -> isShredding s = true ->
             handleMassTransfer sourceId targetId amount stars = stars) /\
  handleMassTransfer sourceId targetId amount
    (handleMassTransfer sourceId targetId amount stars)
  = handleMassTransfer sourceId targetId amount stars.
Proof.
  assert (FI : forall wanted l, has_id wanted l = false -> findIndex wanted l = None).
  { intros wanted l. unfold has_id. induction l as [|s l IH]; cbn [existsb findIndex];
      [reflexivity|].
    destruct (String.eqb (id s) wanted); cbn [orb]; [discriminate|].
    intros H. rewrite (IH H). reflexivity. }
  assert (FS : forall wanted l i s, findIndex wanted l = Some i ->
                                    nth_error l i = Some s -> find_star wanted l = Some s).
  { intros wanted l. unfold find_star. induction l as [|t l IH]; cbn [findIndex find];
      intros i s Ei En; [discriminate Ei|].
    destruct (String.eqb (id t) wanted).
    - inversion Ei; subst i. exact En.
    - destruct (findIndex wanted l) as [j|] eqn:Ej; [|discriminate Ei].
      inversion Ei; subst i. cbn [nth_error] in En. exact (IH j s eq_refl En). }
  assert (F2 : Forall2 (fun s s' => s' = s \/
                  s' = set_isShredding true (set_consumedBy (Some targetId) s))
                 stars (handleMassTransfer sourceId targetId amount stars)).
  { unfold handleMassTransfer.
    destruct (findIndex sourceId stars) as [i|]; [|apply Forall2_same; auto].
    destruct (findIndex targetId stars); [|apply Forall2_same; auto].
    destruct (nth_error stars i) as [s|] eqn:E; [|apply Forall2_same; auto].
    destruct (negb (isShredding s)); [|apply Forall2_same; auto].
    apply (assign_Forall2 _ stars i s); auto. }
  split; [reflexivity|]. split; [exact F2|].
  split.
  { induction F2 as [|s s' l l' [E|E] _ IH]; cbn [map]; [reflexivity| |];
      rewrite E, IH; reflexivity. }
  split.
  { unfold handleMassTransfer. intros [H|H]; rewrite (FI _ _ H); [reflexivity|].
    destruct (findIndex sourceId stars); reflexivity. }
  split.
  { intros s Fs Sh. unfold handleMassTransfer.
    destruct (findIndex sourceId stars) as [i|] eqn:Ei; [|reflexivity].
    destruct (findIndex targetId stars); [|reflexivity].
    destruct (nth_error stars i) as [t|] eqn:En; [|reflexivity].
    rewrite (FS _ _ _ _ Ei En) in Fs. inversion Fs; subst t. rewrite Sh. reflexivity. }
  unfold handleMassTransfer at 2.
  destruct (findIndex sourceId stars) as [i|] eqn:Ei; [|rewrite handleMassTransfer_marked;
    [reflexivity | intros j s Ej; rewrite Ei in Ej; discriminate Ej]].
  destruct (findIndex targetId stars) as [j|] eqn:Ej;
    [|unfold handleMassTransfer; rewrite Ei, Ej; reflexivity].
  destruct (nth_error stars i) as [s|] eqn:En;
    [|unfold handleMassTransfer; rewrite Ei, Ej, En; reflexivity].
  destruct (isShredding s) eqn:Sh; cbn [negb].
  - unfold handleMassTransfer. rewrite Ei, Ej, En, Sh. reflexivity.
  - assert (L : (i < length stars)%nat) by (apply nth_error_Some; rewrite En; discriminate).
    unfold handleMassTransfer.
    rewrite !(findIndex_assign _ i s) by (assumption || reflexivity).
    rewrite Ei, Ej, nth_error_assign by exact L. rewrite En, Sh. reflexivity.
Qed.

Lemma handleMassTransfer_moves_no_mass_witness :
  handleMassTransfer "nobody" "hole" 1 [feeding_hole; feeding_dwarf]
  = [feeding_hole; feeding_dwarf].
Proof.
  destruct (handleMassTransfer_moves_no_mass "nobody" "hole" 1 [feeding_hole; feeding_dwarf])
    as (_ & _ & _ & H & _).
  apply H. left. reflexivity.
Defined.

(** *** The predator as the renderer sees it *)

Lemma find_star_without (wanted loserId : string) (stars : list StarData) :
  wanted <> loserId -> find_star wanted (without loserId stars) = find_star wanted stars.
Proof.
  intros N. unfold find_star. induction stars as [|s stars IH]; [reflexivity|].
  rewrite without_cons. cbn [find].
  destruct (String.eqb_spec (id s) loserId) as [E|_].
  - destruct (String.eqb_spec (id s) wanted) as [E'|_]; [congruence | exact IH].
  - cbn [find]. rewrite IH. reflexivity.
Qed.

Lemma find_star_without_self (loserId : string) (stars : list StarData) :
  find_star loserId (without loserId stars) = None.
Proof.
  unfold find_star. induction stars as [|s stars IH]; [reflexivity|].
  rewrite without_cons. destruct (String.eqb (id s) loserId) eqn:E; [exact IH|].
  cbn [find]. rewrite E. exact IH.
Qed.

(** X13.  Once a merger has removed the loser, a body that still names
    the loser in [consumedBy] gets no predator position: no matter stream
    is drawn for it and it is not drawn stretched, whatever its
    [isShredding] flag.  A body that names any other predator gets the
    same predator position as before the merger. *)
Theorem predator_lookup_after_merger (winnerId loserId : string)
    (stars : list StarData) (star : StarData) :
  has_id winnerId stars = true -> has_id loserId stars = true ->
  let after := handleMerger winnerId loserId stars in
  (consumedBy star = Some loserId ->
   predatorPosition after star = None /\
   streamDrawn after star = false /\ drawnStretched after star = false) /\
  (forall predator, consumedBy star = Some predator -> predator <> loserId ->
   predatorPosition after star = predatorPosition stars star /\
   streamDrawn after star = streamDrawn stars star /\
   drawnStretched after star = drawnStretched stars star).
Proof.
  intros Hw Hl. cbv zeta. rewrite handleMerger_eq, Hw, Hl. cbn [andb].
  unfold streamDrawn, drawnStretched, predatorPosition. split.
  - intros C. rewrite C, find_star_without_self. rewrite andb_false_r. auto.
  - intros predator C N. rewrite C, (find_star_without predator loserId stars N). auto.
Qed.

Lemma predator_lookup_after_merger_witness :
  let star := set_isShredding true (set_consumedBy (Some "bh2"%string) third_body) in
  predatorPosition (handleMerger "bh1" "bh2" [star; survivor_hole; removed_hole]) star = None /\
  predatorPosition [star; survivor_hole; removed_hole] star = Some (mkPosition 19.9 0 0).
Proof.
  cbv zeta. split; [|reflexivity].
  destruct (predator_lookup_after_merger "bh1" "bh2"
              [set_isShredding true (set_consumedBy (Some "bh2"%string) third_body);
               survivor_hole; removed_hole]
              (set_isShredding true (set_consumedBy (Some "bh2"%string) third_body)))
    as (H & _).
  - reflexivity.
  - reflexivity.
  - apply H. reflexivity.
Defined.

(** X14.  [handleMerger] keeps the focus on a body of the registry: when
    the winner and the loser are both there, with different ids, a focus
    that was on the loser moves to the winner, any other focus stays, and
    a focus that named a body of the registry before names one after. *)
Theorem focus_follows_merger (focused winnerId loserId : string)
    (stars : list StarData) :
  has_id winnerId stars = true -> has_id loserId stars = true ->
  winnerId <> loserId -> has_id focused stars = true ->
  exists focused',
    handleMerger_focus (Some focused) winnerId loserId stars = Some focused' /\
    has_id focused' (handleMerger winnerId loserId stars) = true /\
    (focused = loserId -> focused' = winnerId) /\
    (focused <> loserId -> focused' = focused).
Proof.
  intros Hw Hl N Hf. unfold handleMerger_focus. rewrite handleMerger_eq, Hw, Hl.
  cbn [andb]. destruct (String.eqb_spec focused loserId) as [E|Ne].
  - exists winnerId. rewrite has_id_without by exact N. repeat split; auto.
    intros X. contradiction.
  - exists focused. rewrite has_id_without by exact Ne. repeat split; auto.
    intros X. contradiction.
Qed.

Lemma focus_follows_merger_witness :
  exists focused',
    handleMerger_focus (Some "bh2"%string) "bh1" "bh2"
      [third_body; survivor_hole; removed_hole] = Some focused' /\
    has_id focused' (handleMerger "bh1" "bh2" [third_body; survivor_hole; removed_hole])
    = true /\
    ("bh2"%string = "bh2"%string -> focused' = "bh1"%string) /\
    ("bh2"%string <> "bh2"%string -> focused' = "bh2"%string).
Proof.
  apply (focus_follows_merger "bh2" "bh1" "bh2" [third_body; survivor_hole; removed_hole]).
  - reflexivity.
  - reflexivity.
  - discriminate.
  - reflexivity.
Defined.

(** ** Further properties of the birth of a star *)

(** X15.  A new star is a compact object exactly when the mass of the
    cloud is 90 or more; its type is never the supermassive black hole
    nor the rogue planet; it has no accretion disk exactly when the mass
    is below 15, and a secondary colour exactly when it is a binary
    star. *)
Theorem newStar_compact_iff (cloud : CloudData) (rand : R) (v : Position)
    (ps : list PlanetData) :
  let star := newStar cloud rand v ps in
  (isBH star = true <-> 90 <= cloud_mass cloud) /\
  type star <> SUPERMASSIVE_BLACK_HOLE /\ type star <> ROGUE_PLANET /\
  (accretionDisk star = false <-> cloud_mass cloud < 15) /\
  (secondaryColor star <> None <-> type star = BINARY_STAR).
Proof.
  cbv zeta. unfold newStar, isBH. cbn [type accretionDisk secondaryColor].
  unfold classify.
  destruct (Rltb (cloud_mass cloud) 15) eqn:E15;
    [apply Rltb_true in E15 | apply Rltb_false in E15].
  { cbn. repeat split; try discriminate; try congruence; try lra; intros; lra || discriminate. }
  destruct (Rltb (cloud_mass cloud) 30) eqn:E30;
    [apply Rltb_true in E30 | apply Rltb_false in E30].
  { cbn. repeat split; try discriminate; try congruence; try lra; intros; lra || discriminate. }
  destruct (Rltb (cloud_mass cloud) 60) eqn:E60;
    [apply Rltb_true in E60 | apply Rltb_false in E60].
  { destruct (Rgtb rand 0.8); cbn;
      repeat split; try discriminate; try congruence; try lra; intros; lra || discriminate. }
  destruct (Rltb (cloud_mass cloud) 80) eqn:E80;
    [apply Rltb_true in E80 | apply Rltb_false in E80].
  { cbn. repeat split; try discriminate; try congruence; try lra; intros; lra || discriminate. }
  destruct (Rltb (cloud_mass cloud) 90) eqn:E90;
    [apply Rltb_true in E90 | apply Rltb_false in E90].
  { cbn. repeat split; try discriminate; try congruence; try lra; intros; lra || discriminate. }
  destruct (Rltb (cloud_mass cloud) 98) eqn:E98;
    [apply Rltb_true in E98 | apply Rltb_false in E98].
  { cbn. repeat split; try discriminate; try congruence; try lra; intros; lra || discriminate. }
  cbn. repeat split; try discriminate; try congruence; try lra; intros; lra || discriminate.
Qed.

Lemma newStar_compact_iff_witness :
  isBH (newStar (mkCloud "c" origin 95 5 false 0 0.2) 0.5 origin []) = true.
Proof.
  destruct (newStar_compact_iff (mkCloud "c" origin 95 5 false 0 0.2) 0.5 origin [])
    as (H & _).
  apply H. cbn [cloud_mass]. lra.
Defined.

Lemma classify_radius (m rand : R) : 0.5 <= cls_radius (classify m rand) <= 3.
Proof.
  unfold classify.
  destruct (Rltb m 15); [cbn [cls_radius]; lra|].
  destruct (Rltb m 30); [cbn [cls_radius]; lra|].
  destruct (Rltb m 60); [destruct (Rgtb rand 0.8); cbn [cls_radius]; lra|].
  destruct (Rltb m 80); [cbn [cls_radius]; lra|].
  destruct (Rltb m 90); [cbn [cls_radius]; lra|].
  destruct (Rltb m 98); cbn [cls_radius]; lra.
Qed.

(** X16.  A star born from a cloud of positive mass has a positive mass
    and a radius between 0.5 and 3, so it satisfies the invariant that
    the frames keep; it has the id, the position and the mass of the
    cloud, and ten times its rotation speed. *)
Theorem newStar_well_formed (cloud : CloudData) (rand : R) (v : Position)
    (ps : list PlanetData) :
  0 < cloud_mass cloud ->
  let star := newStar cloud rand v ps in
  well_formed star /\ 0.5 <= radius star <= 3 /\
  id star = cloud_id cloud /\ position star = cloud_position cloud /\
  mass star = cloud_mass cloud /\ rotationSpeed star = cloud_rotationSpeed cloud * 10 /\
  forall timeScale deltas registry,
    Forall well_formed registry ->
    Forall well_formed (run timeScale deltas (addStar star registry)).
Proof.
  intros H. cbv zeta.
  pose proof (classify_radius (cloud_mass cloud) rand) as R.
  assert (W : well_formed (newStar cloud rand v ps)).
  { unfold well_formed, newStar. cbn [mass radius]. split; [exact H | lra]. }
  split; [exact W|]. split; [exact R|].
  repeat (split; [reflexivity|]).
  intros timeScale deltas registry F.
  apply (run_Forall well_formed).
  - intros dt bodyA bodyB. apply pair_step_well_formed.
  - intros dt s Ws. exact Ws.
  - intros dt s Ws. exact Ws.
  - intros c s Ws. exact Ws.
  - unfold addStar. apply Forall_app.
    split; [exact F | constructor; [exact W | constructor]].
Qed.

Lemma newStar_well_formed_witness :
  well_formed (newStar (mkCloud "c" origin 95 5 false 0 0.2) 0.5 origin []).
Proof.
  apply (newStar_well_formed (mkCloud "c" origin 95 5 false 0 0.2) 0.5 origin []).
  cbn [cloud_mass]. lra.
Defined.

(** *** The planets *)

Lemma Math_floor_bounds (v : R) (lo hi : Z) :
  IZR lo <= v -> v < IZR hi -> (lo <= Math_floor v < hi)%Z.
Proof.
  intros L H. unfold Math_floor. destruct (base_Int_part v) as (B1 & B2).
  split.
  - apply Z.lt_succ_r. apply lt_IZR. rewrite succ_IZR. lra.
  - apply lt_IZR. lra.
Qed.

Lemma generatePlanets_nth (r rand : R) (draws : nat -> PlanetDraws) (i : nat) :
  (i < Z.to_nat (numPlanets rand))%nat ->
  nth_error (generatePlanets r rand draws) i = Some (generatePlanet r i (draws i)).
Proof.
  intros H. unfold generatePlanets.
  rewrite nth_error_map, nth_error_seq.
  replace (i <? Z.to_nat (numPlanets rand))%nat with true
    by (symmetry; apply Nat.ltb_lt; exact H).
  reflexivity.
Qed.

(** X17.  With a draw in [0, 1) a new star gets between 2 and 7 planets,
    none of them of the ice type; a planet is a gas planet of mass 0.01
    when its type draw exceeds 0.6 and a rocky planet of mass 0.002
    otherwise. *)
Theorem planets_count_and_types (r rand : R) (draws : nat -> PlanetDraws) :
  0 <= rand < 1 ->
  (2 <= length (generatePlanets r rand draws) <= 7)%nat /\
  Forall (fun p => planet_type p <> ice /\
                   (planet_type p = gas -> planet_mass p = Some 0.01) /\
                   (planet_type p = rocky -> planet_mass p = Some 0.002))
    (generatePlanets r rand draws) /\
  forall i p, nth_error (generatePlanets r rand draws) i = Some p ->
    (draw_type (draws i) > 0.6 -> planet_type p = gas) /\
    (draw_type (draws i) <= 0.6 -> planet_type p = rocky).
Proof.
  intros H.
  assert (N : (2 <= numPlanets rand < 8)%Z).
  { unfold numPlanets.
    destruct (Math_floor_bounds (rand * 6) 0 6) as (L & U); simpl; try lra. lia. }
  split; [|split].
  - unfold generatePlanets. rewrite length_map, length_seq. lia.
  - unfold generatePlanets. apply Forall_forall. intros p I.
    apply in_map_iff in I. destruct I as (i & <- & _).
    unfold generatePlanet. cbn [planet_type planet_mass].
    destruct (Rgtb (draw_type (draws i)) 0.6); cbn [PlanetType_eqb];
      repeat split; congruence.
  - intros i p E.
    assert (L : (i < Z.to_nat (numPlanets rand))%nat).
    { assert (X : nth_error (generatePlanets r rand draws) i <> None) by congruence.
      apply nth_error_Some in X. unfold generatePlanets in X.
      rewrite length_map, length_seq in X. exact X. }
    rewrite (generatePlanets_nth r rand draws i L) in E. inversion E; subst p.
    unfold generatePlanet. cbn [planet_type].
    split; intros D.
    + replace (Rgtb _ 0.6) with true by (symmetry; apply Rgtb_true; exact D). reflexivity.
    + replace (Rgtb _ 0.6) with false by (symmetry; apply Rgtb_false; exact D). reflexivity.
Qed.

Lemma planets_count_and_types_witness :
  (2 <= length (generatePlanets 1 0.5 (fun _ => mkPlanetDraws 0.7 "p" 0.5 0.5 0.5 0.5)) <= 7)%nat.
Proof.
  apply (planets_count_and_types 1 0.5 (fun _ => mkPlanetDraws 0.7 "p" 0.5 0.5 0.5 0.5)).
  lra.
Defined.

(** X18.  When the distance draws are in [0, 1), the planets of a new
    star lie on orbits that grow strictly with the index, the one of
    index i at a distance in [4 r + 2 i, 4 r + 2 i + 2) where r is the
    radius of the star; when the speed draws are not negative every
    angular speed is positive. *)
Theorem planets_orbits_increasing (r rand : R) (draws : nat -> PlanetDraws) :
  (forall i, 0 <= draw_distance (draws i) < 1) ->
  (forall i, 0 <= draw_speed (draws i)) ->
  (forall i j p q,
     nth_error (generatePlanets r rand draws) i = Some p ->
     nth_error (generatePlanets r rand draws) j = Some q ->
     (i < j)%nat -> planet_distance p < planet_distance q) /\
  (forall i p,
     nth_error (generatePlanets r rand draws) i = Some p ->
     r * 4 + INR i * 2 <= planet_distance p < r * 4 + INR i * 2 + 2 /\
     0 < planet_speed p).
Proof.
  intros Hd Hs.
  assert (B : forall i p, nth_error (generatePlanets r rand draws) i = Some p ->
                          p = generatePlanet r i (draws i)).
  { intros i p E.
    assert (X : nth_error (generatePlanets r rand draws) i <> None) by congruence.
    apply nth_error_Some in X. unfold generatePlanets in X.
    rewrite length_map, length_seq in X.
    rewrite (generatePlanets_nth r rand draws i X) in E. inversion E. reflexivity. }
  split.
  - intros i j p q Ep Eq L. rewrite (B i p Ep), (B j q Eq).
    unfold generatePlanet. cbn [planet_distance].
    pose proof (Hd i). pose proof (Hd j).
    assert (INR i + 1 <= INR j).
    { rewrite <- S_INR. apply le_INR. lia. }
    lra.
  - intros i p Ep. rewrite (B i p Ep). unfold generatePlanet.
    cbn [planet_distance planet_speed]. pose proof (Hd i). pose proof (Hs i).
    split; [lra|].
    apply Rdiv_lt_0_compat; [lra|]. unfold Math_sqrt. apply sqrt_lt_R0.
    pose proof (pos_INR i). lra.
Qed.

Lemma planets_orbits_increasing_witness :
  exists p,
    nth_error (generatePlanets 1 0.5 (fun _ => mkPlanetDraws 0.7 "p" 0.5 0.5 0.5 0.5)) 0
    = Some p /\ 0 < planet_speed p.
Proof.
  assert (L : (0 < Z.to_nat (numPlanets 0.5))%nat).
  { unfold numPlanets.
    destruct (Math_floor_bounds (0.5 * 6) 0 6) as (L & U); simpl; try lra. lia. }
  pose proof (generatePlanets_nth 1 0.5 (fun _ => mkPlanetDraws 0.7 "p" 0.5 0.5 0.5 0.5)
                0 L) as E.
  eexists. split; [exact E|].
  destruct (planets_orbits_increasing 1 0.5 (fun _ => mkPlanetDraws 0.7 "p" 0.5 0.5 0.5 0.5))
    as (_ & H).
  - intros j. cbn [draw_distance]. lra.
  - intros j. cbn [draw_speed]. lra.
  - apply (H _ _ E).
Defined.

(** ** Properties of the cloud handlers *)

Lemma find_cloud_map (wanted : string) (f : CloudData -> CloudData)
    (clouds : list CloudData) :
  (forall c, cloud_id (f c) = cloud_id c) ->
  find_cloud wanted (map f clouds)
  = match find_cloud wanted clouds with Some c => Some (f c) | None => None end.
Proof.
  intros H. unfold find_cloud. induction clouds as [|c clouds IH]; [reflexivity|].
  cbn [map find]. rewrite H. destruct (String.eqb (cloud_id c) wanted); [reflexivity|].
  exact IH.
Qed.

(** X19.  A click on a cloud: an id that names no cloud changes nothing;
    in zoom mode the click only moves the focus to the cloud and leaves
    zoom mode, and starts no collapse; outside zoom mode a click on a
    collapsing cloud changes nothing, and a click on a dormant cloud
    starts the collapse timer of that cloud and changes nothing but the
    clouds with that id, which become collapsing and are otherwise as
    they were: every other cloud, the stars, the focus and the zoom mode
    stay.  A second click on it then changes nothing and starts no second
    timer. *)
Theorem handleCloudClick_cases (st : AppState) (clicked : string) :
  (find_cloud clicked (app_clouds st) = None -> handleCloudClick st clicked = (st, None)) /\
  (forall cloud, find_cloud clicked (app_clouds st) = Some cloud ->
     app_isZoomMode st = true ->
     handleCloudClick st clicked
     = (mkApp (app_clouds st) (app_stars st) (Some clicked) false, None)) /\
  (forall cloud, find_cloud clicked (app_clouds st) = Some cloud ->
     app_isZoomMode st = false -> isCollapsing cloud = true ->
     handleCloudClick st clicked = (st, None)) /\
  (forall cloud, find_cloud clicked (app_clouds st) = Some cloud ->
     app_isZoomMode st = false -> isCollapsing cloud = false ->
     let st' := fst (handleCloudClick st clicked) in
     snd (handleCloudClick st clicked) = Some cloud /\
     app_stars st' = app_stars st /\ app_focusedId st' = app_focusedId st /\
     app_isZoomMode st' = app_isZoomMode st /\
     Forall2 (fun c c' =>
                (cloud_id c <> clicked -> c' = c) /\
                (cloud_id c = clicked -> c' = set_isCollapsing true c))
       (app_clouds st) (app_clouds st') /\
     map cloud_id (app_clouds st') = map cloud_id (app_clouds st) /\
     map cloud_mass (app_clouds st') = map cloud_mass (app_clouds st) /\
     map cloud_position (app_clouds st') = map cloud_position (app_clouds st) /\
     find_cloud clicked (app_clouds st') = Some (set_isCollapsing true cloud) /\
     handleCloudClick st' clicked = (st', None)).
Proof.
  unfold handleCloudClick. split; [|split; [|split]].
  - intros E. rewrite E. reflexivity.
  - intros cloud E Z. rewrite E, Z. reflexivity.
  - intros cloud E Z C. rewrite E, Z, C. reflexivity.
  - intros cloud E Z C. cbv zeta. rewrite E, Z, C. cbn [fst snd app_clouds app_stars
      app_focusedId app_isZoomMode].
    set (f := fun c => if String.eqb (cloud_id c) clicked then set_isCollapsing true c else c).
    assert (Fi : forall c, cloud_id (f c) = cloud_id c)
      by (intros c; unfold f; destruct (String.eqb _ _); reflexivity).
    assert (Fm : forall c, cloud_mass (f c) = cloud_mass c)
      by (intros c; unfold f; destruct (String.eqb _ _); reflexivity).
    assert (Fp : forall c, cloud_position (f c) = cloud_position c)
      by (intros c; unfold f; destruct (String.eqb _ _); reflexivity).
    assert (Ff : find_cloud clicked (map f (app_clouds st))
                 = Some (set_isCollapsing true cloud)).
    { rewrite (find_cloud_map clicked f _ Fi), E. unfold f.
      unfold find_cloud in E. apply find_some in E. destruct E as (_ & E).
      rewrite E. reflexivity. }
    split; [reflexivity|]. split; [reflexivity|]. split; [reflexivity|].
    split; [reflexivity|].
    split.
    { apply Forall2_map_same. intros c. unfold f.
      destruct (String.eqb_spec (cloud_id c) clicked) as [I|I]; split; intros J;
        solve [reflexivity | contradiction]. }
    split; [rewrite map_map; apply map_ext; exact Fi|].
    split; [rewrite map_map; apply map_ext; exact Fm|].
    split; [rewrite map_map; apply map_ext; exact Fp|].
    split; [exact Ff|].
    cbn [app_clouds app_isZoomMode]. fold f. rewrite Ff. reflexivity.
Qed.

Lemma handleCloudClick_cases_witness :
  let c := mkCloud "c" origin 50 5 false 0 0.2 in
  let d := mkCloud "d" (mkPosition 9 0 0) 70 6 false 0 0.3 in
  let st := mkApp [c; d] [] None false in
  snd (handleCloudClick st "c") = Some c /\
  app_isZoomMode (fst (handleCloudClick st "c")) = false /\
  exists c' d',
    app_clouds (fst (handleCloudClick st "c")) = [c'; d'] /\
    c' = set_isCollapsing true c /\ d' = d.
Proof.
  cbv zeta.
  destruct (handleCloudClick_cases
              (mkApp [mkCloud "c" origin 50 5 false 0 0.2;
                      mkCloud "d" (mkPosition 9 0 0) 70 6 false 0 0.3] [] None false) "c")
    as (_ & _ & _ & H).
  destruct (H (mkCloud "c" origin 50 5 false 0 0.2)) as (S & _ & _ & Z & F & _);
    [reflexivity | reflexivity | reflexivity |].
  cbv zeta in *. split; [exact S|]. split; [exact Z|].
  cbn [app_clouds] in F.
  remember (app_clouds (fst (handleCloudClick
             (mkApp [mkCloud "c" origin 50 5 false 0 0.2;
                     mkCloud "d" (mkPosition 9 0 0) 70 6 false 0 0.3] [] None false) "c")))
    as after eqn:A.
  clear A S Z H.
  inversion F as [|c0 c' l0 l' (_ & Hc) F' E0 El]. clear F.
  inversion F' as [|d0 d' l1 l'' (Hd & _) F'' E1 El']. clear F'.
  inversion F''.
  exists c', d'. split; [reflexivity|].
  split; [apply Hc; reflexivity | apply Hd; discriminate].
Defined.

Lemma NoDup_snoc (x : string) (l : list string) :
  NoDup l -> ~ In x l -> NoDup (l ++ [x]).
Proof.
  induction l as [|y l IH]; cbn [app]; intros N I.
  - constructor; [intros [] | constructor].
  - inversion N as [|? ? Ny N']; subst. constructor.
    + intros J. apply in_app_or in J. destruct J as [J|[J|[]]].
      * contradiction.
      * apply I. left. symmetry. exact J.
    + apply IH; [exact N'|]. intros J. apply I. right. exact J.
Qed.

Lemma NoDup_filter_app (f : CloudData -> bool) (clouds : list CloudData)
    (rest : list string) :
  NoDup (map cloud_id clouds ++ rest) -> NoDup (map cloud_id (filter f clouds) ++ rest).
Proof.
  induction clouds as [|c clouds IH]; cbn [map app filter]; intros N; [exact N|].
  inversion N as [|? ? Nc N']; subst.
  destruct (f c); [|apply IH, N'].
  cbn [map app]. constructor; [|apply IH, N'].
  intros I. apply Nc. apply in_app_or in I. apply in_or_app.
  destruct I as [I|I]; [left | right; exact I].
  apply in_map_iff in I. destruct I as (c' & E & I). apply filter_In in I.
  apply in_map_iff. exists c'. tauto.
Qed.

Lemma map_cloud_id_filter (wanted : string) (clouds : list CloudData) :
  map cloud_id (filter (fun c => negb (String.eqb (cloud_id c) wanted)) clouds)
  = filter (fun i => negb (String.eqb i wanted)) (map cloud_id clouds).
Proof.
  induction clouds as [|c l IH]; [reflexivity|]. cbn [filter map].
  destruct (String.eqb (cloud_id c) wanted); cbn [negb map]; rewrite IH; reflexivity.
Qed.

(** X20.  The collapse timer, for a cloud whose id is still among the
    clouds, in a universe whose clouds and stars have distinct ids: the
    cloud is replaced by its star.  One cloud fewer, one star more, the
    same ids in the universe and still distinct, the id now among the
    stars and no longer among the clouds, and the focus on the new
    star. *)
Theorem materialize_replaces_cloud (cloud : CloudData) (rand : R) (v : Position)
    (ps : list PlanetData) (st : AppState) :
  In (cloud_id cloud) (map cloud_id (app_clouds st)) -> NoDup (all_ids st) ->
  let st' := materialize cloud rand v ps st in
  NoDup (all_ids st') /\
  (forall i, In i (all_ids st') <-> In i (all_ids st)) /\
  S (length (app_clouds st')) = length (app_clouds st) /\
  length (app_stars st') = S (length (app_stars st)) /\
  ~ In (cloud_id cloud) (map cloud_id (app_clouds st')) /\
  has_id (cloud_id cloud) (app_stars st') = true /\
  app_focusedId st' = Some (cloud_id cloud).
Proof.
  intros Ic N. cbv zeta. unfold materialize, all_ids in *.
  cbn [app_clouds app_stars app_focusedId].
  set (keep := fun c => negb (String.eqb (cloud_id c) (cloud_id cloud))).
  assert (Nc : NoDup (map cloud_id (app_clouds st))) by (eapply NoDup_app_remove_r; exact N).
  assert (Ns : ~ In (cloud_id cloud) (map id (app_stars st))).
  { intros J. revert N Ic J. generalize (map id (app_stars st)) as B.
    generalize (map cloud_id (app_clouds st)) as A. intros A.
    induction A as [|a A IH]; cbn [app In]; intros B N J1 J2; [contradiction|].
    destruct J1 as [E|J1].
    - subst a. inversion N as [|? ? Na _]; subst. apply Na. apply in_or_app. right. exact J2.
    - inversion N; subst. eapply IH; eassumption. }
  assert (Mk : map cloud_id (filter keep (app_clouds st))
               = filter (fun i => negb (String.eqb i (cloud_id cloud)))
                   (map cloud_id (app_clouds st)))
    by apply map_cloud_id_filter.
  assert (Nk : ~ In (cloud_id cloud) (map cloud_id (filter keep (app_clouds st)))).
  { rewrite Mk. intros J. apply filter_In in J. destruct J as (_ & J).
    rewrite String.eqb_refl in J. discriminate J. }
  split; [|split; [|split; [|split; [|split; [|split]]]]].
  - unfold addStar. rewrite map_app. cbn [map]. rewrite app_assoc. apply NoDup_snoc.
    + apply NoDup_filter_app, N.
    + intros J. apply in_app_or in J. destruct J as [J|J]; contradiction.
  - intros i. unfold addStar. rewrite map_app. cbn [map id newStar].
    rewrite !in_app_iff, Mk, filter_In. cbn [In].
    destruct (String.eqb_spec i (cloud_id cloud)) as [E|Ne]; cbn [negb].
    + subst i. intuition congruence.
    + intuition congruence.
  - rewrite <- (length_map cloud_id (filter keep _)), Mk.
    rewrite <- (length_map cloud_id (app_clouds st)).
    apply length_filter_NoDup; assumption.
  - unfold addStar. rewrite length_app. cbn [length]. lia.
  - exact Nk.
  - apply has_id_In. exists (newStar cloud rand v ps). split; [|reflexivity].
    unfold addStar. apply in_or_app. right. left. reflexivity.
  - reflexivity.
Qed.

Lemma materialize_replaces_cloud_witness :
  let clicked := mkCloud "c" origin 50 5 false 0 0.2 in
  let st := fst (handleCloudClick (mkApp [clicked] [feeding_hole] None false) "c") in
  S (length (app_clouds (materialize clicked 0.5 origin [] st))) = 1%nat /\
  length (app_stars (materialize clicked 0.5 origin [] st)) = 2%nat.
Proof.
  cbv zeta.
  destruct (materialize_replaces_cloud (mkCloud "c" origin 50 5 false 0 0.2) 0.5 origin []
              (fst (handleCloudClick
                      (mkApp [mkCloud "c" origin 50 5 false 0 0.2] [feeding_hole] None false)
                      "c")))
    as (_ & _ & L1 & L2 & _).
  - left. reflexivity.
  - unfold all_ids.
    apply NoDup_cons; [cbn [In]; intros [X|[]]; discriminate X|].
    apply NoDup_cons; [intros []|apply NoDup_nil].
  - split; [exact L1 | exact L2].
Defined.

(** *** Spawning clouds *)

Lemma spawnCloud_shape (clouds : list CloudData) (d : CloudDraws) :
  (length (spawnCloud clouds d) <= Nat.max 31 (length clouds))%nat /\
  exists added, spawnCloud clouds d = clouds ++ added /\
                Forall (fun c => isCollapsing c = false /\ collapseProgress c = 0) added.
Proof.
  unfold spawnCloud. destruct (Nat.ltb_spec 30 (length clouds)) as [L|L].
  - split; [lia|]. exists []. rewrite app_nil_r. split; [reflexivity | constructor].
  - split; [rewrite length_app; cbn [length]; lia|].
    eexists. split; [reflexivity|]. constructor; [|constructor]. split; reflexivity.
Qed.

(** X21.  The population cap of [spawnCloud]: however many spawns are
    requested, the clouds that were there stay in place, every cloud
    added is dormant, and a registry of at most 31 clouds never grows
    beyond 31.  With more than 30 clouds a spawn does nothing; with 30 or
    fewer it adds one cloud, so the count can reach 31. *)
Theorem spawnCloud_cap (clouds : list CloudData) (ds : list CloudDraws) :
  let after := fold_left spawnCloud ds clouds in
  (length after <= Nat.max 31 (length clouds))%nat /\
  (exists added, after = clouds ++ added /\
                 Forall (fun c => isCollapsing c = false /\ collapseProgress c = 0) added) /\
  ((30 < length clouds)%nat -> after = clouds) /\
  ((length clouds <= 30)%nat ->
   forall d, length (spawnCloud clouds d) = S (length clouds)).
Proof.
  cbv zeta. split; [|split; [|split]].
  - revert clouds. induction ds as [|d ds IH]; intros clouds; cbn [fold_left]; [lia|].
    destruct (spawnCloud_shape clouds d) as (L & _). specialize (IH (spawnCloud clouds d)). lia.
  - revert clouds. induction ds as [|d ds IH]; intros clouds; cbn [fold_left].
    + exists []. rewrite app_nil_r. split; [reflexivity | constructor].
    + destruct (spawnCloud_shape clouds d) as (_ & a1 & E1 & F1).
      destruct (IH (spawnCloud clouds d)) as (a2 & E2 & F2).
      exists (a1 ++ a2). rewrite E2, E1, app_assoc. split; [reflexivity|].
      apply Forall_app. auto.
  - intros L. induction ds as [|d ds IH]; cbn [fold_left]; [reflexivity|].
    unfold spawnCloud at 2.
    replace (30 <? length clouds)%nat with true by (symmetry; apply Nat.ltb_lt; exact L).
    exact IH.
  - intros L d. unfold spawnCloud.
    replace (30 <? length clouds)%nat with false by (symmetry; apply Nat.ltb_ge; exact L).
    rewrite length_app. cbn [length]. lia.
Qed.

Lemma spawnCloud_cap_witness :
  length (spawnCloud [] (mkCloudDraws "n" 0.5 0.5 0.5 0.5 0.5 0.5)) = 1%nat.
Proof.
  destruct (spawnCloud_cap [] []) as (_ & _ & _ & H).
  apply H. cbn [length]. lia.
Defined.

(** X22.  [UniverseSpawner] adds a cloud only while the whole second of
    the clock is a multiple of 8 and not 0: when the test passes, the
    elapsed time lies in [8 k, 8 k + 1) for some k >= 1, so never in the
    first 8 seconds, and the draw is below 0.01. *)
Theorem spawn_due_windows (elapsedTime rand : R) :
  spawn_due elapsedTime rand = true ->
  rand < 0.01 /\ 8 <= elapsedTime /\
  exists k : Z, (1 <= k)%Z /\ IZR (8 * k) <= elapsedTime < IZR (8 * k) + 1.
Proof.
  unfold spawn_due. intros H.
  apply andb_true_iff in H. destruct H as (H & Hr).
  apply andb_true_iff in H. destruct H as (He & Hm).
  apply Rltb_true in Hr. apply Rgtb_true in He. apply Z.eqb_eq in Hm.
  unfold Math_floor in Hm. destruct (base_Int_part elapsedTime) as (B1 & B2).
  assert (F : (5 <= Int_part elapsedTime)%Z).
  { apply Z.lt_succ_r. apply lt_IZR. rewrite succ_IZR. lra. }
  assert (K : exists k, Int_part elapsedTime = (8 * k)%Z /\ (1 <= k)%Z).
  { exists (Int_part elapsedTime / 8)%Z.
    rewrite Z.rem_mod_nonneg in Hm by lia.
    pose proof (Z.div_mod (Int_part elapsedTime) 8) as D.
    split; [lia|]. apply Z.div_le_lower_bound; [lia|].
    destruct (Z.le_gt_cases 8 (Int_part elapsedTime)) as [G|G]; [lia|].
    rewrite Z.mod_small in Hm by lia. lia. }
  destruct K as (k & Ek & Lk).
  assert (I8 : IZR 8 <= IZR (Int_part elapsedTime)) by (apply IZR_le; lia).
  split; [exact Hr|]. split; [lra|].
  exists k. split; [exact Lk|]. rewrite <- Ek. lra.
Qed.

Lemma spawn_due_windows_witness : 8 <= 16.5.
Proof.
  apply (spawn_due_windows 16.5 0.001).
  unfold spawn_due.
  replace (Rgtb 16.5 5) with true by (symmetry; apply Rgtb_true; lra).
  replace (Rltb 0.001 0.01) with true by (symmetry; apply Rltb_true; lra).
  assert (E : Math_floor 16.5 = 16%Z).
  { destruct (Math_floor_bounds 16.5 16 17) as (L & U); simpl; try lra. lia. }
  rewrite E. reflexivity.
Defined.

(** ** Properties of the rendering components *)

(** X23.  The renderer and the physics agree on what a compact object is:
    [isBlackHole] of CelestialBody, an enumeration of three types, and
    [isBH] of PhysicsSystem, a substring test on the type name, give the
    same answer on every body. *)
Theorem isBlackHole_agrees_with_physics (data : StarData) :
  isBlackHole data = isBH data.
Proof. unfold isBlackHole, isBH. destruct (type data); reflexivity. Qed.

Lemma tick_ages_grow (stars : list StarData) (timeScale delta : R) :
  Forall2 (fun s s' => age s <= age s') stars (fst (tick stars timeScale delta)).
Proof.
  assert (Rr : forall s : StarData, age s <= age s) by (intros; lra).
  assert (Rt : forall a b c : StarData, age a <= age b -> age b <= age c -> age a <= age c)
    by (intros; lra).
  unfold tick. destruct (Reqb _ _); cbn [fst]; [apply Forall2_same, Rr|].
  set (dt := delta * timeScale).
  assert (A : Forall2 (fun s s' => age s <= age s') stars
                (if Rgtb dt 0 then map (update_age dt) stars else stars)).
  { destruct (Rgtb dt 0) eqn:E; [|apply Forall2_same, Rr].
    apply Rgtb_true in E. apply Forall2_map_same. intros s.
    cbn [age update_age set_age]. lra. }
  assert (L : Forall2 (fun s s' => age s <= age s') stars
                (bodies (pair_loops
                   (if Rgtb dt 0 then map (update_age dt) stars else stars) dt))).
  { eapply Forall2_compose; [exact Rt | exact A|].
    apply (pair_loops_invariant _ false dt); [exact Rr | exact Rt | | intros H; discriminate H].
    intros bodyA bodyB _.
    destruct (pair_step_static bodyA bodyB dt) as ((_ & _ & _ & Aa) & (_ & _ & _ & Ab)).
    rewrite Aa, Ab. split; lra. }
  destruct (stopped _); cbn [fst]; [exact L|].
  apply Forall2_map_r; [|exact L]. intros a b H. exact H.
Qed.

(** X24.  The formation progress of a body of non-negative age lies
    between 0 and 1, and the body is forming exactly while its age is
    below 800.  No tick makes it regress, a rewinding tick included: the
    progress of every body after the tick is at least what it was. *)
Theorem formation_never_regresses (stars : list StarData) (timeScale delta : R) :
  (forall s, 0 <= age s -> 0 <= formationProgress s <= 1) /\
  (forall s, isForming s = true <-> age s < 800) /\
  Forall2 (fun s s' => formationProgress s <= formationProgress s')
    stars (fst (tick stars timeScale delta)).
Proof.
  split; [|split].
  - intros s H. unfold formationProgress, Rmin.
    destruct (Rle_dec (age s / 800) 1); lra.
  - intros s. unfold isForming, formationProgress, Rmin. rewrite Rltb_true.
    destruct (Rle_dec (age s / 800) 1); lra.
  - pose proof (tick_ages_grow stars timeScale delta) as F.
    induction F as [|s s' l l' H _ IH]; constructor; [|exact IH].
    unfold formationProgress, Rmin.
    destruct (Rle_dec (age s / 800) 1), (Rle_dec (age s' / 800) 1); lra.
Qed.

Lemma formation_never_regresses_witness : 0 <= formationProgress feeding_dwarf <= 1.
Proof.
  destruct (formation_never_regresses [] 1 1) as (H & _).
  apply H. cbn [age feeding_dwarf yellowDwarf]. lra.
Defined.

(** *** Planet orbits *)

Lemma orbit_planets_frame (timeScale delta : R) (planets : list PlanetData) :
  orbit_planets timeScale delta planets
  = map (fun p => set_planet_angle (planet_angle p + planet_speed p * (delta * timeScale)) p)
      planets.
Proof.
  unfold orbit_planets.
  destruct (Reqb timeScale 0) eqn:E; cbn [negb andb].
  - apply Reqb_true in E. subst timeScale. rewrite Rmult_0_r.
    induction planets as [|p l IH]; [reflexivity|]. cbn [map]. rewrite <- IH.
    f_equal. destruct p. unfold set_planet_angle. cbn. f_equal. lra.
  - destruct planets; reflexivity.
Qed.

(** X25.  The planets move on circles at constant angular speed: a frame
    changes only the angle of a planet, the mesh of every planet lies at
    the distance of the planet from the star, and after any sequence of
    frames the angle is the starting angle plus speed times time scale
    times the sum of the frame deltas.  With time scale 0 nothing
    moves. *)
Theorem planets_orbit_on_circles (timeScale : R) (deltas : list R)
    (planets : list PlanetData) :
  let after := fold_left (fun ps delta => orbit_planets timeScale delta ps) deltas planets in
  Forall2 (fun p p' =>
             p' = set_planet_angle
                    (planet_angle p + planet_speed p * (timeScale * fold_right Rplus 0 deltas))
                    p /\
             planet_mesh_x p' * planet_mesh_x p' + planet_mesh_z p' * planet_mesh_z p'
             = planet_distance p * planet_distance p)
    planets after /\
  (timeScale = 0 -> after = planets).
Proof.
  cbv zeta.
  assert (S : forall (ds : list R) (ps : list PlanetData),
            fold_left (fun ps delta => orbit_planets timeScale delta ps) ds ps
            = map (fun p => set_planet_angle
                     (planet_angle p + planet_speed p * (timeScale * fold_right Rplus 0 ds)) p)
                ps).
  { induction ds as [|d ds IH]; intros ps; cbn [fold_left fold_right].
    - rewrite <- (map_id ps) at 1. apply map_ext. intros p. destruct p.
      unfold set_planet_angle. cbn. f_equal. lra.
    - rewrite IH, orbit_planets_frame, map_map. apply map_ext. intros p.
      unfold set_planet_angle. cbn. f_equal. lra. }
  split.
  - rewrite S. induction planets as [|p l IH]; cbn [map]; constructor; [|exact IH].
    split; [reflexivity|]. unfold planet_mesh_x, planet_mesh_z, set_planet_angle.
    cbn [planet_angle planet_distance].
    set (a := planet_angle p + planet_speed p * (timeScale * fold_right Rplus 0 deltas)).
    replace (cos a * planet_distance p * (cos a * planet_distance p)
             + sin a * planet_distance p * (sin a * planet_distance p))
      with (planet_distance p * planet_distance p * (Rsqr (sin a) + Rsqr (cos a)))
      by (unfold Rsqr; ring).
    rewrite sin2_cos2. ring.
  - intros Z. rewrite S. subst timeScale. rewrite <- (map_id planets) at 2.
    apply map_ext. intros p. destruct p. unfold set_planet_angle. cbn. f_equal. lra.
Qed.

Lemma planets_orbit_on_circles_witness :
  fold_left (fun ps delta => orbit_planets 0 delta ps) [1; 1]
    [mkPlanet "p" 5 0.2 1 0 "#888888" rocky (Some 0.002)]
  = [mkPlanet "p" 5 0.2 1 0 "#888888" rocky (Some 0.002)].
Proof.
  apply (planets_orbit_on_circles 0 [1; 1]
           [mkPlanet "p" 5 0.2 1 0 "#888888" rocky (Some 0.002)]).
  reflexivity.
Defined.

(** X26.  The two stars of a binary system are always diametrically
    opposite: at every clock time the secondary is at minus the position
    of the primary, and both are at 1.5 radii from the centre of the
    system. *)
Theorem binary_components_opposite (data : StarData) (timeScale elapsedTime : R) :
  let p := binary_primary data timeScale elapsedTime in
  let s := binary_secondary data timeScale elapsedTime in
  fst s = - fst p /\ snd s = - snd p /\
  fst p * fst p + snd p * snd p = (radius data * 1.5) * (radius data * 1.5) /\
  fst s * fst s + snd s * snd s = (radius data * 1.5) * (radius data * 1.5).
Proof.
  cbv zeta. unfold binary_primary, binary_secondary. cbn [fst snd].
  set (a := elapsedTime * timeScale * (rotationSpeed data * 0.5)).
  rewrite neg_cos, neg_sin.
  assert (C : Rsqr (sin a) + Rsqr (cos a) = 1) by apply sin2_cos2.
  unfold Rsqr in C.
  repeat split; try ring.
  - replace (cos a * (radius data * 1.5) * (cos a * (radius data * 1.5))
             + sin a * (radius data * 1.5) * (sin a * (radius data * 1.5)))
      with (radius data * 1.5 * (radius data * 1.5) * (sin a * sin a + cos a * cos a))
      by ring.
    rewrite C. ring.
  - replace (- cos a * (radius data * 1.5) * (- cos a * (radius data * 1.5))
             + - sin a * (radius data * 1.5) * (- sin a * (radius data * 1.5)))
      with (radius data * 1.5 * (radius data * 1.5) * (sin a * sin a + cos a * cos a))
      by ring.
    rewrite C. ring.
Qed.

(** X27.  The scale towards which a shredded body is stretched keeps its
    volume: the stretch along the axis to the predator stays between 1.4
    and 1.6, and squash * squash * stretch = 1 at every clock time. *)
Theorem spaghettification_keeps_volume (elapsedTime : R) :
  1.4 <= stretch elapsedTime <= 1.6 /\
  0 < squash elapsedTime /\
  squash elapsedTime * squash elapsedTime * stretch elapsedTime = 1.
Proof.
  unfold squash, stretch, Math_sqrt.
  pose proof (SIN_bound (elapsedTime * 20)) as (L & U).
  set (s := 1.5 + sin (elapsedTime * 20) * 0.1) in *.
  assert (P : 0 < s) by (unfold s; lra).
  assert (Q : 0 < sqrt s) by (apply sqrt_lt_R0; exact P).
  split; [unfold s; lra|].
  split; [apply Rdiv_lt_0_compat; lra|].
  pose proof (sqrt_sqrt s (Rlt_le _ _ P)) as E.
  rewrite <- E at 3. field. lra.
Qed.

(** ** Properties of the collapsing cloud *)




(** ** Properties of the description service *)

(** X29.  [generateStarDescription] always yields a text that is not
    empty, whatever the service does: the answer itself when it has a
    non-empty text, one fixed sentence when the text is absent or empty,
    and another when the call throws. *)
Theorem description_never_empty (outcome : GenerateOutcome) :
  generateStarDescription outcome <> EmptyString /\
  (forall text, outcome = Responded (Some text) -> text <> EmptyString ->
                generateStarDescription outcome = text) /\
  generateStarDescription (Responded (Some EmptyString))
  = generateStarDescription (Responded None).
Proof.
  split; [|split].
  - destruct outcome as [|[text|]]; cbn [generateStarDescription]; try discriminate.
    destruct (String.eqb_spec text EmptyString); [discriminate | assumption].
  - intros text -> N. cbn [generateStarDescription].
    destruct (String.eqb_spec text EmptyString); [contradiction | reflexivity].
  - reflexivity.
Qed.

Lemma description_never_empty_witness :
  generateStarDescription (Responded (Some "Nasceu."%string)) = "Nasceu."%string.
Proof.
  destruct (description_never_empty (Responded (Some "Nasceu."%string))) as (_ & H & _).
  apply H; [reflexivity | discriminate].
Defined.

(** ** Who can be named as a predator *)

(** A pair interaction writes [consumedBy] only to name the other body of
    the pair, and only when that body is compact. *)
Lemma pair_step_new_predator (dt : R) (bodyA bodyB : StarData) :
  let r := pair_step bodyA bodyB dt in
  (forall p, consumedBy (resA r) = Some p ->
     consumedBy bodyA = Some p \/ (p = id bodyB /\ isBH bodyB = true)) /\
  (forall p, consumedBy (resB r) = Some p ->
     consumedBy bodyB = Some p \/ (p = id bodyA /\ isBH bodyA = true)).
Proof.
  cbv zeta. rewrite pair_step_eq.
  destruct (forces_and_capture_fields bodyA bodyB dt)
    as ((Ia & _ & _ & _ & _ & Ca & _) & (Ib & _ & _ & _ & _ & Cb & _)).
  cbv zeta in *.
  set (a := fst (forces_and_capture bodyA bodyB dt)) in *.
  set (b := snd (forces_and_capture bodyA bodyB dt)) in *.
  unfold feeding_merging.
  destruct (Rltb (dist bodyA bodyB) (mergeThreshold bodyA bodyB)).
  { destruct (winnerIsB bodyA bodyB); cbn [resA resB]; unfold merge;
      cbn [consumedBy set_radius set_mass set_velocity]; rewrite ?Ca, ?Cb; auto. }
  destruct (Rltb (dist bodyA bodyB) (feedingThreshold bodyA bodyB)) eqn:F;
    [|cbn [resA resB]; rewrite Ca, Cb; auto].
  destruct (Rgtb _ 0.1); [|cbn [resA resB]; rewrite Ca, Cb; auto].
  apply Rltb_true in F. unfold feedingThreshold in F.
  assert (E : isBH bodyA || isBH bodyB = true).
  { destruct (isBH bodyA || isBH bodyB); [reflexivity|].
    pose proof (dist_nonneg bodyA bodyB). lra. }
  pose proof (winnerIsB_eq bodyA bodyB) as W.
  destruct (winnerIsB bodyA bodyB); cbn [resA resB]; unfold shred;
    cbn [consumedBy set_velocity set_isShredding set_consumedBy]; rewrite ?Ca, ?Cb.
  - split; [|auto]. intros p H. inversion H; subst p. right. split; [exact Ib|].
    destruct (isBH bodyA), (isBH bodyB); cbn in W, E; congruence.
  - split; [auto|]. intros p H. inversion H; subst p. right. split; [exact Ia|].
    destruct (isBH bodyA), (isBH bodyB); cbn in W, E; congruence.
Qed.

(** X30.  Only a compact body is ever named as a predator: if every
    [consumedBy] of the array names a compact body of the array, the same
    holds of the array that the tick leaves (a merged loser still in
    it). *)
Theorem tick_predators_compact (stars : list StarData) (timeScale delta : R) :
  predators_compact stars -> predators_compact (fst (tick stars timeScale delta)).
Proof.
  intros H.
  set (P := fun s : StarData =>
              (isBH s = true -> compact_id stars (id s)) /\
              (forall p, consumedBy s = Some p -> compact_id stars p)).
  assert (P0 : Forall P stars).
  { apply Forall_forall. intros s I. split.
    - intros B. exists s. auto.
    - intros p C. exact (H s p I C). }
  assert (PT : Forall P (fst (tick stars timeScale delta))).
  { apply tick_Forall; [| | | exact P0].
    - intros dt bodyA bodyB (Ka & Ca) (Kb & Cb).
      destruct (pair_step_static bodyA bodyB dt) as ((Ia & _ & Ta & _) & (Ib & _ & Tb & _)).
      destruct (pair_step_new_predator dt bodyA bodyB) as (Na & Nb).
      split; split.
      + unfold isBH. rewrite Ta, Ia. exact Ka.
      + intros p E. destruct (Na p E) as [E'|(-> & B)]; auto.
      + unfold isBH. rewrite Tb, Ib. exact Kb.
      + intros p E. destruct (Nb p E) as [E'|(-> & B)]; auto.
    - intros dt s Ps. exact Ps.
    - intros dt s Ps. exact Ps. }
  destruct (tick_ids_types stars timeScale delta) as (Si & St).
  assert (K : forall p, compact_id stars p ->
                        compact_id (fst (tick stars timeScale delta)) p).
  { intros p (t & It & Et & Bt).
    revert Si St It. generalize (fst (tick stars timeScale delta)) as after.
    clear - Et Bt. induction stars as [|s l IH]; intros after Si St It; [contradiction|].
    destruct after as [|s' l']; [discriminate Si|].
    cbn [map] in Si, St. injection Si as Si1 Si2. injection St as St1 St2.
    destruct It as [->|It].
    - exists s'. split; [left; reflexivity|]. split; [congruence|].
      unfold isBH in *. rewrite St1. exact Bt.
    - destruct (IH l' Si2 St2 It) as (t' & It' & Et' & Bt').
      exists t'. split; [right; exact It' | auto]. }
  intros s p I C. apply K. rewrite Forall_forall in PT. destruct (PT s I) as (_ & Q).
  exact (Q p C).
Qed.

Lemma tick_predators_compact_witness :
  predators_compact (fst (tick [feeding_hole; feeding_dwarf] 1 1)).
Proof.
  apply (tick_predators_compact [feeding_hole; feeding_dwarf] 1 1).
  intros s p [<-|[<-|[]]] C; discriminate C.
Defined.
